(** * local-ai-raycast: stream decoder, transport client and tool orchestrator

    A shallow embedding of [src/lib/streaming.ts], [src/lib/api.ts],
    [src/lib/web-search.ts] and [src/lib/tools.ts], followed by the
    properties of the specification that are stated about them.

    Conventions.
    - A JavaScript string is the list of its UTF-16 code units, each a [Z].
    - A byte (an element of a [Uint8Array]) is a [Z] in [0, 256).
    - Platform services that live outside the repository (the HTTP [fetch],
      the file system, the preference store) are [Variable]s of a [Section]:
      every statement holds for all of them.
    - Asynchronous functions are modelled in direct style: the code awaits
      every promise it creates before going on, so a turn has one flow of
      control. *)

From Stdlib Require Import ZArith List Bool Lia String Ascii.
From stdpp Require Import base option list gmap.

Open Scope Z_scope.

#[global] Set Warnings "-register-all".

(* ===================================================================== *)
(** ** JavaScript strings *)
(* ===================================================================== *)

Module JsString.

Abbreviation jsstring := (list Z).

(** An ASCII literal as a JavaScript string (also used for byte strings:
    ASCII text is its own UTF-8 encoding). *)
Definition js (s : string) : jsstring :=
  map (fun a => Z.of_N (N_of_ascii a)) (list_ascii_of_string s).

(** A literal in which the apostrophe stands for the double quote. *)
Definition jsq (s : string) : jsstring :=
  map (fun c => if c =? 0x27 then 0x22 else c) (js s).

(** [a === b] on strings. *)
Fixpoint str_eqb (a b : jsstring) : bool :=
  match a, b with
  | [], [] => true
  | x :: a', y :: b' => (x =? y) && str_eqb a' b'
  | _, _ => false
  end.

(** [s.startsWith(p)]. *)
Fixpoint startsWith (p s : jsstring) : bool :=
  match p, s with
  | [], _ => true
  | x :: p', y :: s' => (x =? y) && startsWith p' s'
  | _ :: _, [] => false
  end.

(** [s.includes(p)]. *)
Fixpoint includes (p s : jsstring) : bool :=
  startsWith p s ||
  match s with
  | [] => false
  | _ :: s' => includes p s'
  end.

(** [s.slice(n)] for [0 <= n]. *)
Definition slice (n : nat) (s : jsstring) : jsstring := drop n s.

(** ECMAScript WhiteSpace and LineTerminator code units, the ones
    [String.prototype.trim] removes. *)
Definition is_white (c : Z) : bool :=
  (c =? 0x09) || (c =? 0x0A) || (c =? 0x0B) || (c =? 0x0C) || (c =? 0x0D)
  || (c =? 0x20) || (c =? 0xA0) || (c =? 0x1680)
  || ((0x2000 <=? c) && (c <=? 0x200A))
  || (c =? 0x2028) || (c =? 0x2029) || (c =? 0x202F) || (c =? 0x205F)
  || (c =? 0x3000) || (c =? 0xFEFF).

Fixpoint trimStart (s : jsstring) : jsstring :=
  match s with
  | c :: s' => if is_white c then trimStart s' else s
  | [] => []
  end.

Definition trimEnd (s : jsstring) : jsstring := rev (trimStart (rev s)).

(** [s.trim()]. *)
Definition trim (s : jsstring) : jsstring := trimEnd (trimStart s).

(** [s.split(sep)] for a one-unit separator: never the empty array. *)
Fixpoint split (sep : Z) (s : jsstring) : list jsstring :=
  match s with
  | [] => [[]]
  | c :: s' =>
      if c =? sep then [] :: split sep s'
      else match split sep s' with
           | l :: ls => (c :: l) :: ls
           | [] => [[c]]
           end
  end.

(** [arr.pop()]: the array without its last element, and that element
    ([None] for [undefined], on the empty array). *)
Definition pop {A} (l : list A) : list A * option A :=
  (removelast l, last l).

(** [arr.join(sep)]. *)
Fixpoint join (sep : jsstring) (l : list jsstring) : jsstring :=
  match l with
  | [] => []
  | [x] => x
  | x :: l' => x ++ sep ++ join sep l'
  end.

(** Decimal digits of a non-negative integer, most significant first;
    [fuel] bounds the number of digits. *)
Fixpoint digits_of (fuel : nat) (n : Z) (acc : jsstring) : jsstring :=
  match fuel with
  | O => acc
  | S fuel' =>
      let acc' := (0x30 + n mod 10) :: acc in
      if n / 10 =? 0 then acc' else digits_of fuel' (n / 10) acc'
  end.

(** [String(n)] / [`${n}`] for an integer [n]. *)
Definition string_of_int (n : Z) : jsstring :=
  if n <? 0 then 0x2D :: digits_of (S (Z.to_nat (Z.log2 (- n)))) (- n) []
  else digits_of (S (Z.to_nat (Z.log2 n))) n [].

End JsString.

Export JsString.

(* ===================================================================== *)
(** ** [TextDecoder] (UTF-8, streaming) *)
(* ===================================================================== *)

Module TextDecoder.

(** State of the UTF-8 decoder of the Encoding Standard, with the
    "BOM seen" flag of the [TextDecoder] object that owns it. *)
Record t := mk {
  code_point : Z;
  bytes_seen : Z;
  bytes_needed : Z;
  lower : Z;
  upper : Z;
  bom_seen : bool
}.

(** [new TextDecoder()]. *)
Definition create : t :=
  {| code_point := 0; bytes_seen := 0; bytes_needed := 0;
     lower := 0x80; upper := 0xBF; bom_seen := false |}.

Definition reset (d : t) : t :=
  {| code_point := 0; bytes_seen := 0; bytes_needed := 0;
     lower := 0x80; upper := 0xBF; bom_seen := bom_seen d |}.

(** The handler on a lead position (bytes needed is 0): the new state
    and the code points emitted (U+FFFD for an error). *)
Definition lead (d : t) (b : Z) : t * list Z :=
  if (0 <=? b) && (b <=? 0x7F) then (d, [b])
  else if (0xC2 <=? b) && (b <=? 0xDF) then
    ({| code_point := Z.land b 0x1F; bytes_seen := 0; bytes_needed := 1;
        lower := lower d; upper := upper d; bom_seen := bom_seen d |}, [])
  else if (0xE0 <=? b) && (b <=? 0xEF) then
    ({| code_point := Z.land b 0xF; bytes_seen := 0; bytes_needed := 2;
        lower := if b =? 0xE0 then 0xA0 else lower d;
        upper := if b =? 0xED then 0x9F else upper d;
        bom_seen := bom_seen d |}, [])
  else if (0xF0 <=? b) && (b <=? 0xF4) then
    ({| code_point := Z.land b 0x7; bytes_seen := 0; bytes_needed := 3;
        lower := if b =? 0xF0 then 0x90 else lower d;
        upper := if b =? 0xF4 then 0x8F else upper d;
        bom_seen := bom_seen d |}, [])
  else (d, [0xFFFD]).

(** The handler on one byte. A byte outside the expected continuation
    range ends the sequence with an error and is handled again as a
    lead byte. *)
Definition handler (d : t) (b : Z) : t * list Z :=
  if bytes_needed d =? 0 then lead d b
  else if negb ((lower d <=? b) && (b <=? upper d)) then
    let '(d', out) := lead (reset d) b in (d', 0xFFFD :: out)
  else
    let cp := Z.lor (Z.shiftl (code_point d) 6) (Z.land b 0x3F) in
    let seen := bytes_seen d + 1 in
    if negb (seen =? bytes_needed d) then
      ({| code_point := cp; bytes_seen := seen;
          bytes_needed := bytes_needed d;
          lower := 0x80; upper := 0xBF; bom_seen := bom_seen d |}, [])
    else (reset d, [cp]).

(** UTF-16 code units of a code point. *)
Definition units_of (cp : Z) : jsstring :=
  if cp <=? 0xFFFF then [cp]
  else [0xD800 + Z.shiftr (cp - 0x10000) 10;
        0xDC00 + Z.land (cp - 0x10000) 0x3FF].

(** Serialization of the emitted code points: the first one ever
    emitted is dropped when it is the byte order mark. *)
Fixpoint serialize (seen : bool) (cps : list Z) : bool * jsstring :=
  match cps with
  | [] => (seen, [])
  | cp :: cps' =>
      let '(seen', out) := serialize true cps' in
      if negb seen && (cp =? 0xFEFF) then (seen', out)
      else (seen', units_of cp ++ out)
  end.

Definition with_bom (d : t) (seen : bool) : t :=
  {| code_point := code_point d; bytes_seen := bytes_seen d;
     bytes_needed := bytes_needed d; lower := lower d; upper := upper d;
     bom_seen := seen |}.

Definition decode_byte (d : t) (b : Z) : t * jsstring :=
  let '(d', cps) := handler d b in
  let '(seen, out) := serialize (bom_seen d') cps in
  (with_bom d' seen, out).

(** [decoder.decode(value, { stream: true })]: the decoder keeps its
    state, an incomplete sequence at the end of [value] stays pending. *)
Fixpoint decode (d : t) (value : list Z) : t * jsstring :=
  match value with
  | [] => (d, [])
  | b :: value' =>
      let '(d1, out1) := decode_byte d b in
      let '(d2, out2) := decode d1 value' in
      (d2, out1 ++ out2)
  end.

End TextDecoder.

(* ===================================================================== *)
(** ** JSON values and [JSON.parse] *)
(* ===================================================================== *)

Module Json.

(** A value [JSON.parse] can return. A number keeps its decimal
    reading [m * 10^e]; an object keeps its members in source order. *)
Inductive json :=
| JNull
| JBool (b : bool)
| JNum (m e : Z)
| JStr (s : jsstring)
| JArr (items : list json)
| JObj (members : list (jsstring * json)).

Definition is_json_ws (c : Z) : bool :=
  (c =? 0x20) || (c =? 0x09) || (c =? 0x0A) || (c =? 0x0D).

Fixpoint skip_ws (s : jsstring) : jsstring :=
  match s with
  | c :: s' => if is_json_ws c then skip_ws s' else s
  | [] => []
  end.

Definition is_digit (c : Z) : bool := (0x30 <=? c) && (c <=? 0x39).

Definition hex_val (c : Z) : option Z :=
  if is_digit c then Some (c - 0x30)
  else if (0x41 <=? c) && (c <=? 0x46) then Some (c - 0x41 + 10)
  else if (0x61 <=? c) && (c <=? 0x66) then Some (c - 0x61 + 10)
  else None.

(** The character a one-letter escape stands for. *)
Definition unescape (c : Z) : option Z :=
  if c =? 0x22 then Some 0x22          (* quotation mark *)
  else if c =? 0x5C then Some 0x5C     (* reverse solidus *)
  else if c =? 0x2F then Some 0x2F     (* solidus *)
  else if c =? 0x62 then Some 0x08     (* backspace *)
  else if c =? 0x66 then Some 0x0C     (* form feed *)
  else if c =? 0x6E then Some 0x0A     (* line feed *)
  else if c =? 0x72 then Some 0x0D     (* carriage return *)
  else if c =? 0x74 then Some 0x09     (* tab *)
  else None.

(** A string body, read after its opening quote: the string and the
    input after the closing quote. *)
Fixpoint parse_string (s : jsstring) : option (jsstring * jsstring) :=
  match s with
  | [] => None
  | c :: s1 =>
      if c =? 0x22 then Some ([], s1)
      else if c =? 0x5C then
        match s1 with
        | [] => None
        | e :: s2 =>
            if e =? 0x75 then
              match s2 with
              | h1 :: h2 :: h3 :: h4 :: s3 =>
                  match hex_val h1, hex_val h2, hex_val h3, hex_val h4 with
                  | Some a, Some b, Some c', Some d =>
                      match parse_string s3 with
                      | Some (str, rest) =>
                          Some ((((a * 16 + b) * 16 + c') * 16 + d) :: str, rest)
                      | None => None
                      end
                  | _, _, _, _ => None
                  end
              | _ => None
              end
            else
              match unescape e with
              | Some u =>
                  match parse_string s2 with
                  | Some (str, rest) => Some (u :: str, rest)
                  | None => None
                  end
              | None => None
              end
        end
      else if c <? 0x20 then None
      else
        match parse_string s1 with
        | Some (str, rest) => Some (c :: str, rest)
        | None => None
        end
  end.

(** The longest run of digits: its value continued from [acc], how
    many there are, and the input after it. *)
Fixpoint take_digits (s : jsstring) (acc : Z) (n : Z) : Z * Z * jsstring :=
  match s with
  | c :: s' =>
      if is_digit c then take_digits s' (acc * 10 + (c - 0x30)) (n + 1)
      else (acc, n, s)
  | [] => (acc, n, [])
  end.

(** The integer part: a single [0], or a digit run that starts with
    [1]-[9]. *)
Definition parse_int (s : jsstring) : option (Z * jsstring) :=
  match s with
  | c :: s' =>
      if c =? 0x30 then Some (0, s')
      else if is_digit c then
        let '(v, _, rest) := take_digits s 0 0 in Some (v, rest)
      else None
  | [] => None
  end.

(** The optional fraction: the mantissa extended with its digits and
    the number of those digits. *)
Definition parse_frac (m : Z) (s : jsstring) : option (Z * Z * jsstring) :=
  match s with
  | c :: s' =>
      if c =? 0x2E then
        let '(v, n, rest) := take_digits s' m 0 in
        if n =? 0 then None else Some (v, n, rest)
      else Some (m, 0, s)
  | [] => Some (m, 0, [])
  end.

(** The optional exponent. *)
Definition parse_exp (s : jsstring) : option (Z * jsstring) :=
  match s with
  | c :: s' =>
      if (c =? 0x65) || (c =? 0x45) then
        let '(sign, s'') :=
          match s' with
          | d :: t =>
              if d =? 0x2B then (1, t)
              else if d =? 0x2D then (-1, t)
              else (1, s')
          | [] => (1, s')
          end in
        let '(v, n, rest) := take_digits s'' 0 0 in
        if n =? 0 then None else Some (sign * v, rest)
      else Some (0, s)
  | [] => Some (0, [])
  end.

Definition parse_number (s : jsstring) : option (json * jsstring) :=
  let '(sign, s1) :=
    match s with
    | c :: s' => if c =? 0x2D then (-1, s') else (1, s)
    | [] => (1, s)
    end in
  match parse_int s1 with
  | None => None
  | Some (i, s2) =>
      match parse_frac i s2 with
      | None => None
      | Some (m, k, s3) =>
          match parse_exp s3 with
          | None => None
          | Some (e, s4) => Some (JNum (sign * m) (e - k), s4)
          end
      end
  end.

(** One value with the white space before it. [fuel] bounds the depth
    of the calls; every second call consumes a character. *)
Fixpoint parse_value (fuel : nat) (s : jsstring) : option (json * jsstring) :=
  match fuel with
  | O => None
  | S fuel' =>
      match skip_ws s with
      | [] => None
      | c :: s1 =>
          if c =? 0x7B then                              (* { *)
            match skip_ws s1 with
            | c2 :: s2 =>
                if c2 =? 0x7D then Some (JObj [], s2)
                else
                  match parse_members fuel' s1 with
                  | Some (ms, rest) => Some (JObj ms, rest)
                  | None => None
                  end
            | [] => None
            end
          else if c =? 0x5B then                         (* [ *)
            match skip_ws s1 with
            | c2 :: s2 =>
                if c2 =? 0x5D then Some (JArr [], s2)
                else
                  match parse_elements fuel' s1 with
                  | Some (vs, rest) => Some (JArr vs, rest)
                  | None => None
                  end
            | [] => None
            end
          else if c =? 0x22 then                         (* string *)
            match parse_string s1 with
            | Some (str, rest) => Some (JStr str, rest)
            | None => None
            end
          else if startsWith (js "true") (c :: s1) then
            Some (JBool true, drop 4 (c :: s1))
          else if startsWith (js "false") (c :: s1) then
            Some (JBool false, drop 5 (c :: s1))
          else if startsWith (js "null") (c :: s1) then
            Some (JNull, drop 4 (c :: s1))
          else parse_number (c :: s1)
      end
  end

(** The elements of a non-empty array, up to and including its [\]]. *)
with parse_elements (fuel : nat) (s : jsstring)
  : option (list json * jsstring) :=
  match fuel with
  | O => None
  | S fuel' =>
      match parse_value fuel' s with
      | None => None
      | Some (v, rest) =>
          match skip_ws rest with
          | c :: rest' =>
              if c =? 0x5D then Some ([v], rest')
              else if c =? 0x2C then
                match parse_elements fuel' rest' with
                | Some (vs, rest'') => Some (v :: vs, rest'')
                | None => None
                end
              else None
          | [] => None
          end
      end
  end

(** The members of a non-empty object, up to and including its [}]. *)
with parse_members (fuel : nat) (s : jsstring)
  : option (list (jsstring * json) * jsstring) :=
  match fuel with
  | O => None
  | S fuel' =>
      match skip_ws s with
      | q :: s1 =>
          if q =? 0x22 then
            match parse_string s1 with
            | None => None
            | Some (key, s2) =>
                match skip_ws s2 with
                | colon :: s3 =>
                    if colon =? 0x3A then
                      match parse_value fuel' s3 with
                      | None => None
                      | Some (v, rest) =>
                          match skip_ws rest with
                          | c :: rest' =>
                              if c =? 0x7D then Some ([(key, v)], rest')
                              else if c =? 0x2C then
                                match parse_members fuel' rest' with
                                | Some (ms, rest'') =>
                                    Some ((key, v) :: ms, rest'')
                                | None => None
                                end
                              else None
                          | [] => None
                          end
                      end
                    else None
                | [] => None
                end
            end
          else None
      | [] => None
      end
  end.

(** [JSON.parse(text)]: [None] stands for the [SyntaxError] it throws. *)
Definition JSON_parse (text : jsstring) : option json :=
  match parse_value (2 * length text + 2) text with
  | Some (v, rest) =>
      match skip_ws rest with
      | [] => Some v
      | _ :: _ => None
      end
  | None => None
  end.

(** The own property [key] of an object: of two members with the same
    key the later one is the property. *)
Fixpoint lookup (key : jsstring) (members : list (jsstring * json))
  : option json :=
  match members with
  | [] => None
  | (k, v) :: rest =>
      match lookup key rest with
      | Some v' => Some v'
      | None => if str_eqb k key then Some v else None
      end
  end.

(** [v.key] for a value that is neither [null] nor [undefined] and a
    key that is no index, is not ["length"] and names nothing on the
    built-in prototypes: [None] is [undefined]. *)
Definition get (key : jsstring) (v : json) : option json :=
  match v with
  | JObj members => lookup key members
  | _ => None
  end.

(** [v[0]] for a value that is neither [null] nor [undefined]. *)
Definition get0 (v : json) : option json :=
  match v with
  | JArr (x :: _) => Some x
  | JStr (c :: _) => Some (JStr [c])
  | JObj members => lookup (js "0") members
  | _ => None
  end.

(** [o?.key] and [o?.[0]]: [undefined] when [o] is [null] or
    [undefined]. *)
Definition opt_chain (f : json -> option json) (o : option json)
  : option json :=
  match o with
  | None | Some JNull => None
  | Some v => f v
  end.

(** Whether the number [m * 10^e] reads as [0] or [-0]: it is zero, or
    so small that it rounds to zero (at most [2^-1075], the midpoint
    between zero and the least positive double). *)
Definition num_is_zero (m e : Z) : bool :=
  (m =? 0) || ((e <? 0) && (Z.abs m * 2 ^ 1075 <=? 10 ^ (- e))).

(** ToBoolean of a possibly [undefined] value. *)
Definition truthy (o : option json) : bool :=
  match o with
  | None | Some JNull => false
  | Some (JBool b) => b
  | Some (JNum m e) => negb (num_is_zero m e)
  | Some (JStr s) => negb (str_eqb s [])
  | Some (JArr _) | Some (JObj _) => true
  end.

End Json.

Export Json.

(* ===================================================================== *)
(** ** Values a JavaScript [throw] carries *)
(* ===================================================================== *)

Module JsError.

(** The classes the code tests with [instanceof]. Every one of them is
    an [Error]; [ErrorClass] stands for [Error] itself and for its
    subclasses other than [TypeError] and [DOMException]. *)
Inductive ErrClass := DOMExceptionClass | TypeErrorClass | ErrorClass.

Inductive Thrown :=
| ErrorObj (cls : ErrClass) (name message : jsstring)
           (cause_code : option jsstring)
| NonError (text : jsstring).

(** [new Error(message)]. *)
Definition new_Error (message : jsstring) : Thrown :=
  ErrorObj ErrorClass (js "Error") message None.

(** The [TypeError] of reading property [key] of [null], as V8 words
    it. *)
Definition null_read (key : string) : Thrown :=
  ErrorObj TypeErrorClass (js "TypeError")
    (js "Cannot read properties of null (reading '" ++ js key ++ js "')")
    None.

(** [err.message] of an [Error]; for another value, [String(err)]. *)
Definition message_of (e : Thrown) : jsstring :=
  match e with
  | ErrorObj _ _ m _ => m
  | NonError t => t
  end.

Definition is_DOMException (c : ErrClass) : bool :=
  match c with DOMExceptionClass => true | _ => false end.

Definition is_TypeError (c : ErrClass) : bool :=
  match c with TypeErrorClass => true | _ => false end.

End JsError.

Export JsError.

(* ===================================================================== *)
(** ** [src/lib/streaming.ts] *)
(* ===================================================================== *)

Module Streaming.

(** A [ReadableStream<Uint8Array>] that delivers finitely many chunks
    and then reports [done]. *)
Abbreviation ReadableStream := (list (list Z)).

(** How the generator ends. *)
Inductive Exit :=
| Returned
| Threw (e : Thrown).

(** What a consumer that drains the generator observes: the values
    yielded in order, the way it ended, and the chunks the reader was
    never asked for. The lock on the reader is released on every path
    ([finally]). *)
Record Run := mkRun {
  tokens : list json;
  exit : Exit;
  unread : ReadableStream
}.

Definition malformed : Thrown :=
  new_Error (js "Server is sending malformed response data. Check that your server supports the OpenAI streaming format.").

(** [chunk.choices?.[0]?.delta?.content] for a [chunk] other than
    [null]. *)
Definition content_of (chunk : json) : option json :=
  opt_chain (get (js "content"))
    (opt_chain (get (js "delta"))
       (opt_chain get0 (get (js "choices") chunk))).

(** The outcome of the loop body on one line. *)
Inductive Step :=
| Next (failures : Z) (yielded : option json)
| Stop
| Raise (e : Thrown).

(** The body of [for (const line of lines)], with the value of
    [consecutiveParseFailures] on entry. *)
Definition process_line (failures : Z) (line : jsstring) : Step :=
  let trimmed := trim line in
  if str_eqb trimmed [] || startsWith (js ":") trimmed then
    Next failures None
  else if negb (startsWith (js "data:") trimmed) then
    Next failures None
  else
    let payload := trim (slice (length (js "data:")) trimmed) in
    if str_eqb payload (js "[DONE]") then Stop
    else
      match JSON_parse payload with
      | None =>
          let failures' := failures + 1 in
          if failures' >=? 5 then Raise malformed
          else Next failures' None
      | Some JNull => Raise (null_read "choices")
      | Some chunk =>
          let content := content_of chunk in
          if truthy content then Next 0 content else Next 0 None
      end.

(** The [for] loop over the complete lines of one chunk: the values
    yielded, and either the counter after the last line or the way the
    generator ended. *)
Fixpoint process_lines (failures : Z) (lines : list jsstring)
  : list json * (Z + Exit) :=
  match lines with
  | [] => ([], inl failures)
  | line :: lines' =>
      match process_line failures line with
      | Next failures' yielded =>
          let '(toks, r) := process_lines failures' lines' in
          (match yielded with Some v => v :: toks | None => toks end, r)
      | Stop => ([], inr Returned)
      | Raise e => ([], inr (Threw e))
      end
  end.

(** The code after the [while] loop: what the residual buffer yields. *)
Definition flush (buffer : jsstring) : list json :=
  if negb (str_eqb (trim buffer) []) then
    let trimmed := trim buffer in
    if startsWith (js "data:") trimmed
       && negb (startsWith (js "data: [DONE]") trimmed) then
      let payload := trim (slice (length (js "data:")) trimmed) in
      match JSON_parse payload with
      | None => []
      | Some JNull => []
      | Some chunk =>
          let content := content_of chunk in
          match content with
          | Some v => if truthy content then [v] else []
          | None => []
          end
      end
    else []
  else [].

(** The local variables of the generator. *)
Record State := mkState {
  decoder : TextDecoder.t;
  buffer : jsstring;
  consecutiveParseFailures : Z
}.

(** The [while (true)] loop, one iteration per chunk read. *)
Fixpoint read_loop (st : State) (stream : ReadableStream) : Run :=
  match stream with
  | [] => mkRun (flush (buffer st)) Returned []
  | value :: stream' =>
      let '(d, text) := TextDecoder.decode (decoder st) value in
      let '(lines, last) := pop (split 0x0A (buffer st ++ text)) in
      let buffer' := default [] last in
      match process_lines (consecutiveParseFailures st) lines with
      | (toks, inl failures') =>
          let r := read_loop (mkState d buffer' failures') stream' in
          mkRun (toks ++ tokens r) (exit r) (unread r)
      | (toks, inr e) => mkRun toks e stream'
      end
  end.

Definition parseSSEStream (stream : ReadableStream) : Run :=
  read_loop (mkState TextDecoder.create [] 0) stream.

End Streaming.

Export Streaming.

(* ===================================================================== *)
(** ** [src/lib/types.ts] *)
(* ===================================================================== *)

Module Types.

(** A JavaScript number given by a decimal reading [m * 10^e]; the
    code below only passes such numbers on. *)
Abbreviation number := (Z * Z)%type.

(** A reference to an array object in the store. *)
Abbreviation ref := nat.

Record ToolFunction := mkToolFunction {
  tf_name : jsstring;
  tf_description : jsstring;
  tf_parameters : json
}.

(** [{ type: "function", function }]. *)
Record Tool := mkTool { tool_function : ToolFunction }.

Record ToolCallFunction := mkToolCallFunction {
  fn_name : jsstring;
  fn_arguments : jsstring
}.

(** [{ id, type: "function", function }]. *)
Record ToolCall := mkToolCall {
  call_id : jsstring;
  call_function : ToolCallFunction
}.

Inductive Role := system | user | assistant | tool.

Record ChatMessage := mkChatMessage {
  role : Role;
  content : jsstring;
  images : option (list jsstring);
  tool_calls : option (list ToolCall);
  tool_call_id : option jsstring
}.

(** [messages] is an array object: the request holds a reference. *)
Record ChatRequest := mkChatRequest {
  model : jsstring;
  messages : ref;
  temperature : option number;
  max_tokens : option number;
  stream : option bool;
  tools : option (list Tool)
}.

Record Choice := mkChoice {
  message : ChatMessage;
  finish_reason : jsstring
}.

Record ChatResponse := mkChatResponse {
  response_id : jsstring;
  choices : list Choice
}.

Inductive ProviderType := ollama | lmstudio | llamacpp | custom.

Record ProviderConfig := mkProviderConfig {
  type : ProviderType;
  baseUrl : jsstring;
  defaultModel : jsstring;
  cfg_temperature : number;
  maxTokens : number;
  systemPrompt : jsstring;
  streamResponses : bool
}.

End Types.

Export Types.

(* ===================================================================== *)
(** ** The world a turn runs in *)
(* ===================================================================== *)

Module World.

(** One part of a multimodal message. *)
Inductive Part :=
| TextPart (text : jsstring)            (* { type: "text", text } *)
| ImageUrlPart (url : jsstring).        (* { type: "image_url", image_url: { url } } *)

Inductive ApiContent :=
| Parts (parts : list Part)
| Text (text : jsstring).

(** An element of the array [prepareMessagesForApi] returns: a
    message object as it was, or a new [{ role, content }]. *)
Inductive ApiMessage :=
| Unchanged (msg : ChatMessage)
| Rebuilt (r : Role) (c : ApiContent).

(** The object given to [JSON.stringify] as the request body. *)
Record Body := mkBody {
  body_model : jsstring;
  body_messages : list ApiMessage;
  body_temperature : option number;
  body_max_tokens : option number;
  body_stream : bool;
  body_tools : option (list Tool)
}.

(** What a turn does that the outside can see, in order. [Executed]
    marks an entry into [executeTool]. *)
Inductive Event :=
| Fetched (url : jsstring) (body : Body)
| Executed (tc : ToolCall)
| Searched (query : json).

(** The array objects that hold messages, and the events so far. *)
Record t := mk {
  heap : gmap nat (list ChatMessage);
  log : list Event
}.

Inductive Result (A : Type) :=
| Ok (a : A)
| Throw (e : Thrown).
Arguments Ok {A} a.
Arguments Throw {A} e.

(** A computation that may read and change the world and may throw. *)
Definition M (A : Type) : Type := t -> Result A * t.

Definition ret {A} (a : A) : M A := fun w => (Ok a, w).

Definition throw {A} (e : Thrown) : M A := fun w => (Throw e, w).

Definition bind {A B} (c : M A) (k : A -> M B) : M B :=
  fun w =>
    match c w with
    | (Ok a, w') => k a w'
    | (Throw e, w') => (Throw e, w')
    end.

(** [try { c } catch (err) { h(err) }]. *)
Definition try_catch {A} (c : M A) (h : Thrown -> M A) : M A :=
  fun w =>
    match c w with
    | (Ok a, w') => (Ok a, w')
    | (Throw e, w') => h e w'
    end.

Definition emit (ev : Event) : M unit :=
  fun w => (Ok tt, mk (heap w) (log w ++ [ev])).

Definition history : M (list Event) := fun w => (Ok (log w), w).

(** The elements of the array at [r]. *)
Definition read (r : ref) : M (list ChatMessage) :=
  fun w => (Ok (default [] (heap w !! r)), w).

(** A new array object with the given elements. *)
Definition alloc (l : list ChatMessage) : M ref :=
  fun w =>
    let r := fresh (dom (heap w)) in
    (Ok r, mk (<[r := l]> (heap w)) (log w)).

(** [arr.push(x)]. *)
Definition push (r : ref) (x : ChatMessage) : M unit :=
  fun w =>
    (Ok tt, mk (<[r := default [] (heap w !! r) ++ [x]]> (heap w)) (log w)).

(** [for (const x of l) { body(x) }]. *)
Fixpoint for_of {A} (l : list A) (body : A -> M unit) : M unit :=
  match l with
  | [] => ret tt
  | x :: l' => bind (body x) (fun _ => for_of l' body)
  end.

End World.

Export World.

Notation "'let!' x ':=' c 'in' k" := (bind c (fun x => k))
  (at level 10, x name, c at level 100, k at level 200).

(* ===================================================================== *)
(** ** [src/lib/api.ts] *)
(* ===================================================================== *)

Module Api.

Definition DEFAULT_URLS (p : ProviderType) : jsstring :=
  match p with
  | ollama => js "http://localhost:11434"
  | lmstudio => js "http://localhost:1234"
  | llamacpp => js "http://localhost:8080"
  | custom => []
  end.

Definition PROVIDER_NAMES (p : ProviderType) : jsstring :=
  match p with
  | ollama => js "Ollama"
  | lmstudio => js "LM Studio"
  | llamacpp => js "llama.cpp"
  | custom => js "Custom server"
  end.

Definition timeout_message (name url : jsstring) : jsstring :=
  js "Server took too long to respond. Check that " ++ name
  ++ js " is running at " ++ url ++ js ".".

Definition refused_message (name url : jsstring) : jsstring :=
  js "Server not running at " ++ url ++ js ". Start your " ++ name
  ++ js " server and try again.".

(** The dash is U+2014. *)
Definition unreachable_message (name url : jsstring) : jsstring :=
  js "Cannot connect to " ++ name ++ js " at " ++ url
  ++ [0x20; 0x2014; 0x20] ++ js "is it running?".

Definition has_code (code : option jsstring) (c : jsstring) : bool :=
  match code with
  | Some x => str_eqb x c
  | None => false
  end.

Definition translateFetchError (err : Thrown) (config : ProviderConfig)
  : Thrown :=
  let name := PROVIDER_NAMES (type config) in
  match err with
  | ErrorObj cls ename msg code =>
      if is_DOMException cls && str_eqb ename (js "TimeoutError") then
        new_Error (timeout_message name (baseUrl config))
      else if str_eqb ename (js "AbortError") then
        new_Error (timeout_message name (baseUrl config))
      else if is_TypeError cls || includes (js "fetch") msg then
        if has_code code (js "ECONNREFUSED")
           || includes (js "ECONNREFUSED") msg then
          new_Error (refused_message name (baseUrl config))
        else
          new_Error (unreachable_message name (baseUrl config))
      else err
  | NonError text => new_Error text
  end.

(** The base64 alphabet. *)
Definition b64 (n : Z) : Z :=
  if n <? 26 then 0x41 + n
  else if n <? 52 then 0x61 + (n - 26)
  else if n <? 62 then 0x30 + (n - 52)
  else if n =? 62 then 0x2B
  else 0x2F.

(** [buf.toString("base64")]. *)
Fixpoint base64 (bytes : list Z) : jsstring :=
  match bytes with
  | [] => []
  | [a] =>
      [b64 (Z.shiftr a 2); b64 (Z.shiftl (Z.land a 3) 4); 0x3D; 0x3D]
  | [a; b] =>
      [b64 (Z.shiftr a 2);
       b64 (Z.lor (Z.shiftl (Z.land a 3) 4) (Z.shiftr b 4));
       b64 (Z.shiftl (Z.land b 15) 2); 0x3D]
  | a :: b :: c :: rest =>
      [b64 (Z.shiftr a 2);
       b64 (Z.lor (Z.shiftl (Z.land a 3) 4) (Z.shiftr b 4));
       b64 (Z.lor (Z.shiftl (Z.land b 15) 2) (Z.shiftr c 6));
       b64 (Z.land c 63)] ++ base64 rest
  end.

(** [m.images?.length] as a condition. *)
Definition has_images (m : ChatMessage) : bool :=
  match images m with
  | Some (_ :: _) => true
  | _ => false
  end.

(** The HTTP response [fetch] resolves to: [json] is what
    [res.json()] resolves to or throws. *)
Record Response := mkResponse {
  status : Z;
  statusText : jsstring;
  body : option ReadableStream;
  json_result : Thrown + ChatResponse
}.

Definition ok (res : Response) : bool :=
  (200 <=? status res) && (status res <=? 299).

Inductive FetchResult :=
| FetchThrew (e : Thrown)
| FetchResolved (res : Response).

Section Platform.

(** [readFileSync(path)]: the bytes of the file, or [None] when it
    throws. *)
Variable readFileSync : jsstring -> option (list Z).

(** The server side of [fetch]: from the events so far, the last of
    which is the request being made, to the way the call ends. A
    timeout or an abort is one of the errors it throws. *)
Variable fetch : list Event -> FetchResult.

(** The body of the [for (const imgPath of msg.images)] loop. *)
Definition image_part (imgPath : jsstring) : Part :=
  match readFileSync imgPath with
  | Some bytes =>
      ImageUrlPart (js "data:image/png;base64," ++ base64 bytes)
  | None => TextPart (js "[Image failed to load]")
  end.

(** The function given to [messages.map]. *)
Definition prepare_message (msg : ChatMessage) : ApiMessage :=
  if negb (has_images msg) then Unchanged msg
  else
    let parts :=
      (if negb (str_eqb (content msg) []) then [TextPart (content msg)]
       else [])
      ++ map image_part (default [] (images msg)) in
    Rebuilt (role msg)
      (if (0 <? Z.of_nat (length parts)) then Parts parts
       else Text (content msg)).

Definition prepareMessagesForApi (messages : list ChatMessage)
  : list ApiMessage :=
  if negb (existsb has_images messages) then map Unchanged messages
  else map prepare_message messages.

Definition chat_url (config : ProviderConfig) : jsstring :=
  baseUrl config ++ js "/v1/chat/completions".

Definition status_error (res : Response) : Thrown :=
  new_Error (js "Server returned " ++ string_of_int (status res)
             ++ js " " ++ statusText res).

(** The dash is U+2014. *)
Definition empty_body_error : Thrown :=
  new_Error (js "Response body is empty " ++ [0x2014]
             ++ js " streaming not supported by server").

(** [await fetch(url, { method: "POST", body: JSON.stringify(b) })]. *)
Definition post (url : jsstring) (b : Body) : M Response :=
  let! _ := emit (Fetched url b) in
  let! h := history in
  match fetch h with
  | FetchThrew e => throw e
  | FetchResolved res => ret res
  end.

Definition res_json (res : Response) : M ChatResponse :=
  match json_result res with
  | inl e => throw e
  | inr r => ret r
  end.

Definition sendChatStream (config : ProviderConfig)
    (request : ChatRequest) : M ReadableStream :=
  let url := chat_url config in
  try_catch
    (let! msgs := read (messages request) in
     let! res :=
       post url
         {| body_model := model request;
            body_messages := prepareMessagesForApi msgs;
            body_temperature := temperature request;
            body_max_tokens := max_tokens request;
            body_stream := true;
            body_tools := tools request |} in
     if negb (ok res) then throw (status_error res)
     else
       match body res with
       | None => throw empty_body_error
       | Some b => ret b
       end)
    (fun err => throw (translateFetchError err config)).

Definition sendChatWithTools (config : ProviderConfig)
    (request : ChatRequest) (tools : list Tool) : M ChatResponse :=
  let url := chat_url config in
  try_catch
    (let! msgs := read (messages request) in
     let! res :=
       post url
         {| body_model := model request;
            body_messages := prepareMessagesForApi msgs;
            body_temperature := temperature request;
            body_max_tokens := max_tokens request;
            body_stream := false;
            body_tools := Some tools |} in
     if negb (ok res) then throw (status_error res)
     else res_json res)
    (fun err => throw (translateFetchError err config)).

End Platform.

End Api.

Export Api.

(* ===================================================================== *)
(** ** [src/lib/web-search.ts] *)
(* ===================================================================== *)

Module WebSearch.

Record SearchResult := mkSearchResult {
  title : jsstring;
  url : jsstring;
  snippet : jsstring
}.

Record BraveWebResult := mkBraveWebResult {
  brave_title : jsstring;
  brave_url : jsstring;
  description : jsstring
}.

(** [{ web?: { results } }]. *)
Record BraveSearchResponse := mkBraveSearchResponse {
  web : option (list BraveWebResult)
}.

Record BraveResponse := mkBraveResponse {
  brave_status : Z;
  brave_json : Thrown + BraveSearchResponse
}.

Inductive BraveResult :=
| BraveThrew (e : Thrown)
| BraveResolved (res : BraveResponse).

Definition brave_ok (res : BraveResponse) : bool :=
  (200 <=? brave_status res) && (brave_status res <=? 299).

Definition is_lead (c : Z) : bool := (0xD800 <=? c) && (c <=? 0xDBFF).
Definition is_trail (c : Z) : bool := (0xDC00 <=? c) && (c <=? 0xDFFF).

(** Whether a string holds a surrogate code unit that is not part of
    a pair: a lead surrogate not followed by a trail surrogate, or a
    trail surrogate not preceded by a lead surrogate. *)
Fixpoint lone_surrogate (s : jsstring) : bool :=
  match s with
  | [] => false
  | c :: s' =>
      if is_lead c then
        match s' with
        | d :: s'' => if is_trail d then lone_surrogate s'' else true
        | [] => true
        end
      else if is_trail c then true
      else lone_surrogate s'
  end.

(** Whether ToString throws at a value of [JSON.parse]. It does at an
    object with an own property [toString]: the property is no
    function, and [valueOf] (own, or that of [Object.prototype],
    which returns the object) gives no primitive either. An array is
    joined, which converts its elements other than [null]. *)
Fixpoint unconvertible (v : json) : bool :=
  match v with
  | JObj members =>
      match lookup (js "toString") members with
      | Some _ => true
      | None => false
      end
  | JArr items => existsb unconvertible items
  | _ => false
  end.

(** Whether ToString of a convertible value holds a lone surrogate.
    A number, a boolean and an object without [toString] of its own
    read as text without surrogates; the elements of an array are
    joined with commas, so surrogates of two elements never pair. *)
Fixpoint ill_formed (v : json) : bool :=
  match v with
  | JStr s => lone_surrogate s
  | JArr items => existsb ill_formed items
  | _ => false
  end.

Definition not_primitive : Thrown :=
  ErrorObj TypeErrorClass (js "TypeError")
    (js "Cannot convert object to primitive value") None.

Definition URI_malformed : Thrown :=
  ErrorObj ErrorClass (js "URIError") (js "URI malformed") None.

(** What [encodeURIComponent(v)] throws, if it throws: the
    [TypeError] of ToString, or the [URIError] for a lone surrogate
    in the text. *)
Definition encodeURIComponent_throws (v : json) : option Thrown :=
  if unconvertible v then Some not_primitive
  else if ill_formed v then Some URI_malformed
  else None.

Section Platform.

(** [getPreferenceValues().searchApiKey]. *)
Variable searchApiKey : option jsstring.

(** The search service: from the events so far, the last of which
    is the call of [fetch] being made, to the way the call ends.
    The URL is built from the query of that event. *)
Variable braveFetch : list Event -> BraveResult.

Definition webSearch (query : json) : M (list SearchResult) :=
  let apiKey := option_map trim searchApiKey in
  if negb (match apiKey with Some (_ :: _) => true | _ => false end)
  then throw (new_Error (js "No Brave Search API key configured"))
  else
    match encodeURIComponent_throws query with
    | Some e => throw e
    | None =>
        let! _ := emit (Searched query) in
        let! h := history in
        match braveFetch h with
        | BraveThrew e => throw e
        | BraveResolved res =>
            if (brave_status res =? 401) || (brave_status res =? 403)
            then
              throw (new_Error (js "Invalid Brave Search API key. Check your key in extension preferences."))
            else if brave_status res =? 429 then
              throw (new_Error (js "Brave Search rate limit reached. Free tier allows 2,000 queries/month."))
            else if negb (brave_ok res) then
              throw (new_Error (js "Brave Search returned "
                                ++ string_of_int (brave_status res)))
            else
              match brave_json res with
              | inl e => throw e
              | inr data =>
                  let results := default [] (web data) in
                  ret (map (fun r =>
                              {| title := brave_title r;
                                 url := brave_url r;
                                 snippet := description r |})
                         (take 5 results))
              end
        end
    end.

End Platform.

Definition formatSearchContext (results : list SearchResult) : jsstring :=
  if Z.of_nat (length results) =? 0 then []
  else
    let lines :=
      imap (fun i r =>
              string_of_int (Z.of_nat i + 1) ++ js ". [" ++ title r
              ++ js "](" ++ url r ++ js ")" ++ [0x0A] ++ js "   "
              ++ snippet r)
        results in
    js "Web search results:" ++ [0x0A; 0x0A] ++ join [0x0A; 0x0A] lines.

End WebSearch.

Export WebSearch.

(* ===================================================================== *)
(** ** [src/lib/tools.ts] *)
(* ===================================================================== *)

Module Tools.

Definition BUILT_IN_TOOLS : list Tool :=
  [ {| tool_function :=
         {| tf_name := js "web_search";
            tf_description := js "Search the web for up-to-date information. Use this when the user asks about current events, prices, news, or anything that requires recent data.";
            tf_parameters :=
              JObj [ (js "type", JStr (js "object"));
                     (js "properties",
                      JObj [ (js "query",
                              JObj [ (js "type", JStr (js "string"));
                                     (js "description",
                                      JStr (js "The search query")) ]) ]);
                     (js "required", JArr [JStr (js "query")]) ] |} |} ].

Definition quoted (s : jsstring) : jsstring := [0x22] ++ s ++ [0x22].

Section Platform.

Variable readFileSync : jsstring -> option (list Z).
Variable fetch : list Event -> FetchResult.
Variable searchApiKey : option jsstring.
Variable braveFetch : list Event -> BraveResult.

(** Execute a single tool call and return the result string. *)
Definition executeTool (toolCall : ToolCall) : M jsstring :=
  let name := fn_name (call_function toolCall) in
  let argsJson := fn_arguments (call_function toolCall) in
  let! _ := emit (Executed toolCall) in
  match JSON_parse argsJson with
  | None =>
      ret (js "Error: Invalid JSON arguments for tool " ++ quoted name)
  | Some args =>
      if str_eqb name (js "web_search") then
        match args with
        | JNull => throw (null_read "query")
        | _ =>
            let query := get (js "query") args in
            match query with
            | Some q =>
                if truthy query then
                  try_catch
                    (let! results := webSearch searchApiKey braveFetch q in
                     ret (formatSearchContext results))
                    (fun err =>
                       ret (js "Search error: "
                            ++ match err with
                               | ErrorObj _ _ m _ => m
                               | NonError _ => js "Unknown error"
                               end))
                else ret (js "Error: Missing query parameter")
            | None => ret (js "Error: Missing query parameter")
            end
        end
      else ret (js "Error: Unknown tool " ++ quoted name)
  end.

Definition maxRounds : nat := 3.

(** [choice.finish_reason === "tool_calls" &&
    choice.message.tool_calls?.length]: the records when the
    condition holds. *)
Definition wants_tools (choice : Choice) : option (list ToolCall) :=
  if str_eqb (finish_reason choice) (js "tool_calls") then
    match tool_calls (message choice) with
    | Some (tc :: tcs) => Some (tc :: tcs)
    | _ => None
    end
  else None.

(** The [for (let round = 0; round < maxRounds; round++)] loop with
    [rounds] iterations left. *)
Fixpoint decision_loop (rounds : nat) (config : ProviderConfig)
    (request : ChatRequest) (tools : list Tool)
    (messages toolMessages : ref) : M unit :=
  match rounds with
  | O => ret tt
  | S rounds' =>
      let! response :=
        sendChatWithTools readFileSync fetch config
          {| model := model request;
             Types.messages := messages;
             temperature := temperature request;
             max_tokens := max_tokens request;
             stream := stream request;
             Types.tools := Types.tools request |}
          tools in
      match choices response with
      | [] => throw (new_Error (js "No response from model"))
      | choice :: _ =>
          match wants_tools choice with
          | Some calls =>
              (* [content || ""] is [content] for a string *)
              let assistantMsg :=
                {| role := assistant;
                   content := content (message choice);
                   images := None;
                   tool_calls := tool_calls (message choice);
                   tool_call_id := None |} in
              let! _ := push messages assistantMsg in
              let! _ := push toolMessages assistantMsg in
              let! _ :=
                for_of calls (fun tc =>
                  let! result := executeTool tc in
                  let toolMsg :=
                    {| role := tool;
                       content := result;
                       images := None;
                       tool_calls := None;
                       tool_call_id := Some (call_id tc) |} in
                  let! _ := push messages toolMsg in
                  push toolMessages toolMsg) in
              decision_loop rounds' config request tools
                messages toolMessages
          | None => ret tt
          end
      end
  end.

Definition runWithTools (config : ProviderConfig)
    (request : ChatRequest) (tools : list Tool)
  : M (ReadableStream * ref) :=
  let! original := read (Types.messages request) in
  let! messages := alloc original in
  let! toolMessages := alloc [] in
  let! _ :=
    decision_loop maxRounds config request tools messages toolMessages in
  let! stream :=
    sendChatStream readFileSync fetch config
      {| model := model request;
         Types.messages := messages;
         temperature := temperature request;
         max_tokens := max_tokens request;
         Types.stream := Types.stream request;
         Types.tools := Types.tools request |} in
  ret (stream, toolMessages).

End Platform.

End Tools.

Export Tools.

(* ===================================================================== *)
(** ** [src/lib/api.ts]: trimming a conversation *)
(* ===================================================================== *)

Module Trim.

(** [arr.slice(start)] for an integer [start]: a negative [start]
    counts from the end, and [-0] is [0]. *)
Definition slice_from {A} (start : Z) (l : list A) : list A :=
  let len := Z.of_nat (length l) in
  if start <? 0 then drop (Z.to_nat (Z.max (len + start) 0)) l
  else drop (Z.to_nat (Z.min start len)) l.

(** [msg.role === "system"]. *)
Definition is_system (m : ChatMessage) : bool :=
  match role m with system => true | _ => false end.

(** [trimMessages(messages, maxMessages)] for an integer limit. The
    loop sorts the messages into two arrays, each in the order of
    [messages]. *)
Definition trimMessages (messages : list ChatMessage) (maxMessages : Z)
  : list ChatMessage :=
  if Z.of_nat (length messages) <=? maxMessages then messages
  else
    let systemMessages := List.filter is_system messages in
    let nonSystemMessages :=
      List.filter (fun m => negb (is_system m)) messages in
    let trimmed := slice_from (- maxMessages) nonSystemMessages in
    systemMessages ++ trimmed.

End Trim.

Export Trim.

(* ===================================================================== *)
(** ** [src/lib/streaming.ts]: a reader whose read fails *)
(* ===================================================================== *)

Module Reads.

(** The [while (true)] loop on a reader that delivers the chunks of
    [stream] and then ends as [ending] says: [None] when the next
    read reports [done], [Some e] when it rejects with [e]. A
    rejected read throws at the [await], inside [try ... finally]
    with no [catch]: the lock is released and [e] leaves the
    generator; the code after the loop, which looks at the residual
    buffer, is not reached. *)
Fixpoint read_loop_ending (st : State) (stream : ReadableStream)
    (ending : option Thrown) : Run :=
  match stream with
  | [] =>
      match ending with
      | None => mkRun (flush (buffer st)) Returned []
      | Some e => mkRun [] (Threw e) []
      end
  | value :: stream' =>
      let '(d, text) := TextDecoder.decode (decoder st) value in
      let '(lines, last) := pop (split 0x0A (buffer st ++ text)) in
      let buffer' := default [] last in
      match process_lines (consecutiveParseFailures st) lines with
      | (toks, inl failures') =>
          let r :=
            read_loop_ending (mkState d buffer' failures') stream' ending in
          mkRun (toks ++ tokens r) (exit r) (unread r)
      | (toks, inr e) => mkRun toks e stream'
      end
  end.

(** [parseSSEStream] on such a reader. *)
Definition parseSSEStream_ending (stream : ReadableStream)
    (ending : option Thrown) : Run :=
  read_loop_ending (mkState TextDecoder.create [] 0) stream ending.

End Reads.

Export Reads.

(* ===================================================================== *)
(** ** [src/lib/api.ts]: listing the models of a server *)
(* ===================================================================== *)

Module Models.

(** An element of the array a listing function builds. A property
    that is absent and one that holds [undefined] are both [None];
    a property copied from the answer holds the JSON value found
    there. *)
Record Model := mkModel {
  model_id : option json;
  model_name : option json;
  parameterSize : option json;
  quantizationLevel : option json;
  family : option json;
  families : option (list json);
  format : option json;
  diskSize : option json;
  maxContextLength : option json;
  supportsVision : option bool
}.

(** What a listing function resolves to: the array it built, or
    [json.data ?? []] of the generic endpoint as the server gave
    it. *)
Inductive Listing :=
| Entries (models : list Model)
| Passed (data : json).

(** The answer to a [GET]: [listing] is what [res.json()] resolves
    to or throws. *)
Record GetResponse := mkGetResponse {
  get_status : Z;
  get_statusText : jsstring;
  listing : Thrown + json
}.

Definition get_ok (res : GetResponse) : bool :=
  (200 <=? get_status res) && (get_status res <=? 299).

Inductive GetResult :=
| GetThrew (e : Thrown)
| GetResolved (res : GetResponse).

(** A computation that makes [GET] requests and may throw; the state
    is the list of the URLs requested so far. *)
Definition G (A : Type) : Type := list jsstring -> Result A * list jsstring.

(** [a ?? d]. *)
Definition nullish (o : option json) (d : json) : json :=
  match o with
  | None | Some JNull => d
  | Some v => v
  end.

(** [VISION_FAMILIES.has(f)]. *)
Definition VISION_FAMILIES (f : json) : bool :=
  match f with
  | JStr s => str_eqb s (js "clip") || str_eqb s (js "mllama")
  | _ => false
  end.

(** The function [fetchOllamaModels] gives to [map]; [None] when it
    throws, which is a [TypeError] each time: [m] is [null],
    [m.details] is [null] or [undefined], or [families] has no
    method [some]. *)
Definition ollama_model (m : json) : option Model :=
  match m with
  | JNull => None
  | _ =>
      match get (js "details") m with
      | None | Some JNull => None
      | Some details =>
          match nullish (get (js "families") details) (JArr []) with
          | JArr fams =>
              Some {| model_id := get (js "name") m;
                      model_name := get (js "name") m;
                      parameterSize := get (js "parameter_size") details;
                      quantizationLevel :=
                        get (js "quantization_level") details;
                      family := get (js "family") details;
                      families := Some fams;
                      format := get (js "format") details;
                      diskSize := get (js "size") m;
                      maxContextLength := None;
                      supportsVision :=
                        Some (existsb VISION_FAMILIES fams) |}
          | _ => None
          end
      end
  end.

(** [(json.models ?? []).map(...)]; [None] when it throws, a
    [TypeError] each time: [json] is [null], the value has no method
    [map], or the function throws at an element. *)
Definition ollama_listing (answer : json) : option (list Model) :=
  match answer with
  | JNull => None
  | _ =>
      match nullish (get (js "models") answer) (JArr []) with
      | JArr items => mapM ollama_model items
      | _ => None
      end
  end.

(** The function [fetchLmStudioModels] gives to [map]; it throws (a
    [TypeError]) when [m] is [null]. *)
Definition lmstudio_model (m : json) : option Model :=
  match m with
  | JNull => None
  | _ =>
      Some {| model_id := get (js "id") m;
              model_name := get (js "id") m;
              parameterSize := None;
              quantizationLevel := get (js "quantization") m;
              family := get (js "arch") m;
              families := None;
              format := get (js "compatibility_type") m;
              diskSize := None;
              maxContextLength := get (js "max_context_length") m;
              supportsVision :=
                Some (match get (js "type") m with
                      | Some (JStr s) => str_eqb s (js "vlm")
                      | _ => false
                      end) |}
  end.

Definition lmstudio_listing (answer : json) : option (list Model) :=
  match answer with
  | JNull => None
  | _ =>
      match nullish (get (js "data") answer) (JArr []) with
      | JArr items => mapM lmstudio_model items
      | _ => None
      end
  end.

(** How the [try] block of a native listing ends without an error
    for the handler to translate: with the array, with the answer
    404, or with a [TypeError] from reading the answer. For the last
    two the function returns the promise of [fetchModelsGeneric],
    which it does not await: what that throws is not caught here. *)
Inductive Attempt :=
| Listed (models : list Model)
| NotFound
| Unreadable.

Section Platform.

(** The server side of [fetch(url, { signal })]: from the URLs
    requested so far, the last of which is the one being
    requested, to the way the call ends. *)
Variable fetch : list jsstring -> GetResult.

Definition generic_url (config : ProviderConfig) : jsstring :=
  baseUrl config ++ js "/v1/models".

Definition generic_status_error (res : GetResponse) : Thrown :=
  new_Error (js "Server returned " ++ string_of_int (get_status res)
             ++ js " " ++ get_statusText res).

Definition fetchModelsGeneric (config : ProviderConfig) : G Listing :=
  fun h =>
    let h' := h ++ [generic_url config] in
    let attempt : Result Listing :=
      match fetch h' with
      | GetThrew err => Throw err
      | GetResolved res =>
          if negb (get_ok res) then Throw (generic_status_error res)
          else
            match listing res with
            | inl err => Throw err
            | inr JNull => Throw (null_read "data")
            | inr answer =>
                Ok (Passed (nullish (get (js "data") answer) (JArr [])))
            end
      end in
    match attempt with
    | Ok l => (Ok l, h')
    | Throw err => (Throw (translateFetchError err config), h')
    end.

(** The two native listings differ in the URL, in the name in the
    status error and in the way they read the answer. *)
Definition native (path : string) (label : string)
    (read_listing : json -> option (list Model))
    (config : ProviderConfig) : G Listing :=
  fun h =>
    let h' := h ++ [baseUrl config ++ js path] in
    let attempt : Result Attempt :=
      match fetch h' with
      | GetThrew err => Throw err
      | GetResolved res =>
          if get_status res =? 404 then Ok NotFound
          else if negb (get_ok res) then
            Throw (new_Error (js label ++ js " returned "
                              ++ string_of_int (get_status res)))
          else
            match listing res with
            | inl err => Throw err
            | inr answer =>
                match read_listing answer with
                | Some models => Ok (Listed models)
                | None => Ok Unreadable
                end
            end
      end in
    match attempt with
    | Ok (Listed models) => (Ok (Entries models), h')
    | Ok NotFound | Ok Unreadable => fetchModelsGeneric config h'
    | Throw (ErrorObj TypeErrorClass _ _ _) => fetchModelsGeneric config h'
    | Throw err => (Throw (translateFetchError err config), h')
    end.

Definition fetchOllamaModels : ProviderConfig -> G Listing :=
  native "/api/tags" "Ollama" ollama_listing.

Definition fetchLmStudioModels : ProviderConfig -> G Listing :=
  native "/api/v0/models" "LM Studio" lmstudio_listing.

Definition fetchModels (config : ProviderConfig) : G Listing :=
  match type config with
  | ollama => fetchOllamaModels config
  | lmstudio => fetchLmStudioModels config
  | _ => fetchModelsGeneric config
  end.

End Platform.

End Models.

Export Models.

(* ===================================================================== *)
(** ** [src/lib/onboarding.ts] and the base URL of a provider *)
(* ===================================================================== *)

Module Onboarding.

(** The extension's [LocalStorage]; every value the program stores is
    a string. *)
Abbreviation LocalStorage := (gmap jsstring jsstring).

Definition ONBOARDING_COMPLETE_KEY : jsstring := js "onboarding_complete".
Definition PROVIDER_URL_PREFIX : jsstring := js "provider_url_".

(** [raw || undefined]. *)
Definition getProviderUrl (provider : jsstring) (store : LocalStorage)
  : option jsstring :=
  match store !! (PROVIDER_URL_PREFIX ++ provider) with
  | Some raw => if str_eqb raw [] then None else Some raw
  | None => None
  end.

Definition setProviderUrl (provider url : jsstring) (store : LocalStorage)
  : LocalStorage :=
  <[PROVIDER_URL_PREFIX ++ provider := url]> store.

Definition isOnboardingComplete (store : LocalStorage) : bool :=
  match store !! ONBOARDING_COMPLETE_KEY with
  | Some raw => str_eqb raw (js "true")
  | None => false
  end.

Definition markOnboardingComplete (store : LocalStorage) : LocalStorage :=
  <[ONBOARDING_COMPLETE_KEY := js "true"]> store.

Definition resetOnboarding (store : LocalStorage) : LocalStorage :=
  delete ONBOARDING_COMPLETE_KEY store.

(** The string a [ProviderType] is. *)
Definition provider_string (p : ProviderType) : jsstring :=
  match p with
  | ollama => js "ollama"
  | lmstudio => js "lmstudio"
  | llamacpp => js "llamacpp"
  | custom => js "custom"
  end.

(** [getDefaultBaseUrl(provider)]; [serverUrl] is the preference of
    that name, [None] when it is not set. *)
Definition getDefaultBaseUrl (serverUrl : option jsstring)
    (provider : ProviderType) (store : LocalStorage) : jsstring :=
  match getProviderUrl (provider_string provider) store with
  | Some stored => stored
  | None =>
      match serverUrl with
      | Some s =>
          if str_eqb (trim s) [] then DEFAULT_URLS provider else trim s
      | None => DEFAULT_URLS provider
      end
  end.

End Onboarding.

Export Onboarding.

(* ===================================================================== *)
(** ** Titles and subtitles *)
(* ===================================================================== *)

Module Titles.

(** [s.slice(0, stop)] for an integer [stop]: a negative [stop]
    counts from the end. *)
Definition slice_to {A} (stop : Z) (l : list A) : list A :=
  let len := Z.of_nat (length l) in
  if stop <? 0 then take (Z.to_nat (Z.max (len + stop) 0)) l
  else take (Z.to_nat (Z.min stop len)) l.

Definition is_user (m : ChatMessage) : bool :=
  match role m with user => true | _ => false end.

(** [generateTitle] of [lib/storage.ts]. *)
Definition generateTitle (messages : list ChatMessage) : jsstring :=
  match List.find is_user messages with
  | None => js "New Conversation"
  | Some firstUserMessage =>
      let content := trim (content firstUserMessage) in
      if Z.of_nat (length content) <=? 50 then content
      else slice_to 50 content ++ js "..."
  end.

(** [text.replace(/\n/g, " ")]. *)
Definition unbreak (text : jsstring) : jsstring :=
  map (fun c => if c =? 0x0A then 0x20 else c) text.

(** [truncate] of the chat view, for an integer [max]; the mark is
    U+2026. *)
Definition truncate (text : jsstring) (max : Z) : jsstring :=
  let oneLine := trim (unbreak text) in
  if Z.of_nat (length oneLine) <=? max then oneLine
  else slice_to max oneLine ++ [0x2026].

End Titles.

Export Titles.

(* ===================================================================== *)
(** ** Notions used to state the properties *)
(* ===================================================================== *)

Module Notions.

(** The complete lines of a text and the text after its last line
    feed, computed in one pass. *)
Fixpoint chop (s : jsstring) : list jsstring * jsstring :=
  match s with
  | [] => ([], [])
  | c :: s' =>
      let '(ls, r) := chop s' in
      if c =? 0x0A then ([] :: ls, r)
      else match ls with
           | [] => ([], c :: r)
           | l :: ls' => ((c :: l) :: ls', r)
           end
  end.

(** What a consumer sees of a run, the unread chunks left aside. *)
Definition observe (r : Run) : list json * Exit := (tokens r, exit r).

(** The generator on a whole text, with the counter on entry. *)
Definition run_text (failures : Z) (text : jsstring) : list json * Exit :=
  let '(lines, rest) := chop text in
  match process_lines failures lines with
  | (toks, inl _) => (toks ++ flush rest, Returned)
  | (toks, inr e) => (toks, e)
  end.

(** The payload of a line that carries the data marker and is not the
    termination sentinel. *)
Definition data_payload (line : jsstring) : option jsstring :=
  let trimmed := trim line in
  if startsWith (js "data:") trimmed then
    let payload := trim (slice 5 trimmed) in
    if str_eqb payload (js "[DONE]") then None else Some payload
  else None.

(** A data line whose payload [JSON.parse] rejects. *)
Definition undecodable (line : jsstring) : Prop :=
  exists payload,
    data_payload line = Some payload /\ JSON_parse payload = None.

(** A data line whose payload is the termination sentinel. *)
Definition is_sentinel (line : jsstring) : Prop :=
  startsWith (js "data:") (trim line) = true
  /\ trim (slice 5 (trim line)) = js "[DONE]".

Definition LF : jsstring := [0x0A].

(** The frames of the scenarios of the specification, as bytes. *)
Definition frame (text : string) : list Z :=
  jsq "data: {'choices':[{'delta':{'content':'" ++ js text
  ++ jsq "'}}]}".

Definition done_frame : list Z := js "data: [DONE]".

Definition hi_bytes : list Z := frame "Hi" ++ LF ++ LF.
Definition done_bytes : list Z := done_frame ++ LF ++ LF.

Definition ab_bytes : list Z :=
  frame "A" ++ LF ++ frame "B" ++ LF ++ done_frame ++ LF.

(** The failures of [fetch] itself that the transport client names,
    by the errors that make it throw: [TimeoutError] and [AbortError]
    for a timeout or an abort; a [TypeError] that carries the code
    [ECONNREFUSED], in its cause or in its message, for a refused
    connection; any other [TypeError] for an unreachable or
    unresolvable host. *)
Inductive FailureKind := Timeout | Refused | Unreachable.

Inductive fetch_failure : FailureKind -> Thrown -> Prop :=
| timeout_error m c :
    fetch_failure Timeout
      (ErrorObj DOMExceptionClass (js "TimeoutError") m c)
| abort_error cls m c :
    fetch_failure Timeout (ErrorObj cls (js "AbortError") m c)
| refused_error m c :
    has_code c (js "ECONNREFUSED") || includes (js "ECONNREFUSED") m
    = true ->
    fetch_failure Refused (ErrorObj TypeErrorClass (js "TypeError") m c)
| unreachable_error m c :
    has_code c (js "ECONNREFUSED") || includes (js "ECONNREFUSED") m
    = false ->
    fetch_failure Unreachable
      (ErrorObj TypeErrorClass (js "TypeError") m c).

Definition failure_message (k : FailureKind) (name url : jsstring)
  : jsstring :=
  match k with
  | Timeout => timeout_message name url
  | Refused => refused_message name url
  | Unreachable => unreachable_message name url
  end.

(** The array behind a reference, empty when there is none. *)
Definition cell (w : World.t) (r : ref) : list ChatMessage :=
  default [] (heap w !! r).

(** The world once [ev] has happened. *)
Definition after (w : World.t) (ev : Event) : World.t :=
  World.mk (heap w) (log w ++ [ev]).

(** The body of a chat-completions request, as [sendChatStream]
    ([streaming = true], the tools of the request) and
    [sendChatWithTools] ([streaming = false], the tools given) build
    it. *)
Definition request_body (readFileSync : jsstring -> option (list Z))
    (request : ChatRequest) (msgs : list ChatMessage)
    (streaming : bool) (tls : option (list Tool)) : Body :=
  {| body_model := model request;
     body_messages := prepareMessagesForApi readFileSync msgs;
     body_temperature := temperature request;
     body_max_tokens := max_tokens request;
     body_stream := streaming;
     body_tools := tls |}.

(** The text part a message with images starts with, if it has text. *)
Definition text_parts (msg : ChatMessage) : list Part :=
  if str_eqb (content msg) [] then [] else [TextPart (content msg)].

Definition is_fetch (ev : Event) : bool :=
  match ev with Fetched _ _ => true | _ => false end.

(** A with-tools decision call: a request that is not streamed. *)
Definition is_decision_call (ev : Event) : bool :=
  match ev with Fetched _ b => negb (body_stream b) | _ => false end.

(** A streaming call. *)
Definition is_stream_call (ev : Event) : bool :=
  match ev with Fetched _ b => body_stream b | _ => false end.

Definition is_execution (ev : Event) : bool :=
  match ev with Executed _ => true | _ => false end.

(** An event that is neither a request to the model server nor an
    entry into [executeTool]. *)
Definition quiet (ev : Event) : Prop :=
  is_fetch ev = false /\ is_execution ev = false.

(** The assistant message the orchestrator appends for a choice that
    asks for tools ([content || ""] is [content] for a string). *)
Definition assistant_message (choice : Choice) : ChatMessage :=
  {| role := assistant;
     content := content (message choice);
     images := None;
     tool_calls := tool_calls (message choice);
     tool_call_id := None |}.

(** The tool-result message for a call and the text it produced. *)
Definition tool_message (tc : ToolCall) (result : jsstring) : ChatMessage :=
  {| role := tool;
     content := result;
     images := None;
     tool_calls := None;
     tool_call_id := Some (call_id tc) |}.

(** A call of [web_search] whose argument text is JSON for [null]. *)
Definition null_arguments (tc : ToolCall) : bool :=
  str_eqb (fn_name (call_function tc)) (js "web_search")
  && match JSON_parse (fn_arguments (call_function tc)) with
     | Some JNull => true
     | _ => false
     end.

(** From [w] to [w'] the arrays at [m] and [t] have both grown by
    [acc], no other array has changed, and [extra] has happened. *)
Definition grows (m t : ref) (w w' : World.t)
    (acc : list ChatMessage) (extra : list Event) : Prop :=
  cell w' m = cell w m ++ acc
  /\ cell w' t = cell w t ++ acc
  /\ (forall r, r <> m -> r <> t -> heap w' !! r = heap w !! r)
  /\ log w' = log w ++ extra.

(** The number of requests to the model server among some events. *)
Definition requests (h : list Event) : nat :=
  length (List.filter is_fetch h).

(** A model server that follows a script: it answers its [n]-th
    request with the [n]-th response of the script, as a successful
    non-streaming reply, and every later request with [final]. *)
Definition scripted (script : list ChatResponse) (final : FetchResult)
    (h : list Event) : FetchResult :=
  match nth_error script (requests h - 1) with
  | Some r =>
      FetchResolved
        {| status := 200; statusText := js "OK"; body := None;
           json_result := inr r |}
  | None => final
  end.

(** The reference [runWithTools] gets for its copy of the messages,
    the one for its list of tool messages, and the world in which the
    rounds start. *)
Definition copy_ref (w : World.t) : ref := fresh (dom (heap w)).

Definition tool_ref (w : World.t) (request : ChatRequest) : ref :=
  fresh (dom (<[copy_ref w := cell w (messages request)]> (heap w))).

Definition started (w : World.t) (request : ChatRequest) : World.t :=
  World.mk
    (<[tool_ref w request := []]>
       (<[copy_ref w := cell w (messages request)]> (heap w)))
    (log w).

(** The request of a round: the caller's, with the private list. *)
Definition with_messages (request : ChatRequest) (m : ref) : ChatRequest :=
  {| model := model request;
     messages := m;
     temperature := temperature request;
     max_tokens := max_tokens request;
     stream := stream request;
     tools := tools request |}.

Section Platform.

Variable readFileSync : jsstring -> option (list Z).
Variable fetch : list Event -> FetchResult.
Variable searchApiKey : option jsstring.
Variable braveFetch : list Event -> BraveResult.

(** The body of the loop over the tool calls of a round. *)
Definition tool_step (m t : ref) (tc : ToolCall) : M unit :=
  let! result := executeTool searchApiKey braveFetch tc in
  let toolMsg :=
    {| role := tool;
       content := result;
       images := None;
       tool_calls := None;
       tool_call_id := Some (call_id tc) |} in
  let! _ := push m toolMsg in
  push t toolMsg.

(** The request of a decision round made from the world [w], and
    the streaming request made from it. *)
Definition decision_event (config : ProviderConfig)
    (request : ChatRequest) (tls : list Tool) (msgs : list ChatMessage)
  : Event :=
  Fetched (chat_url config)
    (request_body readFileSync request msgs false (Some tls)).

Definition stream_event (config : ProviderConfig)
    (request : ChatRequest) (msgs : list ChatMessage) : Event :=
  Fetched (chat_url config)
    (request_body readFileSync request msgs true (tools request)).

(** The rounds that are left, then the finalization. *)
Definition finish (rounds : nat) (config : ProviderConfig)
    (request : ChatRequest) (tls : list Tool) (m t : ref)
  : M ReadableStream :=
  let! _ :=
    decision_loop readFileSync fetch searchApiKey braveFetch
      rounds config request tls m t in
  sendChatStream readFileSync fetch config (with_messages request m).

End Platform.

End Notions.

Export Notions.

(* ===================================================================== *)
(** ** Concrete data for the examples *)
(* ===================================================================== *)

Module Examples.

Definition config : ProviderConfig :=
  {| type := ollama;
     baseUrl := DEFAULT_URLS ollama;
     defaultModel := js "llama3.1";
     cfg_temperature := (7, -1);
     maxTokens := (2048, 0);
     systemPrompt := [];
     streamResponses := true |}.

Definition question : ChatMessage :=
  {| role := user; content := js "What is new today?"; images := None;
     tool_calls := None; tool_call_id := None |}.

(** A message with a picture that can be read and one that cannot. *)
Definition picture : ChatMessage :=
  {| role := user; content := js "What is this?";
     images := Some [js "/tmp/a.png"; js "/tmp/missing.png"];
     tool_calls := None; tool_call_id := None |}.

Definition files (path : jsstring) : option (list Z) :=
  if str_eqb path (js "/tmp/a.png") then Some (js "Man") else None.

(** The caller's array is the object at reference 0. *)
Definition world : World.t :=
  {| heap := {[ 0%nat := [question] ]}; log := [] |}.

Definition request : ChatRequest :=
  {| model := js "llama3.1"; messages := 0%nat;
     temperature := Some (7, -1); max_tokens := Some (2048, 0);
     stream := None; tools := None |}.


Definition answer_stream : ReadableStream := [hi_bytes; done_bytes].

Definition call (id name args : jsstring) : ToolCall :=
  {| call_id := id;
     call_function := {| fn_name := name; fn_arguments := args |} |}.

(** A response of the server that asks for the given tool calls. *)
Definition asks (calls : list ToolCall) : ChatResponse :=
  {| response_id := js "r";
     choices :=
       [ {| message :=
              {| role := assistant; content := []; images := None;
                 tool_calls := Some calls; tool_call_id := None |};
            finish_reason := js "tool_calls" |} ] |}.

(** A response of the server that is a normal completion. *)
Definition completes : ChatResponse :=
  {| response_id := js "r";
     choices :=
       [ {| message :=
              {| role := assistant; content := js "Done."; images := None;
                 tool_calls := None; tool_call_id := None |};
            finish_reason := js "stop" |} ] |}.

Definition resolved (r : ChatResponse) : FetchResult :=
  FetchResolved
    {| status := 200; statusText := js "OK";
       body := Some answer_stream; json_result := inr r |}.

(** A server that fails every request with status 500. *)
Definition failing (h : list Event) : FetchResult :=
  FetchResolved
    {| status := 500; statusText := js "Internal Server Error";
       body := None; json_result := inr completes |}.

(** A server that accepts every request and sends no body. *)
Definition bodiless (h : list Event) : FetchResult :=
  FetchResolved
    {| status := 200; statusText := js "OK";
       body := None; json_result := inr completes |}.

(** A [fetch] that times out. *)
Definition timing_out (h : list Event) : FetchResult :=
  FetchThrew
    (ErrorObj DOMExceptionClass (js "TimeoutError")
       (js "The operation was aborted due to timeout") None).

(** A server that completes normally at once. *)
Definition completing (h : list Event) : FetchResult := resolved completes.


(** A call of an unknown tool with malformed arguments, and a call of
    [web_search] whose arguments are JSON for [null]. *)
Definition unknown_call : ToolCall :=
  call (js "call_1") (js "calculator") (js "{").
Definition null_call : ToolCall :=
  call (js "call_2") (js "web_search") (js "null").
Definition search_call : ToolCall :=
  call (js "call_3") (js "web_search") (jsq "{'query':'news'}").

(** No search key is configured, and the search service is down. *)
Definition no_key : option jsstring := None.
Definition search_down (h : list Event) : BraveResult :=
  BraveThrew (new_Error (js "fetch failed")).

End Examples.

(* ===================================================================== *)
(** ** Further notions *)
(* ===================================================================== *)

Module MoreNotions.

(** The messages of a list that are not system messages, in order. *)
Definition others (messages : list ChatMessage) : list ChatMessage :=
  List.filter (fun m => negb (is_system m)) messages.

(** The class of a thrown value, when it is an [Error]. *)
Definition class_of (e : Thrown) : option ErrClass :=
  match e with
  | ErrorObj cls _ _ _ => Some cls
  | NonError _ => None
  end.

(** A line the decoder passes over: blank, a comment (heartbeat), or
    without the data marker. *)
Definition ignorable (line : jsstring) : Prop :=
  str_eqb (trim line) [] || startsWith (js ":") (trim line)
  || negb (startsWith (js "data:") (trim line)) = true.

(** A data line whose payload, other than the sentinel, is rejected
    by [JSON.parse] or parses to [null]. *)
Definition unusable (line : jsstring) : Prop :=
  exists payload,
    data_payload line = Some payload
    /\ (JSON_parse payload = None \/ JSON_parse payload = Some JNull).

(** The three ways the generator can end. *)
Definition expected_exit (e : Exit) : Prop :=
  e = Returned \/ e = Threw malformed
  \/ e = Threw (null_read "choices").

(** A preference value that does not give a search key: absent,
    empty, or white space only. *)
Definition no_usable_key (key : option jsstring) : Prop :=
  match key with
  | Some k => trim k = []
  | None => True
  end.

(** A search result as [webSearch] makes it from an entry of the
    service. *)
Definition result_of (r : BraveWebResult) : SearchResult :=
  {| title := brave_title r; url := brave_url r;
     snippet := description r |}.

(** The messages one round appends, from the choice that asked for
    tools and the texts its calls produced: the assistant message,
    then a tool message per text, for the calls in order. *)
Definition round_messages (r : Choice * list jsstring)
  : list ChatMessage :=
  assistant_message (fst r)
  :: zip_with tool_message (default [] (wants_tools (fst r))) (snd r).

(** A round whose choice asks for tools and that has results for a
    prefix of its calls; a round that has them for all its calls. *)
Definition round_started (r : Choice * list jsstring) : Prop :=
  exists calls,
    wants_tools (fst r) = Some calls
    /\ (length (snd r) <= length calls)%nat.

Definition round_completed (r : Choice * list jsstring) : Prop :=
  exists calls,
    wants_tools (fst r) = Some calls /\ length (snd r) = length calls.

Definition missing_key_error : Thrown :=
  new_Error (js "No Brave Search API key configured").

(** Whether a thrown value is a [TypeError]. *)
Definition is_type_error (e : Thrown) : bool :=
  match class_of e with
  | Some TypeErrorClass => true
  | _ => false
  end.

(** The providers with a listing endpoint of their own, the URL a
    listing asks first, and the way the answer is read. *)
Definition has_native (config : ProviderConfig) : bool :=
  match type config with
  | ollama | lmstudio => true
  | _ => false
  end.

Definition native_url (config : ProviderConfig) : jsstring :=
  baseUrl config
  ++ match type config with
     | ollama => js "/api/tags"
     | lmstudio => js "/api/v0/models"
     | _ => js "/v1/models"
     end.

Definition reader (config : ProviderConfig)
  : json -> option (list Model) :=
  match type config with
  | lmstudio => lmstudio_listing
  | _ => ollama_listing
  end.

(** The ends of the first request after which a native listing
    turns to the generic endpoint: the answer 404, a [TypeError]
    from [fetch] or from reading the body, and a body that is JSON
    but not a listing. *)
Definition gives_up (read : json -> option (list Model))
    (r : GetResult) : bool :=
  match r with
  | GetThrew e => is_type_error e
  | GetResolved res =>
      if get_status res =? 404 then true
      else if negb (get_ok res) then false
      else
        match listing res with
        | inl e => is_type_error e
        | inr answer =>
            match read answer with
            | Some _ => false
            | None => true
            end
        end
  end.

(** The value a result throws, [e] when it throws none. *)
Definition thrown_or {A} (e : Thrown) (r : Result A) : Thrown :=
  match r with
  | Throw e' => e'
  | Ok _ => e
  end.

(** A preference that is not set, or set to white space only. *)
Definition blank (pref : option jsstring) : Prop :=
  match pref with
  | Some s => trim s = []
  | None => True
  end.

(** No message of the list is a user message. *)
Definition no_user (messages : list ChatMessage) : Prop :=
  Forall (fun m => is_user m = false) messages.

Definition LF_unit : Z := 0x0A.

End MoreNotions.

Export MoreNotions.

Module MoreExamples.

(** A user message with the given text, and a system prompt. *)
Definition says (text : string) : ChatMessage :=
  {| role := user; content := js text; images := None;
     tool_calls := None; tool_call_id := None |}.

Definition prompt : ChatMessage :=
  {| role := system; content := js "Be brief."; images := None;
     tool_calls := None; tool_call_id := None |}.

Definition hit (t u d : string) : BraveWebResult :=
  {| brave_title := js t; brave_url := js u; description := js d |}.

(** A search service that answers with seven entries. *)
Definition seven : list BraveWebResult :=
  [hit "a" "u1" "d1"; hit "b" "u2" "d2"; hit "c" "u3" "d3";
   hit "d" "u4" "d4"; hit "e" "u5" "d5"; hit "f" "u6" "d6";
   hit "g" "u7" "d7"].

Definition answering (h : list Event) : BraveResult :=
  BraveResolved
    {| brave_status := 200;
       brave_json := inr {| web := Some seven |} |}.


Definition some_key : option jsstring := Some (js "BSA-key").
Definition blank_key : option jsstring := Some (js "   ").

(** A search whose query is half of a surrogate pair, written with
    an escape. *)
Definition half_pair_call : ToolCall :=
  Examples.call (js "call_5") (js "web_search")
    (jsq "{'query':'\ud83d'}").

Definition no_query_call : ToolCall :=
  Examples.call (js "call_4") (js "web_search") (jsq "{'q':'news'}").

(** A server without the native listing: 404 for the first request,
    a generic listing for the next. *)
Definition old_server (h : list jsstring) : GetResult :=
  match h with
  | [_] =>
      GetResolved
        {| get_status := 404; get_statusText := js "Not Found";
           listing := inr JNull |}
  | _ =>
      GetResolved
        {| get_status := 200; get_statusText := js "OK";
           listing :=
             inr (JObj [(js "data",
                         JArr [JObj [(js "id", JStr (js "llama3.1"))]])]) |}
  end.

(** No server: every connection is refused. *)
Definition refusal : Thrown :=
  ErrorObj TypeErrorClass (js "TypeError") (js "fetch failed")
    (Some (js "ECONNREFUSED")).

Definition down (h : list jsstring) : GetResult := GetThrew refusal.

(** A store in which onboarding is complete and LM Studio has an
    address of its own. *)
Definition store : LocalStorage :=
  <[js "onboarding_complete" := js "true"]>
    (<[js "provider_url_lmstudio" := js "http://studio.local:1234"]> ∅).

Definition long_question : ChatMessage :=
  says "   Please explain in detail how the streaming decoder deals with frames   ".

End MoreExamples.

Import MoreExamples.

(* ===================================================================== *)
(** ** The fuel of the JSON parser *)
(* ===================================================================== *)

Lemma skip_ws_length (s : jsstring) : (length (skip_ws s) <= length s)%nat.
Proof.
  induction s as [|c s IH]; cbn [skip_ws length]; [lia|].
  destruct (is_json_ws c); cbn [length]; lia.
Qed.

Lemma skip_ws_cons (s s1 : jsstring) (c : Z) :
  skip_ws s = c :: s1 -> (length s1 < length s)%nat.
Proof.
  intros H. pose proof (skip_ws_length s) as Hl. rewrite H in Hl.
  cbn [length] in Hl. lia.
Qed.

Lemma parse_string_length (s str rest : jsstring) :
  parse_string s = Some (str, rest) -> (length rest < length s)%nat.
Proof.
  revert str rest.
  induction s as [s IH] using (induction_ltof1 _ (@length Z)).
  unfold ltof in IH. intros str rest H.
  destruct s as [|c s1]; [done|]. cbn [parse_string] in H.
  destruct (c =? 34); [injection H as _ <-; cbn [length]; lia|].
  destruct (c =? 92).
  - destruct s1 as [|e s2]; [done|].
    destruct (e =? 117).
    + destruct s2 as [|h1 [|h2 [|h3 [|h4 s3]]]]; try done.
      destruct (hex_val h1), (hex_val h2), (hex_val h3), (hex_val h4);
        try done.
      destruct (parse_string s3) as [[str' rest']|] eqn:E; [|done].
      injection H as _ <-. apply IH in E; cbn [length] in *; lia.
    + destruct (unescape e); [|done].
      destruct (parse_string s2) as [[str' rest']|] eqn:E; [|done].
      injection H as _ <-. apply IH in E; cbn [length] in *; lia.
  - destruct (c <? 32); [done|].
    destruct (parse_string s1) as [[str' rest']|] eqn:E; [|done].
    injection H as _ <-. apply IH in E; cbn [length] in *; lia.
Qed.

Lemma take_digits_length (s : jsstring) (acc n : Z) :
  (length (snd (take_digits s acc n)) <= length s)%nat.
Proof.
  revert acc n. induction s as [|c s IH]; intros acc n;
    cbn [take_digits]; [done|].
  destruct (is_digit c); cbn [snd length]; [|lia].
  specialize (IH (acc * 10 + (c - 48)) (n + 1)). lia.
Qed.

Lemma parse_number_length (s rest : jsstring) (v : json) :
  parse_number s = Some (v, rest) -> (length rest < length s)%nat.
Proof.
  unfold parse_number. intros H.
  set (p := match s with
            | [] => (1, s)
            | c :: s' => if c =? 45 then (-1, s') else (1, s)
            end) in H.
  assert (length (snd p) <= length s)%nat as Hp.
  { subst p. destruct s as [|c s']; [done|].
    destruct (c =? 45); cbn [snd length]; lia. }
  destruct p as [sign s1]. cbn [snd] in Hp.
  destruct (parse_int s1) as [[i s2]|] eqn:Hi; [|done].
  assert (length s2 < length s1)%nat as H2.
  { unfold parse_int in Hi. destruct s1 as [|c s']; [done|].
    destruct (c =? 48); [injection Hi as _ <-; cbn [length]; lia|].
    destruct (is_digit c) eqn:Hd; [|done].
    cbn [take_digits] in Hi. rewrite Hd in Hi.
    pose proof (take_digits_length s' (0 * 10 + (c - 48)) (0 + 1)) as Ht.
    destruct (take_digits s' _ _) as [[v' n'] r']. injection Hi as _ <-.
    cbn [snd length] in *. lia. }
  destruct (parse_frac i s2) as [[[m k] s3]|] eqn:Hf; [|done].
  assert (length s3 <= length s2)%nat as H3.
  { unfold parse_frac in Hf. destruct s2 as [|c s']; [by injection Hf as _ _ <-|].
    destruct (c =? 46); [|by injection Hf as _ _ <-].
    pose proof (take_digits_length s' i 0) as Ht.
    destruct (take_digits s' i 0) as [[v' n'] r'].
    destruct (n' =? 0); [done|]. injection Hf as _ _ <-.
    cbn [snd length] in *. lia. }
  destruct (parse_exp s3) as [[e s4]|] eqn:He; [|done].
  assert (length s4 <= length s3)%nat as H4.
  { unfold parse_exp in He. destruct s3 as [|c s']; [by injection He as _ <-|].
    destruct ((c =? 101) || (c =? 69)); [|by injection He as _ <-].
    set (q := match s' with
              | [] => (1, s')
              | d :: t =>
                  if d =? 43 then (1, t)
                  else if d =? 45 then (-1, t) else (1, s')
              end) in He.
    assert (length (snd q) <= length s')%nat as Hq.
    { subst q. destruct s' as [|d t]; [done|].
      destruct (d =? 43); [cbn [snd length]; lia|].
      destruct (d =? 45); cbn [snd length]; lia. }
    destruct q as [sg s'']. cbn [snd] in Hq.
    pose proof (take_digits_length s'' 0 0) as Ht.
    destruct (take_digits s'' 0 0) as [[v' n'] r'].
    destruct (n' =? 0); [done|]. injection He as _ <-.
    cbn [snd length] in *. lia. }
  injection H as _ <-. lia.
Qed.

Lemma parse_value_S (f : nat) (s : jsstring) :
  parse_value (S f) s =
  match skip_ws s with
  | [] => None
  | c :: s1 =>
      if c =? 0x7B then
        match skip_ws s1 with
        | c2 :: s2 =>
            if c2 =? 0x7D then Some (JObj [], s2)
            else match parse_members f s1 with
                 | Some (ms, rest) => Some (JObj ms, rest)
                 | None => None
                 end
        | [] => None
        end
      else if c =? 0x5B then
        match skip_ws s1 with
        | c2 :: s2 =>
            if c2 =? 0x5D then Some (JArr [], s2)
            else match parse_elements f s1 with
                 | Some (vs, rest) => Some (JArr vs, rest)
                 | None => None
                 end
        | [] => None
        end
      else if c =? 0x22 then
        match parse_string s1 with
        | Some (str, rest) => Some (JStr str, rest)
        | None => None
        end
      else if startsWith (js "true") (c :: s1) then
        Some (JBool true, drop 4 (c :: s1))
      else if startsWith (js "false") (c :: s1) then
        Some (JBool false, drop 5 (c :: s1))
      else if startsWith (js "null") (c :: s1) then
        Some (JNull, drop 4 (c :: s1))
      else parse_number (c :: s1)
  end.
Proof. reflexivity. Qed.

Lemma parse_elements_S (f : nat) (s : jsstring) :
  parse_elements (S f) s =
  match parse_value f s with
  | None => None
  | Some (v, rest) =>
      match skip_ws rest with
      | c :: rest' =>
          if c =? 0x5D then Some ([v], rest')
          else if c =? 0x2C then
            match parse_elements f rest' with
            | Some (vs, rest'') => Some (v :: vs, rest'')
            | None => None
            end
          else None
      | [] => None
      end
  end.
Proof. reflexivity. Qed.

Lemma parse_members_S (f : nat) (s : jsstring) :
  parse_members (S f) s =
  match skip_ws s with
  | q :: s1 =>
      if q =? 0x22 then
        match parse_string s1 with
        | None => None
        | Some (key, s2) =>
            match skip_ws s2 with
            | colon :: s3 =>
                if colon =? 0x3A then
                  match parse_value f s3 with
                  | None => None
                  | Some (v, rest) =>
                      match skip_ws rest with
                      | c :: rest' =>
                          if c =? 0x7D then Some ([(key, v)], rest')
                          else if c =? 0x2C then
                            match parse_members f rest' with
                            | Some (ms, rest'') =>
                                Some ((key, v) :: ms, rest'')
                            | None => None
                            end
                          else None
                      | [] => None
                      end
                  end
                else None
            | [] => None
            end
        end
      else None
  | [] => None
  end.
Proof. reflexivity. Qed.

Lemma parse_lengths (fuel : nat) :
  (forall s v rest,
      parse_value fuel s = Some (v, rest) -> (length rest < length s)%nat)
  /\ (forall s vs rest,
         parse_elements fuel s = Some (vs, rest) ->
         (length rest < length s)%nat)
  /\ (forall s ms rest,
         parse_members fuel s = Some (ms, rest) ->
         (length rest < length s)%nat).
Proof.
  induction fuel as [|f (IHv & IHe & IHm)]; [by repeat split|].
  split; [|split].
  - intros s v rest H. rewrite parse_value_S in H.
    destruct (skip_ws s) as [|c s1] eqn:Hs; [done|].
    apply skip_ws_cons in Hs.
    destruct (c =? 123).
    { destruct (skip_ws s1) as [|c2 s2] eqn:Hs1; [done|].
      apply skip_ws_cons in Hs1.
      destruct (c2 =? 125); [injection H as _ <-; lia|].
      destruct (parse_members f s1) as [[ms r]|] eqn:E; [|done].
      apply IHm in E. injection H as _ <-. lia. }
    destruct (c =? 91).
    { destruct (skip_ws s1) as [|c2 s2] eqn:Hs1; [done|].
      apply skip_ws_cons in Hs1.
      destruct (c2 =? 93); [injection H as _ <-; lia|].
      destruct (parse_elements f s1) as [[vs r]|] eqn:E; [|done].
      apply IHe in E. injection H as _ <-. lia. }
    destruct (c =? 34).
    { destruct (parse_string s1) as [[str r]|] eqn:E; [|done].
      apply parse_string_length in E. injection H as _ <-. lia. }
    destruct (startsWith (js "true") (c :: s1));
      [injection H as _ <-; rewrite length_drop; cbn [length]; lia|].
    destruct (startsWith (js "false") (c :: s1));
      [injection H as _ <-; rewrite length_drop; cbn [length]; lia|].
    destruct (startsWith (js "null") (c :: s1));
      [injection H as _ <-; rewrite length_drop; cbn [length]; lia|].
    apply parse_number_length in H. cbn [length] in H. lia.
  - intros s vs rest H. rewrite parse_elements_S in H.
    destruct (parse_value f s) as [[v r]|] eqn:E; [|done]. apply IHv in E.
    destruct (skip_ws r) as [|c r'] eqn:Hr; [done|]. apply skip_ws_cons in Hr.
    destruct (c =? 93); [injection H as _ <-; lia|].
    destruct (c =? 44); [|done].
    destruct (parse_elements f r') as [[vs' r'']|] eqn:E2; [|done].
    apply IHe in E2. injection H as _ <-. lia.
  - intros s ms rest H. rewrite parse_members_S in H.
    destruct (skip_ws s) as [|q s1] eqn:Hs; [done|]. apply skip_ws_cons in Hs.
    destruct (q =? 34); [|done].
    destruct (parse_string s1) as [[key s2]|] eqn:Ek; [|done].
    apply parse_string_length in Ek.
    destruct (skip_ws s2) as [|colon s3] eqn:Hs2; [done|].
    apply skip_ws_cons in Hs2.
    destruct (colon =? 58); [|done].
    destruct (parse_value f s3) as [[v r]|] eqn:E; [|done]. apply IHv in E.
    destruct (skip_ws r) as [|c r'] eqn:Hr; [done|]. apply skip_ws_cons in Hr.
    destruct (c =? 125); [injection H as _ <-; lia|].
    destruct (c =? 44); [|done].
    destruct (parse_members f r') as [[ms' r'']|] eqn:E2; [|done].
    apply IHm in E2. injection H as _ <-. lia.
Qed.

(** Past twice the length of the input, more fuel changes nothing. *)
Lemma parse_fuel_stable (fuel : nat) :
  (forall s, (2 * length s + 1 <= fuel)%nat ->
             parse_value (S fuel) s = parse_value fuel s)
  /\ (forall s, (2 * length s + 2 <= fuel)%nat ->
                parse_elements (S fuel) s = parse_elements fuel s)
  /\ (forall s, (2 * length s + 2 <= fuel)%nat ->
                parse_members (S fuel) s = parse_members fuel s).
Proof.
  induction fuel as [|f (IHv & IHe & IHm)]; [repeat split; intros; lia|].
  split; [|split].
  - intros s Hf. rewrite (parse_value_S (S f)), (parse_value_S f).
    destruct (skip_ws s) as [|c s1] eqn:Hs; [done|]. apply skip_ws_cons in Hs.
    rewrite (IHm s1), (IHe s1) by lia. done.
  - intros s Hf. rewrite (parse_elements_S (S f)), (parse_elements_S f).
    rewrite IHv by lia.
    destruct (parse_value f s) as [[v r]|] eqn:E; [|done].
    apply (proj1 (parse_lengths f)) in E.
    destruct (skip_ws r) as [|c r'] eqn:Hr; [done|]. apply skip_ws_cons in Hr.
    rewrite (IHe r') by lia. done.
  - intros s Hf. rewrite (parse_members_S (S f)), (parse_members_S f).
    destruct (skip_ws s) as [|q s1] eqn:Hs; [done|]. apply skip_ws_cons in Hs.
    destruct (q =? 34); [|done].
    destruct (parse_string s1) as [[key s2]|] eqn:Ek; [|done].
    apply parse_string_length in Ek.
    destruct (skip_ws s2) as [|colon s3] eqn:Hs2; [done|].
    apply skip_ws_cons in Hs2.
    destruct (colon =? 58); [|done].
    rewrite (IHv s3) by lia.
    destruct (parse_value f s3) as [[v r]|] eqn:E; [|done].
    apply (proj1 (parse_lengths f)) in E.
    destruct (skip_ws r) as [|c r'] eqn:Hr; [done|]. apply skip_ws_cons in Hr.
    rewrite (IHm r') by lia. done.
Qed.

(** [JSON_parse] gives its parser all the fuel it can use: with any
    more, the result is the same. *)
Lemma JSON_parse_fuel (text : jsstring) (more : nat) :
  parse_value (2 * length text + 2 + more) text
  = parse_value (2 * length text + 2) text.
Proof.
  induction more as [|k IH]; [by rewrite Nat.add_0_r|].
  rewrite Nat.add_succ_r, (proj1 (parse_fuel_stable _)) by lia. done.
Qed.

(* ===================================================================== *)
(** ** Strings *)
(* ===================================================================== *)

Lemma str_eqb_eq (a b : jsstring) : str_eqb a b = true <-> a = b.
Proof.
  revert b. induction a as [|x a IH]; intros [|y b]; simpl; split;
    try congruence; intros H.
  - apply andb_true_iff in H as [Hx Hab]. apply Z.eqb_eq in Hx.
    apply IH in Hab. congruence.
  - injection H as -> ->. rewrite Z.eqb_refl. simpl. by apply IH.
Qed.

Lemma str_eqb_refl (a : jsstring) : str_eqb a a = true.
Proof. by apply str_eqb_eq. Qed.

Lemma startsWith_app (p s : jsstring) : startsWith p (p ++ s) = true.
Proof. induction p as [|x p IH]; simpl; [done|]. by rewrite Z.eqb_refl. Qed.

Lemma includes_prefix (p s : jsstring) :
  startsWith p s = true -> includes p s = true.
Proof. destruct s; simpl; intros ->; done. Qed.

Lemma includes_app (p a b : jsstring) : includes p (a ++ p ++ b) = true.
Proof.
  induction a as [|x a IH]; simpl.
  - apply includes_prefix, startsWith_app.
  - rewrite IH. apply orb_true_r.
Qed.

Lemma includes_app_r (p a b : jsstring) :
  includes p b = true -> includes p (a ++ b) = true.
Proof.
  intros H. induction a as [|x a IH]; simpl; [done|].
  rewrite IH. apply orb_true_r.
Qed.

(* ===================================================================== *)
(** ** Lines *)
(* ===================================================================== *)

Lemma split_chop (s : jsstring) :
  split 0x0A s = fst (chop s) ++ [snd (chop s)].
Proof.
  induction s as [|c s IH]; simpl; [done|].
  destruct (chop s) as [ls r]; simpl in IH. rewrite IH.
  destruct (c =? 10); [done|].
  destruct ls as [|l ls]; done.
Qed.

Lemma pop_split (s : jsstring) :
  pop (split 0x0A s) = (fst (chop s), Some (snd (chop s))).
Proof.
  unfold pop. rewrite split_chop, removelast_last, last_snoc. done.
Qed.

Lemma chop_app (s t : jsstring) :
  chop (s ++ t) =
  (fst (chop s) ++ fst (chop (snd (chop s) ++ t)),
   snd (chop (snd (chop s) ++ t))).
Proof.
  induction s as [|c s IH]; simpl.
  - by destruct (chop t).
  - rewrite IH. destruct (chop s) as [ls r]; simpl.
    destruct (c =? 10) eqn:Ec; simpl; [done|].
    destruct ls as [|l ls]; simpl; [|done].
    rewrite Ec. by destruct (chop (r ++ t)) as [[|l2 ls2] r2].
Qed.

Lemma chop_residual (s : jsstring) :
  chop (snd (chop s)) = ([], snd (chop s)).
Proof.
  induction s as [|c s IH]; simpl; [done|].
  destruct (chop s) as [ls r]; simpl in *.
  destruct (c =? 10) eqn:Ec; simpl; [done|].
  destruct ls as [|l ls]; simpl; [|done].
  by rewrite IH, Ec.
Qed.

Lemma process_lines_app (f : Z) (l1 l2 : list jsstring) :
  process_lines f (l1 ++ l2) =
  match process_lines f l1 with
  | (toks, inl f') =>
      (toks ++ fst (process_lines f' l2), snd (process_lines f' l2))
  | (toks, inr e) => (toks, inr e)
  end.
Proof.
  revert f. induction l1 as [|line l1 IH]; intros f; simpl.
  - by destruct (process_lines f l2).
  - destruct (process_line f line) as [f' y| |e]; [|done..].
    rewrite IH. destruct (process_lines f' l1) as [toks [f''|e]];
      by destruct y.
Qed.

Lemma decode_app (d : TextDecoder.t) (a b : list Z) :
  TextDecoder.decode d (a ++ b) =
  (fst (TextDecoder.decode (fst (TextDecoder.decode d a)) b),
   snd (TextDecoder.decode d a)
   ++ snd (TextDecoder.decode (fst (TextDecoder.decode d a)) b)).
Proof.
  revert d. induction a as [|x a IH]; intros d; simpl.
  - by destruct (TextDecoder.decode d b).
  - destruct (TextDecoder.decode_byte d x) as [d1 out1].
    rewrite IH. destruct (TextDecoder.decode d1 a) as [d2 out2]; simpl.
    by rewrite app_assoc.
Qed.

(** The run on a stream is the run on the text of all its chunks. *)
Lemma read_loop_text (st : State) (stream : ReadableStream) :
  chop (buffer st) = ([], buffer st) ->
  observe (read_loop st stream) =
  run_text (consecutiveParseFailures st)
    (buffer st ++ snd (TextDecoder.decode (decoder st) (concat stream))).
Proof.
  revert st. induction stream as [|value stream IH]; intros st Hbuf.
  - simpl. rewrite app_nil_r. unfold run_text. rewrite Hbuf. done.
  - cbn [read_loop concat]. rewrite decode_app.
    destruct (TextDecoder.decode (decoder st) value) as [d text].
    rewrite pop_split. cbn [fst snd default]. rewrite app_assoc.
    unfold run_text at 1, id. rewrite (chop_app (buffer st ++ text)).
    cbv beta iota.
    rewrite process_lines_app.
    destruct (process_lines (consecutiveParseFailures st)
                (fst (chop (buffer st ++ text)))) as [toks [f'|e]];
      [|done].
    unfold observe; cbn [tokens exit].
    pose proof (IH (mkState d (snd (chop (buffer st ++ text))) f')) as IH'.
    unfold observe in IH'. cbn [decoder buffer consecutiveParseFailures] in IH'.
    specialize (IH' (chop_residual _)).
    rewrite (f_equal fst IH' : tokens _ = _), (f_equal snd IH' : exit _ = _).
    unfold run_text. clear IH IH' Hbuf.
    destruct (chop (snd (chop (buffer st ++ text)) ++ _)) as [ls r].
    cbn [fst snd].
    destruct (process_lines f' ls) as [toks2 [f''|e]]; cbn [fst snd];
      by rewrite ?app_assoc.
Qed.

Lemma parseSSEStream_text (stream : ReadableStream) :
  observe (parseSSEStream stream) =
  run_text 0 (snd (TextDecoder.decode TextDecoder.create (concat stream))).
Proof. unfold parseSSEStream. by rewrite read_loop_text. Qed.

(* ===================================================================== *)
(** ** The stream decoder *)
(* ===================================================================== *)

(** C1. For every byte sequence [payload] and every way [chunks] of
    cutting it into chunks (at any byte offsets, empty chunks included),
    the decoder yields on [chunks] the same tokens in the same order, and
    ends the same way, as on [payload] given as one chunk. In
    particular every cutting of the two-frame scenario of the
    specification yields the tokens A and B. *)
Theorem chunk_boundary_invariance (payload : list Z) (chunks : ReadableStream) :
  concat chunks = payload ->
  observe (parseSSEStream chunks) = observe (parseSSEStream [payload])
  /\ (payload = ab_bytes ->
      tokens (parseSSEStream chunks) = [JStr (js "A"); JStr (js "B")]).
Proof.
  intros <-.
  assert (observe (parseSSEStream chunks)
          = observe (parseSSEStream [concat chunks])) as Hobs.
  { rewrite !parseSSEStream_text. cbn [concat]. by rewrite app_nil_r. }
  split; [done|]. intros Hab.
  change (fst (observe (parseSSEStream chunks)) = [JStr (js "A"); JStr (js "B")]).
  rewrite Hobs, Hab. vm_compute. reflexivity.
Qed.

Lemma chunk_boundary_invariance_witness :
  let chunks := [take 1 ab_bytes; take 4 (drop 1 ab_bytes);
                 take 35 (drop 5 ab_bytes); drop 40 ab_bytes] in
  concat chunks = ab_bytes
  /\ observe (parseSSEStream chunks) = observe (parseSSEStream [ab_bytes])
  /\ tokens (parseSSEStream chunks) = [JStr (js "A"); JStr (js "B")].
Proof.
  intros chunks.
  assert (concat chunks = ab_bytes) as H by (vm_compute; reflexivity).
  split; [exact H|].
  destruct (chunk_boundary_invariance ab_bytes chunks H) as [H1 H2].
  split; [exact H1|]. apply H2. reflexivity.
Defined.

Lemma data_line_not_comment (t : jsstring) :
  startsWith (js "data:") t = true ->
  str_eqb t [] || startsWith (js ":") t = false.
Proof.
  change (js "data:") with [100; 97; 116; 97; 58].
  change (js ":") with [58].
  destruct t as [|c t]; [done|]. cbn [startsWith str_eqb orb].
  destruct (100 =? c) eqn:E; [|done]. apply Z.eqb_eq in E as <-. done.
Qed.

Lemma process_line_data (f : Z) (line payload : jsstring) :
  data_payload line = Some payload ->
  process_line f line =
  match JSON_parse payload with
  | None => if f + 1 >=? 5 then Raise malformed else Next (f + 1) None
  | Some JNull => Raise (null_read "choices")
  | Some chunk =>
      if truthy (content_of chunk) then Next 0 (content_of chunk)
      else Next 0 None
  end.
Proof.
  unfold data_payload, process_line. intros H.
  destruct (startsWith (js "data:") (trim line)) eqn:Hd; [|done].
  rewrite (data_line_not_comment _ Hd). cbn [negb].
  change (length (js "data:")) with 5%nat.
  destruct (str_eqb (trim (slice 5 (trim line))) (js "[DONE]")); [done|].
  assert (payload = trim (slice 5 (trim line))) as -> by congruence.
  done.
Qed.

Lemma process_line_undecodable (f : Z) (line : jsstring) :
  undecodable line ->
  process_line f line =
  if f + 1 >=? 5 then Raise malformed else Next (f + 1) None.
Proof.
  intros (payload & Hp & Hparse).
  by rewrite (process_line_data _ _ _ Hp), Hparse.
Qed.

Lemma process_lines_undecodable (lines : list jsstring) (f : Z) :
  0 <= f < 5 ->
  Forall undecodable lines ->
  process_lines f lines =
  if f + Z.of_nat (length lines) <? 5
  then ([], inl (f + Z.of_nat (length lines)))
  else ([], inr (Threw malformed)).
Proof.
  intros Hf Hall. revert f Hf.
  induction Hall as [|line lines Hline _ IH]; intros f Hf.
  - cbn [process_lines length]. rewrite Z.add_0_r.
    destruct (Z.ltb_spec f 5); [done|lia].
  - cbn [process_lines length]. rewrite (process_line_undecodable _ _ Hline).
    destruct (Z.geb_spec (f + 1) 5) as [Hge|Hlt].
    + destruct (Z.ltb_spec (f + Z.of_nat (S (length lines))) 5); [lia|done].
    + rewrite IH by lia.
      replace (f + 1 + Z.of_nat (length lines))
        with (f + Z.of_nat (S (length lines))) by lia.
      by destruct (_ <? 5).
Qed.

(** The part of C4 that holds. In the loop over complete lines, a data
    line whose payload [JSON.parse] rejects yields nothing and adds one
    to the counter of consecutive failures; a payload that parses (to a
    value other than [null]) sets the counter to zero; a run of such
    lines that keeps the counter below 5 raises nothing, and the line
    that brings the counter to 5 makes the decoder throw its
    malformed-data error. *)
Lemma malformed_frames_threshold :
  (forall f line,
      undecodable line ->
      process_line f line =
      if f + 1 >=? 5 then Raise malformed else Next (f + 1) None)
  /\ (forall f line payload chunk,
         data_payload line = Some payload ->
         JSON_parse payload = Some chunk ->
         chunk <> JNull ->
         exists yielded, process_line f line = Next 0 yielded)
  /\ (forall f lines,
         0 <= f < 5 ->
         Forall undecodable lines ->
         process_lines f lines =
         if f + Z.of_nat (length lines) <? 5
         then ([], inl (f + Z.of_nat (length lines)))
         else ([], inr (Threw malformed))).
Proof.
  split; [exact process_line_undecodable|].
  split; [|intros; by apply process_lines_undecodable].
  intros f line payload chunk Hp Hparse Hnull.
  rewrite (process_line_data _ _ _ Hp), Hparse.
  destruct chunk; try done; destruct (truthy _); eauto.
Qed.

Lemma malformed_frames_threshold_witness :
  let bad := js "data: {oops" in
  process_line 3 bad = Next 4 None
  /\ process_line 4 bad = Raise malformed
  /\ (exists yielded, process_line 4 (frame "Hi") = Next 0 yielded)
  /\ process_lines 0 [bad; bad; bad; bad] = ([], inl 4)
  /\ process_lines 0 [bad; bad; bad; bad; bad] = ([], inr (Threw malformed)).
Proof.
  intros bad.
  assert (undecodable bad) as Hbad.
  { exists (js "{oops"). split; vm_compute; reflexivity. }
  destruct malformed_frames_threshold as (Hstep & Hreset & Hrun).
  split; [exact (Hstep 3 bad Hbad)|].
  split; [exact (Hstep 4 bad Hbad)|].
  split.
  - apply (Hreset 4 (frame "Hi")
             (jsq "{'choices':[{'delta':{'content':'Hi'}}]}")
             (JObj [(js "choices",
                     JArr [JObj [(js "delta",
                                  JObj [(js "content", JStr (js "Hi"))])]])])).
    + vm_compute; reflexivity.
    + vm_compute; reflexivity.
    + discriminate.
  - split.
    + apply (Hrun 0 [bad; bad; bad; bad]); [lia|].
      repeat constructor; exact Hbad.
    + apply (Hrun 0 [bad; bad; bad; bad; bad]); [lia|].
      repeat constructor; exact Hbad.
Defined.

(** The same for the generator: the counter is kept from one read to
    the next. When every complete line of the text that arrives is a
    data line that [JSON.parse] rejects, however the bytes are cut into
    chunks, the generator returns when there are fewer than 5 such
    lines and throws the malformed-data error, without a token, when
    there are 5 or more. *)
Lemma malformed_frames_across_reads (stream : ReadableStream)
    (lines : list jsstring) (rest : jsstring) :
  chop (snd (TextDecoder.decode TextDecoder.create (concat stream)))
  = (lines, rest) ->
  Forall undecodable lines ->
  observe (parseSSEStream stream)
  = if Z.of_nat (length lines) <? 5 then (flush rest, Returned)
    else ([], Threw malformed).
Proof.
  intros Hchop Hall. rewrite parseSSEStream_text. unfold run_text.
  rewrite Hchop, (process_lines_undecodable lines 0) by (done || lia).
  rewrite Z.add_0_l. by destruct (_ <? 5).
Qed.

(** A data line whose payload parses to [null] makes the loop body
    throw, whatever the counter. *)
Lemma process_line_null (f : Z) (line payload : jsstring) :
  data_payload line = Some payload ->
  JSON_parse payload = Some JNull ->
  process_line f line = Raise (null_read "choices").
Proof.
  intros Hp Hparse. by rewrite (process_line_data _ _ _ Hp), Hparse.
Qed.

(** C4 fails on the code. A data line whose payload is [null] passes
    [JSON.parse], and the read of [choices] that follows the [try]
    throws a [TypeError]: the generator raises an error at the first
    such line, with no failure counted, and the error is not the
    malformed-data error. So it is after a frame that was decoded, and
    with the bytes cut anywhere. The code after the loop has the same
    read inside its [try]: it passes over the same line when the line
    comes last, without a line feed. *)
Theorem null_payload_throws :
  process_line 0 (js "data: null") = Raise (null_read "choices")
  /\ observe (parseSSEStream [js "data: null" ++ LF])
     = ([], Threw (null_read "choices"))
  /\ observe (parseSSEStream
                [frame "A" ++ LF ++ js "data: nu"; js "ll" ++ LF;
                 frame "B" ++ LF])
     = ([JStr (js "A")], Threw (null_read "choices"))
  /\ observe (parseSSEStream [frame "A" ++ LF ++ js "data: null"])
     = ([JStr (js "A")], Returned).
Proof. vm_compute. repeat split. Qed.

Lemma process_line_sentinel (f : Z) (line : jsstring) :
  is_sentinel line -> process_line f line = Stop.
Proof.
  intros [Hd Hp]. unfold process_line.
  rewrite (data_line_not_comment _ Hd), Hd. cbn [negb].
  change (length (js "data:")) with 5%nat. by rewrite Hp.
Qed.

(** C5. The bytes of the frame that carries "Hi", a blank line, the
    sentinel line and a blank line decode to the single token "Hi" and
    the generator returns; this is so whatever bytes [more] and chunks
    [rest] follow the sentinel, given in one chunk or in two: no line
    after the sentinel is looked at and no further chunk is read. In
    general the loop over lines stops at a sentinel line, whatever
    follows it. *)
Theorem literal_round_trip (more : list Z) (rest : ReadableStream) :
  parseSSEStream ((hi_bytes ++ done_bytes ++ more) :: rest)
  = mkRun [JStr (js "Hi")] Returned rest
  /\ parseSSEStream (hi_bytes :: (done_bytes ++ more) :: rest)
     = mkRun [JStr (js "Hi")] Returned rest
  /\ (forall f line lines,
         is_sentinel line ->
         process_lines f (line :: lines) = ([], inr Returned)).
Proof.
  split; [|split].
  - unfold parseSSEStream. cbn [read_loop decoder buffer app
                                consecutiveParseFailures].
    rewrite (app_assoc hi_bytes), decode_app.
    set (dd := TextDecoder.decode TextDecoder.create (hi_bytes ++ done_bytes)).
    destruct (TextDecoder.decode (fst dd) more) as [d2 t2].
    cbn [fst snd]. rewrite pop_split, chop_app. cbn [fst snd].
    rewrite process_lines_app.
    replace (process_lines 0 (fst (chop (snd dd))))
      with ([JStr (js "Hi")], inr Returned : Z + Exit)
      by (vm_compute; reflexivity).
    done.
  - unfold parseSSEStream. cbn [read_loop decoder buffer app
                                consecutiveParseFailures].
    set (dd := TextDecoder.decode TextDecoder.create hi_bytes).
    replace dd with (fst dd, snd dd) by (by destruct dd).
    rewrite pop_split.
    replace (process_lines 0 (fst (chop (snd dd))))
      with ([JStr (js "Hi")], inl 0 : Z + Exit)
      by (vm_compute; reflexivity).
    cbn [read_loop decoder buffer consecutiveParseFailures default
         from_option fst snd id].
    rewrite decode_app.
    set (d1 := TextDecoder.decode (fst dd) done_bytes).
    destruct (TextDecoder.decode (fst d1) more) as [d2 t2].
    cbn [fst snd]. rewrite pop_split, app_assoc, chop_app. cbn [fst snd].
    rewrite process_lines_app.
    replace (process_lines 0 (fst (chop (snd (chop (snd dd)) ++ snd d1))))
      with ([] : list json, inr Returned : Z + Exit)
      by (vm_compute; reflexivity).
    done.
  - intros f line lines Hs. cbn [process_lines].
    by rewrite (process_line_sentinel _ _ Hs).
Qed.

Lemma literal_round_trip_witness :
  parseSSEStream [hi_bytes ++ done_bytes]
  = mkRun [JStr (js "Hi")] Returned []
  /\ parseSSEStream [hi_bytes; done_bytes; hi_bytes]
     = mkRun [JStr (js "Hi")] Returned [hi_bytes]
  /\ process_lines 0 [js "data: [DONE]"; frame "Hi"] = ([], inr Returned).
Proof.
  destruct (literal_round_trip [] []) as (H1 & _ & H3).
  destruct (literal_round_trip [] [hi_bytes]) as (_ & H2 & _).
  split; [|split].
  - rewrite <- H1. by rewrite !app_nil_r.
  - rewrite <- H2. by rewrite !app_nil_r.
  - apply H3. split; reflexivity.
Defined.

(* ===================================================================== *)
(** ** The transport client *)
(* ===================================================================== *)

Lemma translateFetchError_failure (k : FailureKind) (err : Thrown)
    (config : ProviderConfig) :
  fetch_failure k err ->
  translateFetchError err config =
  new_Error (failure_message k (PROVIDER_NAMES (type config)) (baseUrl config)).
Proof.
  intros H. destruct H as [m c|cls m c|m c Hc|m c Hc];
    unfold translateFetchError.
  - done.
  - rewrite str_eqb_refl.
    by destruct (is_DOMException cls
                 && str_eqb (js "AbortError") (js "TimeoutError")).
  - cbn [is_DOMException is_TypeError andb orb].
    change (str_eqb (js "TypeError") (js "AbortError")) with false.
    by rewrite Hc.
  - cbn [is_DOMException is_TypeError andb orb].
    change (str_eqb (js "TypeError") (js "AbortError")) with false.
    by rewrite Hc.
Qed.

Lemma failure_message_names (k : FailureKind) (name url : jsstring) :
  includes url (failure_message k name url) = true
  /\ includes name (failure_message k name url) = true.
Proof.
  destruct k; cbn [failure_message];
    unfold timeout_message, refused_message, unreachable_message; split.
  - apply includes_app_r, includes_app_r, includes_app_r.
    apply (includes_app url []).
  - apply includes_app.
  - apply includes_app.
  - apply includes_app_r, includes_app_r, includes_app_r.
    apply (includes_app name []).
  - apply includes_app_r, includes_app_r, includes_app_r.
    apply (includes_app url []).
  - apply includes_app.
Qed.

Section Transport.

Variable readFileSync : jsstring -> option (list Z).
Variable fetch : list Event -> FetchResult.

(** What [sendChatStream] does: one request, whose outcome decides the
    result. *)
Lemma sendChatStream_run (config : ProviderConfig) (request : ChatRequest)
    (w : World.t) :
  let w' :=
    after w (Fetched (chat_url config)
               (request_body readFileSync request
                  (cell w (messages request)) true (tools request))) in
  sendChatStream readFileSync fetch config request w =
  (match fetch (log w') with
   | FetchThrew e => Throw (translateFetchError e config)
   | FetchResolved res =>
       if negb (ok res) then
         Throw (translateFetchError (status_error res) config)
       else
         match body res with
         | None => Throw (translateFetchError empty_body_error config)
         | Some b => Ok b
         end
   end, w').
Proof.
  cbv [sendChatStream try_catch bind read post emit history after
       request_body cell ret throw heap log].
  destruct (fetch _) as [e|res]; [done|].
  destruct (negb (ok res)); [done|].
  by destruct (body res).
Qed.

(** What [sendChatWithTools] does. *)
Lemma sendChatWithTools_run (config : ProviderConfig)
    (request : ChatRequest) (tls : list Tool) (w : World.t) :
  let w' :=
    after w (Fetched (chat_url config)
               (request_body readFileSync request
                  (cell w (messages request)) false (Some tls))) in
  sendChatWithTools readFileSync fetch config request tls w =
  (match fetch (log w') with
   | FetchThrew e => Throw (translateFetchError e config)
   | FetchResolved res =>
       if negb (ok res) then
         Throw (translateFetchError (status_error res) config)
       else
         match json_result res with
         | inl e => Throw (translateFetchError e config)
         | inr r => Ok r
         end
   end, w').
Proof.
  cbv [sendChatWithTools try_catch bind read post emit history after
       request_body cell ret throw heap log res_json].
  destruct (fetch _) as [e|res]; [done|].
  destruct (negb (ok res)); [done|].
  by destruct (json_result res).
Qed.

(** C7, as the code has it. A failure of [fetch] itself (a timeout or
    an abort, a refused connection, an unreachable or unresolvable
    host) is surfaced by the streaming call as the error of its kind,
    whose message contains both the base URL and the provider label.
    A non-success HTTP status is surfaced as the error [Server
    returned <status> <statusText>], unless that text contains
    "fetch", and an empty body as the error [Response body is empty -
    streaming not supported by server]: the messages of these two are
    built without the base URL and the provider label. *)
Theorem transport_failures_surface (config : ProviderConfig)
    (request : ChatRequest) (w : World.t) :
  let name := PROVIDER_NAMES (type config) in
  let run := sendChatStream readFileSync fetch config request w in
  match fetch (log (snd run)) with
  | FetchThrew err =>
      forall k, fetch_failure k err ->
        fst run = Throw (new_Error (failure_message k name (baseUrl config)))
        /\ includes (baseUrl config)
             (failure_message k name (baseUrl config)) = true
        /\ includes name (failure_message k name (baseUrl config)) = true
  | FetchResolved res =>
      (ok res = false ->
       includes (js "fetch") (message_of (status_error res)) = false ->
       fst run = Throw (status_error res))
      /\ (ok res = true -> body res = None ->
          fst run = Throw empty_body_error)
  end.
Proof.
  cbv zeta. rewrite sendChatStream_run. cbn [fst snd].
  destruct (fetch _) as [err|res].
  - intros k Hk. rewrite (translateFetchError_failure _ _ _ Hk).
    split; [done|]. apply failure_message_names.
  - split.
    + intros -> Hmsg. cbn [negb]. unfold status_error, new_Error in *.
      cbn [message_of] in Hmsg. unfold translateFetchError.
      cbn [is_DOMException is_TypeError andb orb].
      change (str_eqb (js "Error") (js "AbortError")) with false.
      by rewrite Hmsg.
    + intros -> ->. done.
Qed.

End Transport.

Lemma transport_failures_surface_witness :
  let name := PROVIDER_NAMES (type Examples.config) in
  let url := baseUrl Examples.config in
  (fst (sendChatStream Examples.files Examples.timing_out Examples.config
          Examples.request Examples.world)
   = Throw (new_Error (timeout_message name url))
   /\ includes url (timeout_message name url) = true
   /\ includes name (timeout_message name url) = true)
  /\ fst (sendChatStream Examples.files Examples.failing Examples.config
            Examples.request Examples.world)
     = Throw (new_Error (js "Server returned 500 Internal Server Error"))
  /\ fst (sendChatStream Examples.files Examples.bodiless Examples.config
            Examples.request Examples.world)
     = Throw (Api.empty_body_error).
Proof.
  cbv zeta. split; [|split].
  - apply (transport_failures_surface Examples.files Examples.timing_out
             Examples.config Examples.request Examples.world Timeout).
    constructor.
  - apply (transport_failures_surface Examples.files Examples.failing
             Examples.config Examples.request Examples.world);
      vm_compute; reflexivity.
  - apply (transport_failures_surface Examples.files Examples.bodiless
             Examples.config Examples.request Examples.world);
      vm_compute; reflexivity.
Defined.

(** C7 as the specification states it fails: a non-success HTTP status
    and an empty body are surfaced as errors whose message contains
    neither the base URL nor the provider label. *)
Lemma status_error_lacks_endpoint :
  (exists e,
      fst (sendChatStream Examples.files Examples.failing Examples.config
             Examples.request Examples.world) = Throw e
      /\ includes (baseUrl Examples.config) (message_of e) = false
      /\ includes (PROVIDER_NAMES (type Examples.config)) (message_of e)
         = false)
  /\ (exists e,
         fst (sendChatStream Examples.files Examples.bodiless Examples.config
                Examples.request Examples.world) = Throw e
         /\ includes (baseUrl Examples.config) (message_of e) = false
         /\ includes (PROVIDER_NAMES (type Examples.config)) (message_of e)
            = false).
Proof.
  split; eexists; (split; [vm_compute; reflexivity|]);
    split; vm_compute; reflexivity.
Qed.

Section Multimodal.

Variable readFileSync : jsstring -> option (list Z).
Variable fetch : list Event -> FetchResult.

Lemma prepare_message_plain (msg : ChatMessage) :
  has_images msg = false -> prepare_message readFileSync msg = Unchanged msg.
Proof. unfold prepare_message. by intros ->. Qed.

Lemma prepare_message_images (msg : ChatMessage) (paths : list jsstring) :
  images msg = Some paths -> paths <> [] ->
  prepare_message readFileSync msg =
  Rebuilt (role msg)
    (Parts (text_parts msg ++ map (image_part readFileSync) paths)).
Proof.
  intros Himg Hne. unfold prepare_message, has_images, text_parts.
  rewrite Himg. destruct paths as [|p paths]; [done|]. cbn [negb default
    from_option id].
  destruct (str_eqb (content msg) []); cbn [negb]; done.
Qed.

Lemma prepare_all_plain (messages : list ChatMessage) :
  existsb has_images messages = false ->
  map (prepare_message readFileSync) messages = map Unchanged messages.
Proof.
  induction messages as [|m ms IH]; [done|]. cbn [existsb map].
  intros H. apply orb_false_iff in H as [Hm Hms].
  by rewrite prepare_message_plain, IH.
Qed.

Lemma prepareMessagesForApi_map (messages : list ChatMessage) :
  prepareMessagesForApi readFileSync messages =
  map (prepare_message readFileSync) messages.
Proof.
  unfold prepareMessagesForApi.
  destruct (existsb has_images messages) eqn:E; [done|].
  cbn [negb]. by rewrite prepare_all_plain.
Qed.

(** C8. A batch without images is sent as it is. In every batch a
    message without images stays the message object it was, and a
    message with images becomes its role with a list of parts: a text
    part when it has text, then one part per image reference in
    order. The part of an image is its bytes, base64-encoded in a
    data URL, when the file can be read, and the visible placeholder
    text when reading fails. The batch keeps its length, and the
    streaming call sends it whatever the reads did. *)
Theorem multimodal_encoding (messages : list ChatMessage) :
  (existsb has_images messages = false ->
   prepareMessagesForApi readFileSync messages = map Unchanged messages)
  /\ (forall i msg,
         messages !! i = Some msg -> has_images msg = false ->
         prepareMessagesForApi readFileSync messages !! i
         = Some (Unchanged msg))
  /\ (forall i msg paths,
         messages !! i = Some msg ->
         images msg = Some paths -> paths <> [] ->
         prepareMessagesForApi readFileSync messages !! i
         = Some (Rebuilt (role msg)
                   (Parts (text_parts msg
                           ++ map (image_part readFileSync) paths))))
  /\ (forall path bytes,
         readFileSync path = Some bytes ->
         image_part readFileSync path
         = ImageUrlPart (js "data:image/png;base64," ++ base64 bytes))
  /\ (forall path,
         readFileSync path = None ->
         image_part readFileSync path
         = TextPart (js "[Image failed to load]"))
  /\ length (prepareMessagesForApi readFileSync messages) = length messages
  /\ (forall config request w,
         cell w (Types.messages request) = messages ->
         exists body,
           log (snd (sendChatStream readFileSync fetch config request w))
           = log w ++ [Fetched (chat_url config) body]
           /\ body_messages body
              = prepareMessagesForApi readFileSync messages).
Proof.
  repeat split.
  - intros H. unfold prepareMessagesForApi. by rewrite H.
  - intros i msg Hi Hm. rewrite prepareMessagesForApi_map, list_lookup_fmap,
      Hi. cbn. by rewrite prepare_message_plain.
  - intros i msg paths Hi Himg Hne.
    rewrite prepareMessagesForApi_map, list_lookup_fmap, Hi. cbn.
    by rewrite (prepare_message_images _ _ Himg Hne).
  - intros path bytes H. unfold image_part. by rewrite H.
  - intros path H. unfold image_part. by rewrite H.
  - by rewrite prepareMessagesForApi_map, length_map.
  - intros config request w Hcell. eexists.
    rewrite sendChatStream_run. cbn [snd after log]. split; [done|].
    cbn [request_body body_messages]. by rewrite Hcell.
Qed.

End Multimodal.

Lemma multimodal_encoding_witness :
  let batch := [Examples.question; Examples.picture] in
  prepareMessagesForApi Examples.files [Examples.question]
  = [Unchanged Examples.question]
  /\ prepareMessagesForApi Examples.files batch !! 0%nat
     = Some (Unchanged Examples.question)
  /\ prepareMessagesForApi Examples.files batch !! 1%nat
     = Some (Rebuilt user
               (Parts [TextPart (js "What is this?");
                       ImageUrlPart (js "data:image/png;base64,TWFu");
                       TextPart (js "[Image failed to load]")])).
Proof.
  intros batch.
  destruct (multimodal_encoding Examples.files Examples.completing batch)
    as (_ & Hplain & Himg & _).
  destruct (multimodal_encoding Examples.files Examples.completing
              [Examples.question]) as (Hnone & _).
  split; [apply Hnone; reflexivity|].
  split; [apply Hplain; reflexivity|].
  apply (Himg 1%nat Examples.picture
           [js "/tmp/a.png"; js "/tmp/missing.png"]);
    [reflexivity | reflexivity | discriminate].
Defined.

(* ===================================================================== *)
(** ** The tool orchestrator *)
(* ===================================================================== *)

Lemma world_eta (w : World.t) : World.mk (heap w) (log w ++ []) = w.
Proof. destruct w. cbn. by rewrite app_nil_r. Qed.

Lemma grows_refl (m t : ref) (w : World.t) : grows m t w w [] [].
Proof. unfold grows. by rewrite !app_nil_r. Qed.

Lemma grows_trans (m t : ref) (w1 w2 w3 : World.t)
    (a1 a2 : list ChatMessage) (e1 e2 : list Event) :
  grows m t w1 w2 a1 e1 -> grows m t w2 w3 a2 e2 ->
  grows m t w1 w3 (a1 ++ a2) (e1 ++ e2).
Proof.
  intros (Hm1 & Ht1 & Hf1 & Hl1) (Hm2 & Ht2 & Hf2 & Hl2). unfold grows.
  rewrite Hm2, Hm1, Ht2, Ht1, Hl2, Hl1, !app_assoc.
  repeat split; try done. intros r Hrm Hrt. by rewrite Hf2, Hf1.
Qed.

Lemma grows_events (m t : ref) (w : World.t) (extra : list Event) :
  grows m t w (World.mk (heap w) (log w ++ extra)) [] extra.
Proof. unfold grows, cell. cbn. by rewrite !app_nil_r. Qed.

Lemma grows_push (m t : ref) (w : World.t) (x : ChatMessage) :
  m <> t ->
  grows m t w (snd (push t x (snd (push m x w)))) [x] [].
Proof.
  intros Hmt. unfold grows, cell, push. cbn.
  rewrite lookup_insert_ne by done. rewrite lookup_insert_eq.
  rewrite lookup_insert_eq. rewrite lookup_insert_ne by done.
  rewrite app_nil_r. repeat split; try done.
  intros r Hrm Hrt. by rewrite !lookup_insert_ne.
Qed.

Section Orchestrator.

Variable readFileSync : jsstring -> option (list Z).
Variable fetch : list Event -> FetchResult.
Variable searchApiKey : option jsstring.
Variable braveFetch : list Event -> BraveResult.

#[local] Abbreviation webSearch' := (webSearch searchApiKey braveFetch).
#[local] Abbreviation executeTool' := (executeTool searchApiKey braveFetch).
#[local] Abbreviation tool_step' := (tool_step searchApiKey braveFetch).
#[local] Abbreviation decision_loop' :=
  (decision_loop readFileSync fetch searchApiKey braveFetch).
#[local] Abbreviation runWithTools' :=
  (runWithTools readFileSync fetch searchApiKey braveFetch).

(** A search changes no array and adds at most its own query to the
    events. *)
Lemma webSearch_run (query : json) (w : World.t) :
  exists res extra,
    webSearch' query w = (res, World.mk (heap w) (log w ++ extra))
    /\ Forall quiet extra.
Proof.
  unfold webSearch.
  destruct (negb _).
  { exists (Throw (new_Error (js "No Brave Search API key configured"))), [].
    unfold throw. by rewrite world_eta. }
  destruct (encodeURIComponent_throws query) as [e|].
  { exists (Throw e), []. unfold throw. by rewrite world_eta. }
  cbv [bind emit history ret throw heap log].
  assert (Forall quiet [Searched query]) as Hs by (by repeat constructor).
  destruct (braveFetch _) as [e|res]; [by eauto|].
  destruct (_ || _); [by eauto|].
  destruct (_ =? 429); [by eauto|].
  destruct (negb _); [by eauto|].
  destruct (brave_json res); by eauto.
Qed.

(** A call of [web_search] with arguments [null] makes [executeTool]
    throw. *)
Lemma executeTool_null (tc : ToolCall) (w : World.t) :
  null_arguments tc = true ->
  executeTool' tc w = (Throw (null_read "query"), after w (Executed tc)).
Proof.
  unfold null_arguments, executeTool. intros H.
  apply andb_true_iff in H as [Hname Hargs].
  cbv [bind emit heap log after]. rewrite Hname.
  by destruct (JSON_parse _) as [[]|].
Qed.

(** Every other call makes it return a text; it changes no array and
    adds its own entry and at most a query to the events. *)
Lemma executeTool_returns (tc : ToolCall) (w : World.t) :
  null_arguments tc = false ->
  exists result extra,
    executeTool' tc w
    = (Ok result, World.mk (heap w) (log w ++ Executed tc :: extra))
    /\ Forall quiet extra.
Proof.
  unfold null_arguments, executeTool. intros H.
  cbv [bind emit]. cbn [heap log].
  assert (forall (A : Type) (a : A) (l : list A) x,
             (l ++ [a]) ++ x = l ++ a :: x) as Hcons.
  { intros. by rewrite <- app_assoc. }
  assert (forall text,
             exists result extra,
               (Ok text : Result jsstring,
                World.mk (heap w) (log w ++ [Executed tc]))
               = (Ok result,
                  World.mk (heap w) (log w ++ Executed tc :: extra))
               /\ Forall quiet extra)
    as Hret.
  { intros text. exists text, []. split; [done|constructor]. }
  destruct (JSON_parse _) as [args|]; [|apply Hret].
  destruct (str_eqb _ (js "web_search")); [|apply Hret].
  cbn [andb] in H.
  destruct args; try discriminate H;
    (destruct (get (js "query") _) as [q|] eqn:Eq; [|apply Hret]);
    (destruct (truthy (Some q)); [|apply Hret]);
    unfold try_catch; cbv [bind ret];
    destruct (webSearch_run q
                (World.mk (heap w) (log w ++ [Executed tc])))
      as (res & extra & -> & Hextra);
    cbn [heap log]; rewrite Hcons;
    destruct res as [results|err]; eauto.
Qed.

Lemma tool_step_null (m t : ref) (tc : ToolCall) (w : World.t) :
  null_arguments tc = true ->
  tool_step' m t tc w = (Throw (null_read "query"), after w (Executed tc)).
Proof.
  intros H. unfold tool_step, bind. by rewrite (executeTool_null _ _ H).
Qed.

Lemma tool_step_returns (m t : ref) (tc : ToolCall) (w : World.t) :
  m <> t ->
  null_arguments tc = false ->
  exists result extra w',
    tool_step' m t tc w = (Ok tt, w')
    /\ grows m t w w' [tool_message tc result] (Executed tc :: extra)
    /\ Forall quiet extra.
Proof.
  intros Hmt H.
  destruct (executeTool_returns tc w H) as (result & extra & Hrun & Hq).
  exists result, extra. eexists. unfold tool_step, bind. rewrite Hrun.
  split; [reflexivity|]. split; [|done].
  pose proof (grows_trans m t w _ _ [] [tool_message tc result]
                (Executed tc :: extra) []
                (grows_events m t w (Executed tc :: extra))
                (grows_push m t _ (tool_message tc result) Hmt)) as Hg.
  rewrite app_nil_r in Hg. exact Hg.
Qed.

(** A round of tool calls adds the same messages to both lists, leaves
    every other array alone and makes no request to the model. *)
Lemma tool_round (m t : ref) (calls : list ToolCall) (w : World.t) :
  m <> t ->
  exists res w' acc extra,
    for_of calls (tool_step' m t) w = (res, w')
    /\ grows m t w w' acc extra
    /\ Forall (fun ev => is_fetch ev = false) extra.
Proof.
  intros Hmt. revert w. induction calls as [|tc calls IH]; intros w.
  - exists (Ok tt), w, [], []. split; [done|]. split; [apply grows_refl|done].
  - cbn [for_of]. unfold bind at 1.
    destruct (null_arguments tc) eqn:Hnull.
    + rewrite (tool_step_null _ _ _ _ Hnull).
      exists (Throw (null_read "query")), (after w (Executed tc)), [],
        [Executed tc].
      split; [done|]. split; [apply grows_events|by repeat constructor].
    + destruct (tool_step_returns m t tc w Hmt Hnull)
        as (result & extra & w1 & -> & Hg1 & Hq).
      destruct (IH w1) as (res & w2 & acc & extra2 & -> & Hg2 & Hf).
      exists res, w2, ([tool_message tc result] ++ acc),
        ((Executed tc :: extra) ++ extra2).
      split; [done|]. split; [by eapply grows_trans|].
      apply Forall_app. split; [|done]. constructor; [done|].
      eapply Forall_impl; [exact Hq|]. by intros ev [? ?].
Qed.

(** When no call is a [web_search] with arguments [null], the round
    completes with one tool message per call, in the order of the
    calls and tagged with their ids, and the calls are executed in
    that order. *)
Lemma tool_round_returns (m t : ref) (calls : list ToolCall) (w : World.t) :
  m <> t ->
  forallb (fun tc => negb (null_arguments tc)) calls = true ->
  exists results w' extra,
    for_of calls (tool_step' m t) w = (Ok tt, w')
    /\ length results = length calls
    /\ grows m t w w' (zip_with tool_message calls results) extra
    /\ Forall (fun ev => is_fetch ev = false) extra
    /\ List.filter is_execution extra = map Executed calls.
Proof.
  intros Hmt. revert w. induction calls as [|tc calls IH]; intros w Hsafe.
  - exists [], w, []. split; [done|]. split; [done|].
    split; [apply grows_refl|]. by split.
  - cbn [forallb] in Hsafe. apply andb_true_iff in Hsafe as [Htc Hsafe].
    apply negb_true_iff in Htc.
    cbn [for_of]. unfold bind at 1.
    destruct (tool_step_returns m t tc w Hmt Htc)
      as (result & extra & w1 & -> & Hg1 & Hq).
    destruct (IH w1 Hsafe) as (results & w2 & extra2 & -> & Hlen & Hg2
                               & Hf & Hex).
    exists (result :: results), w2, ((Executed tc :: extra) ++ extra2).
    split; [done|]. split; [cbn; by rewrite Hlen|].
    split; [exact (grows_trans _ _ _ _ _ _ _ _ _ Hg1 Hg2)|].
    split.
    + apply Forall_app. split; [|done]. constructor; [done|].
      eapply Forall_impl; [exact Hq|]. by intros ev [? ?].
    + rewrite List.filter_app. cbn [List.filter is_execution map].
      rewrite Hex. f_equal.
      clear -Hq. induction Hq as [|ev extra [_ Hev] _ IH]; [done|].
      cbn [List.filter]. by rewrite Hev.
Qed.

(** One iteration of the loop over rounds. *)
Lemma decision_loop_step (n : nat) (config : ProviderConfig)
    (request : ChatRequest) (tls : list Tool) (m t : ref) (w : World.t) :
  decision_loop' (S n) config request tls m t w =
  match sendChatWithTools readFileSync fetch config
          (with_messages request m) tls w with
  | (Throw e, w1) => (Throw e, w1)
  | (Ok response, w1) =>
      match choices response with
      | [] => (Throw (new_Error (js "No response from model")), w1)
      | choice :: _ =>
          match wants_tools choice with
          | None => (Ok tt, w1)
          | Some calls =>
              let a := assistant_message choice in
              match for_of calls (tool_step' m t)
                      (snd (push t a (snd (push m a w1)))) with
              | (Throw e, w2) => (Throw e, w2)
              | (Ok _, w2) => decision_loop' n config request tls m t w2
              end
          end
      end
  end.
Proof.
  cbn [decision_loop]. unfold bind at 1. unfold with_messages.
  destruct (sendChatWithTools _ _ _ _ _ _) as [[response|e] w1]; [|done].
  destruct (choices response) as [|choice ?]; [done|].
  destruct (wants_tools choice) as [calls|]; [|done].
  reflexivity.
Qed.

(** The loop over rounds adds the same messages to both lists, leaves
    every other array alone, makes at most as many decision calls as
    it has rounds and no streaming call. *)
Lemma decision_loop_grows (n : nat) (config : ProviderConfig)
    (request : ChatRequest) (tls : list Tool) (m t : ref) (w : World.t) :
  m <> t ->
  exists res w' acc extra,
    decision_loop' n config request tls m t w = (res, w')
    /\ grows m t w w' acc extra
    /\ (length (List.filter is_decision_call extra) <= n)%nat
    /\ Forall (fun ev => is_stream_call ev = false) extra.
Proof.
  intros Hmt. revert w. induction n as [|n IH]; intros w.
  { exists (Ok tt), w, [], []. split; [done|]. split; [apply grows_refl|].
    by split. }
  rewrite decision_loop_step, sendChatWithTools_run.
  set (ev := Fetched _ _). set (w1 := after w ev).
  assert (grows m t w w1 [] [ev]) as Hg1 by apply grows_events.
  assert ((length (List.filter is_decision_call [ev]) <= S n)%nat
          /\ Forall (fun ev => is_stream_call ev = false) [ev]) as [Hc1 Hs1].
  { split; [cbn; lia|by repeat constructor]. }
  assert (forall res : Result unit, exists res' w' acc extra,
             (res, w1) = (res', w')
             /\ grows m t w w' acc extra
             /\ (length (List.filter is_decision_call extra) <= S n)%nat
             /\ Forall (fun ev => is_stream_call ev = false) extra) as Hstop.
  { intros res. by exists res, w1, [], [ev]. }
  destruct (match fetch (log w1) with
            | FetchThrew e => _ | FetchResolved res => _ end)
    as [response|e]; [|apply Hstop].
  destruct (choices response) as [|choice ?]; [apply Hstop|].
  destruct (wants_tools choice) as [calls|]; [|apply Hstop].
  cbv zeta.
  pose proof (grows_push m t w1 (assistant_message choice) Hmt) as Hg2.
  set (w2 := snd (push t _ (snd (push m _ w1)))) in *.
  destruct (tool_round m t calls w2 Hmt)
    as (res & w3 & acc3 & extra3 & -> & Hg3 & Hf3).
  pose proof (grows_trans _ _ _ _ _ _ _ _ _
                (grows_trans _ _ _ _ _ _ _ _ _ Hg1 Hg2) Hg3) as Hg.
  assert (List.filter is_decision_call extra3 = []
          /\ Forall (fun ev => is_stream_call ev = false) extra3)
    as [Hd3 Hs3].
  { clear -Hf3. induction Hf3 as [|ev extra Hev _ [IH1 IH2]]; [done|].
    destruct ev; try discriminate Hev; cbn; by split; [|constructor]. }
  change (([ev] ++ []) ++ extra3) with (ev :: extra3) in Hg.
  assert (forall extra4,
             (length (List.filter is_decision_call extra4) <= n)%nat ->
             Forall (fun ev => is_stream_call ev = false) extra4 ->
             (length (List.filter is_decision_call
                        ((ev :: extra3) ++ extra4)) <= S n)%nat
             /\ Forall (fun ev => is_stream_call ev = false)
                  ((ev :: extra3) ++ extra4)) as Hcount.
  { intros extra4 Hc4 Hs4. split.
    - rewrite List.filter_app, length_app.
      change (List.filter is_decision_call (ev :: extra3))
        with (ev :: List.filter is_decision_call extra3).
      rewrite Hd3. cbn [length]. lia.
    - apply Forall_app. split; [|done]. by constructor. }
  destruct res as [[]|e].
  - destruct (IH w3) as (res4 & w4 & acc4 & extra4 & -> & Hg4 & Hc4 & Hs4).
    do 4 eexists. split; [reflexivity|].
    split; [exact (grows_trans _ _ _ _ _ _ _ _ _ Hg Hg4)|].
    by apply Hcount.
  - exists (Throw e), w3, (([] ++ [assistant_message choice]) ++ acc3),
      ((ev :: extra3) ++ []).
    split; [reflexivity|]. split; [by rewrite app_nil_r|].
    apply Hcount; [cbn; lia|constructor].
Qed.

End Orchestrator.

Lemma copy_ref_fresh (w : World.t) : heap w !! copy_ref w = None.
Proof. apply not_elem_of_dom. exact (is_fresh (dom (heap w))). Qed.

Lemma tool_ref_fresh (w : World.t) (request : ChatRequest) :
  tool_ref w request <> copy_ref w /\ heap w !! tool_ref w request = None.
Proof.
  pose proof (is_fresh (dom (<[copy_ref w := cell w (messages request)]>
                               (heap w)))) as H.
  fold (tool_ref w request) in H. rewrite dom_insert_L in H.
  split.
  - intros E. apply H. rewrite E. set_solver.
  - apply not_elem_of_dom. set_solver.
Qed.

Lemma started_cells (w : World.t) (request : ChatRequest) :
  cell (started w request) (copy_ref w) = cell w (messages request)
  /\ cell (started w request) (tool_ref w request) = []
  /\ (forall r, is_Some (heap w !! r) ->
        heap (started w request) !! r = heap w !! r)
  /\ log (started w request) = log w.
Proof.
  destruct (tool_ref_fresh w request) as [Hne Ht].
  pose proof (copy_ref_fresh w) as Hm.
  unfold started, cell. cbn [heap log]. repeat split.
  - rewrite lookup_insert_ne by done. by rewrite lookup_insert_eq.
  - by rewrite lookup_insert_eq.
  - intros r [x Hr]. rewrite !lookup_insert_ne; [done|congruence..].
Qed.

Section Turn.

Variable readFileSync : jsstring -> option (list Z).
Variable fetch : list Event -> FetchResult.
Variable searchApiKey : option jsstring.
Variable braveFetch : list Event -> BraveResult.

#[local] Abbreviation decision_loop' :=
  (decision_loop readFileSync fetch searchApiKey braveFetch).
#[local] Abbreviation finish' :=
  (finish readFileSync fetch searchApiKey braveFetch).
#[local] Abbreviation runWithTools' :=
  (runWithTools readFileSync fetch searchApiKey braveFetch).

(** [runWithTools] copies the messages, makes its list of tool
    messages, runs the rounds and finalizes. *)
Lemma runWithTools_finish (config : ProviderConfig) (request : ChatRequest)
    (tls : list Tool) (w : World.t) :
  runWithTools' config request tls w =
  match finish' maxRounds config request tls (copy_ref w)
          (tool_ref w request) (started w request) with
  | (Ok s, w') => (Ok (s, tool_ref w request), w')
  | (Throw e, w') => (Throw e, w')
  end.
Proof.
  unfold runWithTools, finish, with_messages.
  cbv [bind read alloc ret].
  fold (copy_ref w). fold (cell w (messages request)).
  fold (tool_ref w request). fold (started w request).
  destruct (decision_loop _ _ _ _ _ _ _ _ _ _ _) as [[[]|e] w1]; [|done].
  by destruct (sendChatStream _ _ _ _ _) as [[s|e] w2].
Qed.

(** The finalization call after the rounds. *)
Lemma finish_run (n : nat) (config : ProviderConfig)
    (request : ChatRequest) (tls : list Tool) (m t : ref) (w : World.t) :
  finish' n config request tls m t w =
  match decision_loop' n config request tls m t w with
  | (Ok _, w1) =>
      sendChatStream readFileSync fetch config (with_messages request m) w1
  | (Throw e, w1) => (Throw e, w1)
  end.
Proof.
  unfold finish, bind.
  by destruct (decision_loop _ _ _ _ _ _ _ _ _ _ _) as [[[]|e] w1].
Qed.

(** The part of C2 that holds. Whatever the servers answer, the
    rounds of a turn make at most 3 decision calls and no streaming
    call. When the loop over rounds throws, so does the turn, with no
    further event. When it exits, the turn makes exactly one more
    request: the streaming call, whose messages are the caller's
    messages followed by the messages the rounds appended, and whose
    [tools] field is that of the caller's request object. *)
Lemma bounded_rounds_then_finalization (config : ProviderConfig)
    (request : ChatRequest) (tls : list Tool) (w : World.t) :
  exists res w1 acc extra,
    decision_loop' maxRounds config request tls (copy_ref w)
      (tool_ref w request) (started w request) = (res, w1)
    /\ log w1 = log w ++ extra
    /\ (length (List.filter is_decision_call extra) <= 3)%nat
    /\ Forall (fun ev => is_stream_call ev = false) extra
    /\ cell w1 (copy_ref w) = cell w (messages request) ++ acc
    /\ match res with
       | Ok _ =>
           exists outcome,
             runWithTools' config request tls w =
             (outcome,
              after w1
                (Fetched (chat_url config)
                   {| body_model := model request;
                      body_messages :=
                        prepareMessagesForApi readFileSync
                          (cell w (messages request) ++ acc);
                      body_temperature := temperature request;
                      body_max_tokens := max_tokens request;
                      body_stream := true;
                      body_tools := tools request |}))
       | Throw e => runWithTools' config request tls w = (Throw e, w1)
       end.
Proof.
  destruct (tool_ref_fresh w request) as [Hne _].
  destruct (started_cells w request) as (Hm & _ & _ & Hlog).
  destruct (decision_loop_grows readFileSync fetch searchApiKey braveFetch
              maxRounds config request tls (copy_ref w)
              (tool_ref w request) (started w request) (not_eq_sym Hne))
    as (res & w1 & acc & extra & Hrun & (Hgm & _ & _ & Hgl) & Hc & Hs).
  exists res, w1, acc, extra. rewrite Hm in Hgm. rewrite Hlog in Hgl.
  repeat (split; [done|]).
  rewrite runWithTools_finish, finish_run, Hrun.
  destruct res as [[]|e]; [|done].
  rewrite sendChatStream_run. cbv zeta.
  unfold request_body, with_messages. cbn [model messages temperature
    max_tokens tools]. rewrite Hgm.
  destruct (match fetch _ with FetchThrew _ => _ | _ => _ end); eauto.
Qed.

(** C9, as the code has it. The orchestrator works on a copy of the
    caller's list: a turn leaves every array that existed before it,
    the caller's list among them, as it was. The messages it
    synthesizes go to two arrays of its own, the copy that it sends
    and the list of tool messages that it returns. *)
Theorem caller_list_untouched (config : ProviderConfig)
    (request : ChatRequest) (tls : list Tool) (w : World.t) :
  let run := runWithTools' config request tls w in
  (forall r, is_Some (heap w !! r) -> heap (snd run) !! r = heap w !! r)
  /\ heap w !! copy_ref w = None
  /\ heap w !! tool_ref w request = None
  /\ (exists acc,
         cell (snd run) (copy_ref w) = cell w (messages request) ++ acc
         /\ cell (snd run) (tool_ref w request) = acc)
  /\ (forall s t, fst run = Ok (s, t) -> t = tool_ref w request).
Proof.
  cbv zeta.
  destruct (tool_ref_fresh w request) as [Hne Ht].
  pose proof (copy_ref_fresh w) as Hc.
  destruct (started_cells w request) as (Hm & Htl & Hold & Hlog).
  destruct (decision_loop_grows readFileSync fetch searchApiKey braveFetch
              maxRounds config request tls (copy_ref w)
              (tool_ref w request) (started w request) (not_eq_sym Hne))
    as (res & w1 & acc & extra & Hrun & (Hgm & Hgt & Hgf & Hgl) & _ & _).
  rewrite Hm in Hgm. rewrite Htl in Hgt. cbn [app] in Hgt.
  assert (exists outcome w',
             runWithTools' config request tls w = (outcome, w')
             /\ heap w' = heap w1
             /\ (forall s t, outcome = Ok (s, t) -> t = tool_ref w request))
    as (outcome & w' & -> & Hheap & Hret).
  { rewrite runWithTools_finish, finish_run, Hrun.
    destruct res as [[]|e];
      [|exists (Throw e), w1; by repeat split].
    rewrite sendChatStream_run. cbv zeta.
    destruct (match fetch _ with FetchThrew _ => _ | _ => _ end) as [s|e];
      do 2 eexists; (split; [reflexivity|]); split; try done.
    intros s' t' [= _ <-]. done. }
  cbn [fst snd]. unfold cell in *. rewrite Hheap.
  split; [|by eauto 10].
  intros r Hr. rewrite Hgf; [by apply Hold|..];
    intros ->; destruct Hr as [x Hr]; congruence.
Qed.

(** A round whose response does not ask for tools ends the loop:
    nothing is appended, nothing is executed, and the request that
    follows is the streaming call. *)
Lemma round_without_tools (n : nat) (config : ProviderConfig)
    (request : ChatRequest) (tls : list Tool) (m t : ref) (w : World.t)
    (res : Response) (response : ChatResponse) (choice : Choice)
    (others : list Choice) :
  let decision :=
    decision_event readFileSync config request tls (cell w m) in
  let finalization := stream_event readFileSync config request (cell w m) in
  fetch (log w ++ [decision]) = FetchResolved res ->
  ok res = true ->
  json_result res = inr response ->
  choices response = choice :: others ->
  wants_tools choice = None ->
  decision_loop' (S n) config request tls m t w = (Ok tt, after w decision)
  /\ heap (snd (finish' (S n) config request tls m t w)) = heap w
  /\ log (snd (finish' (S n) config request tls m t w))
     = log w ++ [decision; finalization].
Proof.
  intros decision finalization Hfetch Hok Hjson Hchoices Hwants.
  assert (decision_loop' (S n) config request tls m t w
          = (Ok tt, after w decision)) as Hloop.
  { rewrite decision_loop_step, sendChatWithTools_run. cbv zeta.
    change (Fetched _ _) with decision. cbn [after log].
    rewrite Hfetch, Hok, Hjson. cbn [negb].
    by rewrite Hchoices, Hwants. }
  split; [done|].
  rewrite finish_run, Hloop, sendChatStream_run. cbv zeta.
  cbn [snd after heap log]. split; [done|].
  change (Fetched _ _) with finalization.
  by rewrite <- app_assoc.
Qed.


(** The part of C6 that holds: a round whose response asks for tool
    calls, none of them a [web_search] with arguments [null], appends
    the assistant message and then one tool message per call, in the
    order of the calls and tagged with their ids; the calls are
    executed in that order, and the loop goes on to its next round. *)
Lemma round_with_tools (n : nat) (config : ProviderConfig)
    (request : ChatRequest) (tls : list Tool) (m t : ref) (w : World.t)
    (res : Response) (response : ChatResponse) (choice : Choice)
    (others : list Choice) (calls : list ToolCall) :
  let decision :=
    decision_event readFileSync config request tls (cell w m) in
  m <> t ->
  fetch (log w ++ [decision]) = FetchResolved res ->
  ok res = true ->
  json_result res = inr response ->
  choices response = choice :: others ->
  wants_tools choice = Some calls ->
  forallb (fun tc => negb (null_arguments tc)) calls = true ->
  exists results w2 extra,
    decision_loop' (S n) config request tls m t w
    = decision_loop' n config request tls m t w2
    /\ length results = length calls
    /\ grows m t w w2
         (assistant_message choice :: zip_with tool_message calls results)
         (decision :: extra)
    /\ Forall (fun ev => is_fetch ev = false) extra
    /\ List.filter is_execution extra = map Executed calls.
Proof.
  intros decision Hmt Hfetch Hok Hjson Hchoices Hwants Hsafe.
  rewrite decision_loop_step, sendChatWithTools_run. cbv zeta.
  change (Fetched _ _) with decision. cbn [after log].
  rewrite Hfetch, Hok, Hjson. cbn [negb]. rewrite Hchoices, Hwants.
  pose proof (grows_events m t w [decision]) as Hg1.
  pose proof (grows_push m t (after w decision) (assistant_message choice)
                Hmt) as Hg2.
  set (w1 := snd (push t _ (snd (push m _ (after w decision))))) in *.
  destruct (tool_round_returns searchApiKey braveFetch m t calls w1 Hmt
              Hsafe) as (results & w2 & extra & -> & Hlen & Hg3 & Hf & Hex).
  exists results, w2, extra. repeat (split; [done|]).
  split; [|done].
  exact (grows_trans _ _ _ _ _ _ _ _ _
           (grows_trans _ _ _ _ _ _ _ _ _ Hg1 Hg2) Hg3).
Qed.

End Turn.

Lemma requests_app (a b : list Event) :
  requests (a ++ b) = (requests a + requests b)%nat.
Proof. unfold requests. by rewrite List.filter_app, length_app. Qed.

Lemma filter_no_fetch (l : list Event) :
  Forall (fun ev => is_fetch ev = false) l -> List.filter is_fetch l = [].
Proof.
  induction 1 as [|ev l Hev _ IH]; [done|]. cbn [List.filter].
  by rewrite Hev.
Qed.

Section Script.

Variable readFileSync : jsstring -> option (list Z).
Variable searchApiKey : option jsstring.
Variable braveFetch : list Event -> BraveResult.

(** The part of C3 that holds. With a script that asks for tools in
    rounds 1 and 2 and completes normally in round 3, and no call of
    [web_search] with arguments [null], a turn makes exactly four
    requests: three decision calls and then the streaming call, whose
    messages are the caller's messages, the assistant message and the
    tool messages of round 1, and those of round 2, in that order. *)
Lemma three_round_script (config : ProviderConfig) (request : ChatRequest)
    (tls : list Tool) (w : World.t) (final : FetchResult)
    (r1 r2 r3 : ChatResponse) (c1 c2 c3 : Choice)
    (o1 o2 o3 : list Choice) (calls1 calls2 : list ToolCall) :
  requests (log w) = 0%nat ->
  choices r1 = c1 :: o1 -> wants_tools c1 = Some calls1 ->
  forallb (fun tc => negb (null_arguments tc)) calls1 = true ->
  choices r2 = c2 :: o2 -> wants_tools c2 = Some calls2 ->
  forallb (fun tc => negb (null_arguments tc)) calls2 = true ->
  choices r3 = c3 :: o3 -> wants_tools c3 = None ->
  exists results1 results2 extra,
    let original := cell w (messages request) in
    let round1 :=
      assistant_message c1 :: zip_with tool_message calls1 results1 in
    let round2 :=
      assistant_message c2 :: zip_with tool_message calls2 results2 in
    length results1 = length calls1
    /\ length results2 = length calls2
    /\ log (snd (runWithTools readFileSync (scripted [r1; r2; r3] final)
                   searchApiKey braveFetch config request tls w))
       = log w ++ extra
    /\ List.filter is_fetch extra
       = [ decision_event readFileSync config request tls original;
           decision_event readFileSync config request tls
             (original ++ round1);
           decision_event readFileSync config request tls
             (original ++ round1 ++ round2);
           stream_event readFileSync config request
             (original ++ round1 ++ round2) ].
Proof.
  intros Hlog Hc1 Hw1 Hs1 Hc2 Hw2 Hs2 Hc3 Hw3.
  set (fetch := scripted [r1; r2; r3] final).
  set (m := copy_ref w). set (t := tool_ref w request).
  destruct (tool_ref_fresh w request) as [Hne _].
  assert (m <> t) as Hmt by (by apply not_eq_sym).
  destruct (started_cells w request) as (Hm0 & _ & _ & Hl0).
  fold m in Hm0.
  (* round 1 *)
  destruct (round_with_tools readFileSync fetch searchApiKey braveFetch
              2 config request tls m t (started w request)
              {| status := 200; statusText := js "OK"; body := None;
                 json_result := inr r1 |} r1 c1 o1 calls1 Hmt)
    as (results1 & w1 & extra1 & Hrun1 & Hlen1 & (Hgm1 & _ & _ & Hgl1)
        & Hf1 & _); try done.
  { unfold fetch, scripted. rewrite requests_app, Hl0, Hlog. done. }
  rewrite Hm0 in Hgm1. rewrite Hl0 in Hgl1.
  (* round 2 *)
  destruct (round_with_tools readFileSync fetch searchApiKey braveFetch
              1 config request tls m t w1
              {| status := 200; statusText := js "OK"; body := None;
                 json_result := inr r2 |} r2 c2 o2 calls2 Hmt)
    as (results2 & w2 & extra2 & Hrun2 & Hlen2 & (Hgm2 & _ & _ & Hgl2)
        & Hf2 & _); try done.
  { unfold fetch, scripted.
    rewrite Hgl1, !requests_app, Hlog. unfold requests at 1 2.
    cbn [List.filter is_fetch decision_event length].
    by rewrite (filter_no_fetch _ Hf1). }
  rewrite Hgm1 in Hgm2. rewrite Hgl1 in Hgl2.
  rewrite Hm0, Hgm1 in *.
  (* round 3 and the finalization *)
  destruct (round_without_tools readFileSync fetch
              searchApiKey braveFetch 0 config request tls m t w2
              {| status := 200; statusText := js "OK"; body := None;
                 json_result := inr r3 |} r3 c3 o3)
    as (Hrun3 & _ & Hlog3); try done.
  { unfold fetch, scripted.
    rewrite Hgl2, !requests_app, Hlog. unfold requests.
    cbn [List.filter is_fetch decision_event length].
    by rewrite (filter_no_fetch _ Hf1), (filter_no_fetch _ Hf2). }
  exists results1, results2. eexists. cbv zeta.
  split; [done|]. split; [done|].
  rewrite runWithTools_finish. fold m t.
  assert (finish readFileSync fetch searchApiKey braveFetch maxRounds
            config request tls m t (started w request)
          = finish readFileSync fetch searchApiKey braveFetch 1
              config request tls m t w2) as ->.
  { rewrite !finish_run. unfold maxRounds. by rewrite Hrun1, Hrun2. }
  destruct (finish _ _ _ _ _ _ _ _ _ _ _) as [[s|e] w'] eqn:Hfin;
    cbn [snd] in *; rewrite Hlog3, Hgl2, Hgm2.
  all: split; [by rewrite <- !app_assoc|].
  all: rewrite !List.filter_app; cbn [List.filter is_fetch decision_event].
  all: rewrite (filter_no_fetch _ Hf1), (filter_no_fetch _ Hf2).
  all: cbn [app]; unfold decision_event, stream_event, request_body.
  all: by rewrite <- ?app_assoc.
Qed.

(** The part of C2 that holds, when the budget is exhausted. With a
    script that asks for tools in each of the three rounds, and no
    call of [web_search] with arguments [null], the loop exits after
    its third round and the turn makes exactly four requests: three
    decision calls and then the streaming call, whose messages are
    the caller's messages followed by the assistant message and the
    tool messages of the three rounds, in order. What the turn
    returns or throws is what the streaming call does. *)
Lemma exhausted_budget_script (config : ProviderConfig)
    (request : ChatRequest) (tls : list Tool) (w : World.t)
    (final : FetchResult) (r1 r2 r3 : ChatResponse) (c1 c2 c3 : Choice)
    (o1 o2 o3 : list Choice) (calls1 calls2 calls3 : list ToolCall) :
  requests (log w) = 0%nat ->
  choices r1 = c1 :: o1 -> wants_tools c1 = Some calls1 ->
  forallb (fun tc => negb (null_arguments tc)) calls1 = true ->
  choices r2 = c2 :: o2 -> wants_tools c2 = Some calls2 ->
  forallb (fun tc => negb (null_arguments tc)) calls2 = true ->
  choices r3 = c3 :: o3 -> wants_tools c3 = Some calls3 ->
  forallb (fun tc => negb (null_arguments tc)) calls3 = true ->
  exists results1 results2 results3 extra w3,
    let original := cell w (messages request) in
    let round1 :=
      assistant_message c1 :: zip_with tool_message calls1 results1 in
    let round2 :=
      assistant_message c2 :: zip_with tool_message calls2 results2 in
    let round3 :=
      assistant_message c3 :: zip_with tool_message calls3 results3 in
    let all := original ++ round1 ++ round2 ++ round3 in
    length results1 = length calls1
    /\ length results2 = length calls2
    /\ length results3 = length calls3
    /\ log w3 = log w ++ extra
    /\ List.filter is_fetch extra
       = [ decision_event readFileSync config request tls original;
           decision_event readFileSync config request tls
             (original ++ round1);
           decision_event readFileSync config request tls
             (original ++ round1 ++ round2) ]
    /\ runWithTools readFileSync (scripted [r1; r2; r3] final)
         searchApiKey braveFetch config request tls w
       = (match final with
          | FetchThrew e => Throw (translateFetchError e config)
          | FetchResolved res =>
              if negb (ok res) then
                Throw (translateFetchError (status_error res) config)
              else
                match body res with
                | None => Throw (translateFetchError empty_body_error config)
                | Some b => Ok (b, tool_ref w request)
                end
          end,
          after w3 (stream_event readFileSync config request all)).
Proof.
  intros Hlog Hc1 Hw1 Hs1 Hc2 Hw2 Hs2 Hc3 Hw3 Hs3.
  set (fetch := scripted [r1; r2; r3] final).
  set (m := copy_ref w). set (t := tool_ref w request).
  destruct (tool_ref_fresh w request) as [Hne _].
  assert (m <> t) as Hmt by (by apply not_eq_sym).
  destruct (started_cells w request) as (Hm0 & _ & _ & Hl0).
  fold m in Hm0.
  (* round 1 *)
  destruct (round_with_tools readFileSync fetch searchApiKey braveFetch
              2 config request tls m t (started w request)
              {| status := 200; statusText := js "OK"; body := None;
                 json_result := inr r1 |} r1 c1 o1 calls1 Hmt)
    as (results1 & w1 & extra1 & Hrun1 & Hlen1 & (Hgm1 & _ & _ & Hgl1)
        & Hf1 & _); try done.
  { unfold fetch, scripted. rewrite requests_app, Hl0, Hlog. done. }
  rewrite Hm0 in Hgm1. rewrite Hl0 in Hgl1.
  (* round 2 *)
  destruct (round_with_tools readFileSync fetch searchApiKey braveFetch
              1 config request tls m t w1
              {| status := 200; statusText := js "OK"; body := None;
                 json_result := inr r2 |} r2 c2 o2 calls2 Hmt)
    as (results2 & w2 & extra2 & Hrun2 & Hlen2 & (Hgm2 & _ & _ & Hgl2)
        & Hf2 & _); try done.
  { unfold fetch, scripted.
    rewrite Hgl1, !requests_app, Hlog. unfold requests at 1 2.
    cbn [List.filter is_fetch decision_event length].
    by rewrite (filter_no_fetch _ Hf1). }
  rewrite Hgm1 in Hgm2. rewrite Hgl1 in Hgl2.
  (* round 3 *)
  destruct (round_with_tools readFileSync fetch searchApiKey braveFetch
              0 config request tls m t w2
              {| status := 200; statusText := js "OK"; body := None;
                 json_result := inr r3 |} r3 c3 o3 calls3 Hmt)
    as (results3 & w3 & extra3 & Hrun3 & Hlen3 & (Hgm3 & _ & _ & Hgl3)
        & Hf3 & _); try done.
  { unfold fetch, scripted.
    rewrite Hgl2, !requests_app, Hlog. unfold requests.
    cbn [List.filter is_fetch decision_event length].
    by rewrite (filter_no_fetch _ Hf1), (filter_no_fetch _ Hf2). }
  rewrite Hgm2 in Hgm3. rewrite Hgl2 in Hgl3.
  assert (requests (log w3) = 3%nat) as Hreq.
  { rewrite Hgl3, !requests_app, Hlog. unfold requests.
    cbn [List.filter is_fetch decision_event length].
    by rewrite (filter_no_fetch _ Hf1), (filter_no_fetch _ Hf2),
      (filter_no_fetch _ Hf3). }
  exists results1, results2, results3. eexists. exists w3. cbv zeta.
  do 3 (split; [done|]).
  split; [rewrite Hgl3; by rewrite <- !app_assoc|].
  split.
  { rewrite !List.filter_app; cbn [List.filter is_fetch decision_event].
    rewrite (filter_no_fetch _ Hf1), (filter_no_fetch _ Hf2),
      (filter_no_fetch _ Hf3).
    cbn [app]. unfold decision_event, request_body.
    rewrite Hm0, Hgm1, Hgm2. by rewrite <- ?app_assoc. }
  rewrite runWithTools_finish, finish_run. fold m t.
  unfold maxRounds. rewrite Hrun1, Hrun2, Hrun3.
  cbn [decision_loop]. unfold ret.
  rewrite sendChatStream_run. cbv zeta.
  match goal with
  | |- context [fetch (log (after w3 ?ev))] =>
      assert (fetch (log (after w3 ev)) = final) as ->
  end.
  { unfold fetch, scripted, after. cbn [log].
    rewrite requests_app, Hreq. done. }
  assert (cell w3 (messages (with_messages request m))
          = cell w (messages request)
            ++ (assistant_message c1 :: zip_with tool_message calls1 results1)
            ++ (assistant_message c2 :: zip_with tool_message calls2 results2)
            ++ assistant_message c3 :: zip_with tool_message calls3 results3)
    as ->.
  { cbn [with_messages messages]. rewrite Hgm3. by rewrite <- !app_assoc. }
  change (Fetched _ _)
    with (stream_event readFileSync config request
            (cell w (messages request)
             ++ (assistant_message c1
                 :: zip_with tool_message calls1 results1)
             ++ (assistant_message c2
                 :: zip_with tool_message calls2 results2)
             ++ assistant_message c3
                :: zip_with tool_message calls3 results3)).
  destruct final as [e|res]; [done|].
  destruct (negb (ok res)); [done|]. by destruct (body res).
Qed.

End Script.



(** The scenario of C2 for a request object without a [tools] field,
    with the three rounds used up: three decision calls that declare
    the tools, then the streaming call, which declares none and sends
    the caller's message followed by the six messages of the rounds. *)
Example exhausted_budget_scenario :
  let run :=
    runWithTools Examples.files
      (scripted [Examples.asks [Examples.unknown_call];
                 Examples.asks [Examples.search_call];
                 Examples.asks [Examples.unknown_call]]
         (Examples.resolved Examples.completes))
      Examples.no_key Examples.search_down Examples.config
      Examples.request BUILT_IN_TOOLS Examples.world in
  map is_decision_call (List.filter is_fetch (log (snd run)))
  = [true; true; true; false]
  /\ match fst run, last (log (snd run)) with
     | Ok _, Some (Fetched _ finalization) =>
         body_stream finalization = true
         /\ body_tools finalization = None
         /\ length (body_messages finalization) = 7%nat
     | _, _ => False
     end.
Proof. vm_compute. repeat split. Qed.

Lemma caller_list_untouched_witness :
  let run :=
    runWithTools Examples.files
      (scripted [Examples.asks [Examples.unknown_call]]
         (Examples.resolved Examples.completes))
      Examples.no_key Examples.search_down Examples.config Examples.request
      BUILT_IN_TOOLS Examples.world in
  heap (snd run) !! 0%nat = heap Examples.world !! 0%nat.
Proof.
  cbv zeta.
  apply (caller_list_untouched Examples.files
           (scripted [Examples.asks [Examples.unknown_call]]
              (Examples.resolved Examples.completes))
           Examples.no_key Examples.search_down Examples.config
           Examples.request BUILT_IN_TOOLS Examples.world).
  exists [Examples.question]. reflexivity.
Defined.

(** C9 as the specification states it fails: after a turn with one
    round of tools the caller's list holds the original message only,
    while two messages were synthesized and returned. *)
Lemma caller_list_lacks_synthesized :
  let run :=
    runWithTools Examples.files
      (scripted [Examples.asks [Examples.unknown_call]]
         (Examples.resolved Examples.completes))
      Examples.no_key Examples.search_down Examples.config Examples.request
      BUILT_IN_TOOLS Examples.world in
  match fst run with
  | Ok (_, toolMessages) =>
      cell (snd run) (messages Examples.request) = [Examples.question]
      /\ length (cell (snd run) toolMessages) = 2%nat
      /\ cell (snd run) (messages Examples.request)
         <> cell Examples.world (messages Examples.request)
            ++ cell (snd run) toolMessages
  | Throw _ => False
  end.
Proof. vm_compute. repeat split. discriminate. Qed.

(** C6 fails on the code. A call of [web_search] whose arguments are
    the JSON text [null] makes [executeTool] throw a [TypeError]. The
    round is aborted: the turn throws after its first decision call,
    with the assistant message appended and no tool-result message for
    the record. *)
Theorem null_arguments_abort_the_round :
  fst (executeTool Examples.no_key Examples.search_down Examples.null_call
         Examples.world)
  = Throw (null_read "query")
  /\ let run :=
       runWithTools Examples.files
         (scripted [Examples.asks [Examples.null_call]]
            (Examples.resolved Examples.completes))
         Examples.no_key Examples.search_down Examples.config
         Examples.request BUILT_IN_TOOLS Examples.world in
     fst run = Throw (null_read "query")
     /\ requests (log (snd run)) = 1%nat
     /\ map role (cell (snd run) (tool_ref Examples.world Examples.request))
        = [assistant].
Proof. vm_compute. repeat split. Qed.

(** C3 fails on the code. With a script that asks for tools in rounds
    1 and 2 and completes in round 3, where the call of round 1 is a
    [web_search] with arguments [null], the turn throws in round 1: it
    makes one decision call and no finalization call. *)
Theorem three_round_script_aborted :
  let run :=
    runWithTools Examples.files
      (scripted [Examples.asks [Examples.null_call];
                 Examples.asks [Examples.unknown_call];
                 Examples.completes]
         (Examples.resolved Examples.completes))
      Examples.no_key Examples.search_down Examples.config
      Examples.request BUILT_IN_TOOLS Examples.world in
  fst run = Throw (null_read "query")
  /\ length (List.filter is_decision_call (log (snd run))) = 1%nat
  /\ length (List.filter is_stream_call (log (snd run))) = 0%nat.
Proof. vm_compute. repeat split. Qed.

(** The scenario of C3 on a script whose calls return: an unknown tool
    with malformed arguments in round 1, a search in round 2 (it fails,
    no key is configured), a normal completion in round 3. The turn
    makes three decision calls and one streaming call, and the
    streaming call sends the caller's message, then the assistant and
    tool messages of round 1, then those of round 2. *)
Example three_round_scenario :
  let run :=
    runWithTools Examples.files
      (scripted [Examples.asks [Examples.unknown_call];
                 Examples.asks [Examples.search_call];
                 Examples.completes]
         (Examples.resolved Examples.completes))
      Examples.no_key Examples.search_down Examples.config
      Examples.request BUILT_IN_TOOLS Examples.world in
  map is_decision_call (List.filter is_fetch (log (snd run)))
  = [true; true; true; false]
  /\ match last (log (snd run)) with
     | Some (Fetched _ body) =>
         body_messages body
         = map Unchanged
             [ Examples.question;
               assistant_message
                 {| message :=
                      {| role := assistant; content := []; images := None;
                         tool_calls := Some [Examples.unknown_call];
                         tool_call_id := None |};
                    finish_reason := js "tool_calls" |};
               tool_message Examples.unknown_call
                 (js "Error: Invalid JSON arguments for tool "
                  ++ quoted (js "calculator"));
               assistant_message
                 {| message :=
                      {| role := assistant; content := []; images := None;
                         tool_calls := Some [Examples.search_call];
                         tool_call_id := None |};
                    finish_reason := js "tool_calls" |};
               tool_message Examples.search_call
                 (js "Search error: No Brave Search API key configured") ]
     | _ => False
     end.
Proof. vm_compute. split; reflexivity. Qed.

(* ===================================================================== *)
(** ** Trimming a conversation *)
(* ===================================================================== *)

Lemma filter_system_others (messages : list ChatMessage) :
  List.filter is_system (others messages) = [].
Proof.
  unfold others. induction messages as [|m ms IH]; [done|].
  cbn [List.filter]. destruct (is_system m) eqn:E; cbn [negb List.filter];
    [done|]. by rewrite E.
Qed.

Lemma filter_system_system (messages : list ChatMessage) :
  List.filter is_system (List.filter is_system messages)
  = List.filter is_system messages.
Proof.
  induction messages as [|m ms IH]; [done|].
  cbn [List.filter]. destruct (is_system m) eqn:E; [|done].
  cbn [List.filter]. by rewrite E, IH.
Qed.

Lemma others_system (messages : list ChatMessage) :
  others (List.filter is_system messages) = [].
Proof.
  unfold others. induction messages as [|m ms IH]; [done|].
  cbn [List.filter]. destruct (is_system m) eqn:E; [|done].
  cbn [List.filter]. by rewrite E.
Qed.

Lemma others_others (messages : list ChatMessage) :
  others (others messages) = others messages.
Proof.
  unfold others. induction messages as [|m ms IH]; [done|].
  cbn [List.filter]. destruct (is_system m) eqn:E; cbn [negb]; [done|].
  cbn [List.filter]. by rewrite E, IH.
Qed.

Lemma filter_system_drop_others (n : nat) (messages : list ChatMessage) :
  List.filter is_system (drop n (others messages)) = [].
Proof.
  pose proof (filter_system_others messages) as H.
  revert n. induction (others messages) as [|m ms IH]; intros [|n]; try done.
  cbn [drop]. apply IH. cbn [List.filter] in H.
  destruct (is_system m); [done|exact H].
Qed.

Lemma others_drop_others (n : nat) (messages : list ChatMessage) :
  others (drop n (others messages)) = drop n (others messages).
Proof.
  pose proof (others_others messages) as H.
  revert n. induction (others messages) as [|m ms IH]; intros [|n]; try done.
  cbn [drop]. apply IH. unfold others in *. cbn [List.filter] in H.
  destruct (is_system m) eqn:E; cbn [negb] in H.
  - assert (length (List.filter (fun m => negb (is_system m)) ms)
            <= length ms)%nat as Hl by apply List.filter_length_le.
    rewrite H in Hl. cbn [length] in Hl. lia.
  - by injection H.
Qed.

Lemma others_length (messages : list ChatMessage) :
  (length (others messages) <= length messages)%nat.
Proof. apply List.filter_length_le. Qed.

Lemma slice_from_neg {A} (k : Z) (l : list A) :
  1 <= k -> slice_from (- k) l = drop (length l - Z.to_nat k) l.
Proof.
  intros Hk. unfold slice_from.
  destruct (Z.ltb_spec (- k) 0); [|lia]. f_equal. lia.
Qed.

Lemma slice_from_nonneg {A} (k : Z) (l : list A) :
  k <= 0 -> slice_from (- k) l = drop (Z.to_nat (- k)) l.
Proof.
  intros Hk. unfold slice_from.
  destruct (Z.ltb_spec (- k) 0); [lia|].
  destruct (Z.min_spec (- k) (Z.of_nat (length l))) as [[_ ->]|[Hle ->]];
    [done|].
  rewrite Nat2Z.id, !drop_ge; [done|lia..].
Qed.

(** For a limit of at least 1, trimming keeps every system message and
    the last [maxMessages] of the other messages, each group in its
    order; the system messages are not counted against the limit. *)
Theorem trimMessages_keeps (messages : list ChatMessage) (maxMessages : Z) :
  1 <= maxMessages ->
  List.filter is_system (trimMessages messages maxMessages)
  = List.filter is_system messages
  /\ others (trimMessages messages maxMessages)
     = drop (length (others messages) - Z.to_nat maxMessages)
         (others messages)
  /\ Z.of_nat (length (others (trimMessages messages maxMessages)))
     <= maxMessages.
Proof.
  intros Hk.
  assert (others (trimMessages messages maxMessages)
          = drop (length (others messages) - Z.to_nat maxMessages)
              (others messages)) as Hothers.
  { unfold trimMessages.
    destruct (Z.leb_spec (Z.of_nat (length messages)) maxMessages) as [Hle|Hgt].
    - pose proof (others_length messages).
      replace (length (others messages) - Z.to_nat maxMessages)%nat
        with 0%nat by lia. done.
    - cbv zeta. fold (others messages). rewrite slice_from_neg by done.
      unfold others at 1. rewrite List.filter_app.
      fold (others (List.filter is_system messages)).
      rewrite others_system. cbn [app].
      apply others_drop_others. }
  split; [|split]; [|done|].
  - unfold trimMessages.
    destruct (Z.of_nat (length messages) <=? maxMessages); [done|].
    cbv zeta. fold (others messages). rewrite slice_from_neg by done.
    rewrite List.filter_app, filter_system_system,
      filter_system_drop_others. by rewrite app_nil_r.
  - rewrite Hothers, length_drop. lia.
Qed.

Lemma trimMessages_keeps_witness :
  trimMessages [says "a"; prompt; says "b"; says "c"] 2
  = [prompt; says "b"; says "c"]
  /\ others (trimMessages [says "a"; prompt; says "b"; says "c"] 2)
     = [says "b"; says "c"].
Proof.
  split; [reflexivity|].
  destruct (trimMessages_keeps [says "a"; prompt; says "b"; says "c"] 2)
    as (_ & H & _); [lia|].
  rewrite H. reflexivity.
Defined.

Lemma trimMessages_eq (messages : list ChatMessage) (maxMessages : Z) :
  trimMessages messages maxMessages =
  if Z.of_nat (length messages) <=? maxMessages then messages
  else List.filter is_system messages
       ++ slice_from (- maxMessages) (others messages).
Proof. reflexivity. Qed.

Lemma others_app (a b : list ChatMessage) :
  others (a ++ b) = others a ++ others b.
Proof. apply List.filter_app. Qed.

(** Trimming twice with the same limit, when the limit is not
    negative, is trimming once. *)
Theorem trimMessages_idempotent (messages : list ChatMessage)
    (maxMessages : Z) :
  0 <= maxMessages ->
  trimMessages (trimMessages messages maxMessages) maxMessages
  = trimMessages messages maxMessages.
Proof.
  intros Hk. rewrite (trimMessages_eq messages).
  destruct (Z.leb_spec (Z.of_nat (length messages)) maxMessages) as [Hle|Hgt].
  { rewrite trimMessages_eq.
    destruct (Z.leb_spec (Z.of_nat (length messages)) maxMessages);
      [done|lia]. }
  set (kept := slice_from (- maxMessages) (others messages)).
  assert (List.filter is_system kept = [] /\ others kept = kept
          /\ slice_from (- maxMessages) kept = kept) as (Hs & Ho & Hk').
  { subst kept. destruct (Z.eq_dec maxMessages 0) as [->|Hne].
    - rewrite !slice_from_nonneg by lia. cbn [Z.opp Z.to_nat drop].
      split; [apply filter_system_others|]. split; [apply others_others|].
      done.
    - rewrite (slice_from_neg maxMessages (others messages)) by lia.
      split; [apply filter_system_drop_others|].
      split; [apply others_drop_others|].
      rewrite slice_from_neg by lia.
      rewrite length_drop, drop_drop. f_equal. lia. }
  rewrite trimMessages_eq.
  destruct (Z.of_nat (length (List.filter is_system messages ++ kept))
            <=? maxMessages); [done|].
  rewrite List.filter_app, others_app, filter_system_system, others_system,
    Hs, Ho, app_nil_r. cbn [app]. by rewrite Hk'.
Qed.

Lemma trimMessages_idempotent_witness :
  trimMessages (trimMessages [says "a"; says "b"; says "c"] 2) 2
  = trimMessages [says "a"; says "b"; says "c"] 2.
Proof. apply trimMessages_idempotent. lia. Defined.

(** A limit of zero or less trims nothing off the end: the result is
    every system message followed by the other messages without their
    first [- maxMessages]. With the limit 0 every message is kept. *)
Theorem trimMessages_nonpositive (messages : list ChatMessage)
    (maxMessages : Z) :
  maxMessages <= 0 ->
  trimMessages messages maxMessages
  = List.filter is_system messages
    ++ drop (Z.to_nat (- maxMessages)) (others messages).
Proof.
  intros Hk. unfold trimMessages.
  destruct (Z.leb_spec (Z.of_nat (length messages)) maxMessages) as [Hle|Hgt].
  - destruct messages as [|m ms]; [by destruct (Z.to_nat (- maxMessages))|].
    cbn [length] in Hle. lia.
  - cbv zeta. fold (others messages). by rewrite slice_from_nonneg.
Qed.

Lemma trimMessages_nonpositive_witness :
  trimMessages [says "a"; says "b"; says "c"] 0 = [says "a"; says "b"; says "c"]
  /\ trimMessages [says "a"; says "b"; says "c"] (-1) = [says "b"; says "c"].
Proof.
  split.
  - rewrite trimMessages_nonpositive by lia. reflexivity.
  - rewrite trimMessages_nonpositive by lia. reflexivity.
Defined.

(** With a limit of at least 1, a conversation that ends with a message
    other than a system message still ends with it after trimming. *)
Theorem trimMessages_last (messages : list ChatMessage) (maxMessages : Z)
    (newest : ChatMessage) :
  1 <= maxMessages ->
  last messages = Some newest ->
  is_system newest = false ->
  last (trimMessages messages maxMessages) = Some newest.
Proof.
  intros Hk Hlast Hrole. unfold trimMessages.
  destruct (Z.of_nat (length messages) <=? maxMessages); [done|].
  cbv zeta. fold (others messages). rewrite slice_from_neg by done.
  assert (last (others messages) = Some newest) as Ho.
  { clear Hk. unfold others.
    induction messages as [|m ms IH] using rev_ind; [done|].
    rewrite last_snoc in Hlast. injection Hlast as ->.
    rewrite List.filter_app. cbn [List.filter]. rewrite Hrole. cbn [negb].
    by rewrite last_snoc. }
  destruct (others messages) as [|x xs _] using rev_ind; [done|].
  rewrite last_snoc in Ho. injection Ho as ->.
  rewrite length_app. cbn [length].
  rewrite drop_app_le by lia. by rewrite app_assoc, last_snoc.
Qed.

Lemma trimMessages_last_witness :
  last (trimMessages [says "a"; says "b"; says "c"] 1) = Some (says "c").
Proof. apply trimMessages_last; [lia|reflexivity..]. Defined.

(* ===================================================================== *)
(** ** More on the stream decoder *)
(* ===================================================================== *)

Lemma process_line_ignorable (f : Z) (line : jsstring) :
  ignorable line -> process_line f line = Next f None.
Proof.
  unfold ignorable, process_line. intros H.
  destruct (str_eqb (trim line) [] || startsWith (js ":") (trim line));
    [done|].
  cbn [orb] in H. by rewrite H.
Qed.

(** Blank lines, comment lines and lines without the data marker are
    transparent: taking one out of the lines of a chunk changes neither
    the tokens nor the way the loop ends nor the failure counter, so a
    heartbeat between malformed frames does not interrupt their run. *)
Theorem ignorable_lines_transparent (f : Z) (before after : list jsstring)
    (line : jsstring) :
  ignorable line ->
  process_lines f (before ++ line :: after) = process_lines f (before ++ after).
Proof.
  intros H. rewrite !process_lines_app. cbn [process_lines].
  destruct (process_lines f before) as [toks [f'|e]]; [|done].
  rewrite (process_line_ignorable _ _ H).
  by destruct (process_lines f' after).
Qed.

Lemma ignorable_lines_transparent_witness :
  let bad := js "data: {oops" in
  process_lines 0 [bad; bad; js ": ping"; bad; []; js "event: x"; bad; bad]
  = ([], inr (Threw malformed)).
Proof.
  intros bad.
  etransitivity;
    [apply (ignorable_lines_transparent 0 [bad; bad]
              [bad; []; js "event: x"; bad; bad] (js ": ping"));
     reflexivity|].
  etransitivity;
    [apply (ignorable_lines_transparent 0 [bad; bad; bad]
              [js "event: x"; bad; bad] []); reflexivity|].
  etransitivity;
    [apply (ignorable_lines_transparent 0 [bad; bad; bad] [bad; bad]
              (js "event: x")); reflexivity|].
  reflexivity.
Defined.

Lemma process_line_outcome (f : Z) (line : jsstring) :
  match process_line f line with
  | Next _ (Some v) => truthy (Some v) = true
  | Next _ None => True
  | Stop => True
  | Raise e => e = malformed \/ e = null_read "choices"
  end.
Proof.
  unfold process_line.
  destruct (_ || _); [done|]. destruct (negb _); [done|].
  destruct (str_eqb _ (js "[DONE]")); [done|].
  destruct (JSON_parse _) as [chunk|].
  - destruct chunk; try (by right);
      match goal with
      | |- context [truthy ?c] =>
          destruct c as [v|] eqn:Ec; [destruct (truthy (Some v)) eqn:Et|]
      end; done.
  - destruct (_ >=? 5); [by left|done].
Qed.

Lemma process_lines_outcome (f : Z) (lines : list jsstring) :
  Forall (fun v => truthy (Some v) = true) (fst (process_lines f lines))
  /\ match snd (process_lines f lines) with
     | inl _ => True
     | inr e => expected_exit e
     end.
Proof.
  revert f. induction lines as [|line lines IH]; intros f; [done|].
  cbn [process_lines]. pose proof (process_line_outcome f line) as H.
  destruct (process_line f line) as [f' y| |e].
  - specialize (IH f'). destruct (process_lines f' lines) as [toks r].
    cbn [fst snd] in *. destruct IH as [IH1 IH2].
    split; [|done]. destruct y as [v|]; [by constructor|done].
  - split; [done|by left].
  - split; [done|]. destruct H as [-> | ->]; [right; by left|right; by right].
Qed.

Lemma flush_outcome (buffer : jsstring) :
  Forall (fun v => truthy (Some v) = true) (flush buffer).
Proof.
  unfold flush. destruct (negb _); [|done]. destruct (_ && _); [|done].
  destruct (JSON_parse _) as [chunk|]; [|done].
  destruct chunk; try done;
    match goal with
    | |- context [truthy ?c] =>
        destruct c as [v|] eqn:Ec; [destruct (truthy (Some v)) eqn:Et|]
    end; by repeat constructor.
Qed.

Lemma read_loop_ending_done (st : State) (stream : ReadableStream) :
  read_loop_ending st stream None = read_loop st stream.
Proof.
  revert st. induction stream as [|value stream IH]; intros st; [done|].
  cbn [read_loop_ending read_loop].
  destruct (TextDecoder.decode _ _) as [d text].
  destruct (pop _) as [lines rest].
  destruct (process_lines _ lines) as [toks [f'|e]]; [|done].
  by rewrite IH.
Qed.

Lemma read_loop_ending_outcome (st : State) (stream : ReadableStream)
    (ending : option Thrown) :
  Forall (fun v => truthy (Some v) = true)
    (tokens (read_loop_ending st stream ending))
  /\ (expected_exit (exit (read_loop_ending st stream ending))
      \/ exists e,
           ending = Some e
           /\ exit (read_loop_ending st stream ending) = Threw e).
Proof.
  revert st. induction stream as [|value stream IH]; intros st.
  - cbn [read_loop_ending]. destruct ending as [e|]; cbn [tokens exit].
    + split; [done|]. right. by exists e.
    + split; [apply flush_outcome|]. left. by left.
  - cbn [read_loop_ending].
    destruct (TextDecoder.decode _ _) as [d text].
    destruct (pop _) as [lines rest].
    pose proof (process_lines_outcome (consecutiveParseFailures st) lines)
      as [Ht He].
    destruct (process_lines _ lines) as [toks [f'|e]]; cbn [fst snd] in *.
    + cbn [tokens exit].
      destruct (IH (mkState d (default [] rest) f')) as [IH1 IH2].
      split; [|done]. apply Forall_app. by split.
    + cbn [tokens exit]. split; [done|by left].
Qed.

(** Whatever bytes arrive and however the reads end, with [done] or
    with a rejected read, every token the decoder yields is a value
    that counts as true (never [null], [false], zero or the empty
    string), and the generator ends in one of four ways: it returns,
    it throws its malformed-data error, it throws the [TypeError] of
    reading [choices] of a [null] payload, or it throws the error of
    the rejected read as it is. When the reads end with [done] the
    last way is out, and the decoder is [parseSSEStream]. *)
Theorem parseSSEStream_outcomes (stream : ReadableStream)
    (ending : option Thrown) :
  let run := parseSSEStream_ending stream ending in
  Forall (fun v => truthy (Some v) = true) (tokens run)
  /\ (expected_exit (exit run)
      \/ exists e, ending = Some e /\ exit run = Threw e)
  /\ parseSSEStream_ending stream None = parseSSEStream stream.
Proof.
  cbv zeta. unfold parseSSEStream_ending, parseSSEStream.
  destruct (read_loop_ending_outcome (mkState TextDecoder.create [] 0)
              stream ending) as [Ht He].
  split; [done|]. split; [done|apply read_loop_ending_done].
Qed.

Lemma startsWith_split (p s : jsstring) :
  startsWith p s = true -> exists x, s = p ++ x.
Proof.
  revert s. induction p as [|c p IH]; intros s H; [by exists s|].
  destruct s as [|d s]; [done|]. cbn [startsWith] in H.
  apply andb_true_iff in H as [Hc Hp]. apply Z.eqb_eq in Hc as ->.
  destruct (IH s Hp) as [x ->]. by exists x.
Qed.

Lemma trimStart_app_stop (u v : jsstring) (c : Z) :
  is_white c = false ->
  trimStart (u ++ c :: v) = trimStart u ++ c :: v
  \/ trimStart (u ++ c :: v) = c :: v /\ trimStart u = [].
Proof.
  intros Hc. induction u as [|d u IH]; cbn [app trimStart].
  - right. by rewrite Hc.
  - destruct (is_white d); [exact IH|by left].
Qed.

Lemma trimEnd_after (a x : jsstring) (c : Z) :
  is_white c = false ->
  exists y, trimEnd ((a ++ [c]) ++ x) = a ++ c :: y.
Proof.
  intros Hc. unfold trimEnd. rewrite !rev_app_distr. cbn [rev app].
  destruct (trimStart_app_stop (rev x) (rev a) c Hc) as [-> | [-> _]].
  - exists (rev (trimStart (rev x))).
    rewrite rev_app_distr. cbn [rev]. rewrite rev_involutive.
    by rewrite <- app_assoc.
  - exists []. cbn [rev]. by rewrite rev_involutive.
Qed.

(** A read that is rejected after the first frame and half of the
    second: the first token has been yielded, the error of the read
    leaves the generator, and the residual buffer is not looked at;
    with [done] in its place the second token is yielded from the
    residual buffer. *)
Example rejected_read_scenario :
  let hang_up := new_Error (js "socket hang up") in
  observe (parseSSEStream_ending [frame "A" ++ LF ++ frame "B"]
             (Some hang_up))
  = ([JStr (js "A")], Threw hang_up)
  /\ observe (parseSSEStream_ending [frame "A" ++ LF ++ frame "B"] None)
     = ([JStr (js "A"); JStr (js "B")], Returned).
Proof. vm_compute. by split. Qed.

(** Nothing that starts with [\[DONE\]] is JSON. *)
Lemma done_prefix_not_json (y : jsstring) :
  JSON_parse (js "[DONE" ++ 93 :: y) = None.
Proof.
  unfold JSON_parse.
  change (js "[DONE") with [91; 68; 79; 78; 69].
  cbn [app length].
  replace (2 * S (S (S (S (S (S (length y)))))) + 2)%nat
    with (S (S (S (2 * length y + 11)))) by lia.
  rewrite parse_value_S. cbn [skip_ws is_json_ws Z.eqb orb Pos.eqb].
  cbn [Z.eqb Pos.eqb].
  rewrite parse_elements_S, parse_value_S.
  cbn [skip_ws is_json_ws Z.eqb orb Pos.eqb].
  change (js "true") with [116; 114; 117; 101].
  change (js "false") with [102; 97; 108; 115; 101].
  change (js "null") with [110; 117; 108; 108].
  cbn [startsWith Z.eqb Pos.eqb andb].
  reflexivity.
Qed.

Lemma done_prefix_unparsable (t : jsstring) :
  startsWith (js "data: [DONE]") t = true ->
  JSON_parse (trim (slice 5 t)) = None.
Proof.
  intros H. apply startsWith_split in H as [x ->].
  change (slice 5 (js "data: [DONE]" ++ x)) with (js " [DONE]" ++ x).
  change (trim (js " [DONE]" ++ x))
    with (trimEnd ((js "[DONE" ++ [93]) ++ x)).
  destruct (trimEnd_after (js "[DONE") x 93 eq_refl) as [y ->].
  apply done_prefix_not_json.
Qed.

Lemma chop_line_feed (rest : jsstring) :
  chop rest = ([], rest) -> chop (rest ++ [0x0A]) = ([rest], []).
Proof.
  induction rest as [|c r IH]; [done|]. cbn [chop app].
  destruct (chop r) as [ls r'] eqn:E.
  destruct (c =? 10); [done|].
  destruct ls as [|l ls]; [|done]. intros [= ->].
  by rewrite IH.
Qed.

Lemma decode_line_feed (d : TextDecoder.t) :
  TextDecoder.bytes_needed d = 0 ->
  snd (TextDecoder.decode d [0x0A]) = [0x0A].
Proof.
  intros H. cbn [TextDecoder.decode].
  unfold TextDecoder.decode_byte, TextDecoder.handler. rewrite H.
  cbn. by destruct (TextDecoder.bom_seen d).
Qed.

(** What the code after the loop yields for a residual line is what the
    loop body would have yielded for it, unless the line is a data line
    with a malformed or [null] payload. *)
Lemma flush_as_line (f : Z) (rest : jsstring) :
  ~ unusable rest ->
  match process_line f rest with
  | Next _ (Some v) => flush rest = [v]
  | Next _ None => flush rest = []
  | Stop => flush rest = []
  | Raise _ => False
  end.
Proof.
  intros Hu. unfold process_line, flush.
  destruct (str_eqb (trim rest) []) eqn:Hempty; [done|]. cbn [orb negb].
  destruct (startsWith (js ":") (trim rest)) eqn:Hcomment.
  { destruct (startsWith (js "data:") (trim rest)) eqn:Hd; [|done].
    apply data_line_not_comment in Hd. rewrite Hempty, Hcomment in Hd.
    done. }
  destruct (startsWith (js "data:") (trim rest)) eqn:Hd; [|done].
  cbn [negb andb]. change (length (js "data:")) with 5%nat.
  destruct (str_eqb (trim (slice 5 (trim rest))) (js "[DONE]")) eqn:Hdone.
  { apply str_eqb_eq in Hdone. rewrite Hdone.
    by destruct (negb (startsWith (js "data: [DONE]") (trim rest))). }
  destruct (startsWith (js "data: [DONE]") (trim rest)) eqn:Hprefix.
  { apply done_prefix_unparsable in Hprefix. exfalso. apply Hu.
    exists (trim (slice 5 (trim rest))). split; [|by left].
    unfold data_payload. by rewrite Hd, Hdone. }
  cbn [negb].
  destruct (JSON_parse (trim (slice 5 (trim rest)))) as [chunk|] eqn:Hp.
  - destruct chunk;
      try (match goal with
           | |- context [truthy ?c] =>
               destruct c as [v|] eqn:Ec; [destruct (truthy (Some v))|]
           end; done).
    exfalso. apply Hu. exists (trim (slice 5 (trim rest))).
    split; [|by right]. unfold data_payload. by rewrite Hd, Hdone.
  - exfalso. apply Hu. exists (trim (slice 5 (trim rest))).
    split; [|by left]. unfold data_payload. by rewrite Hd, Hdone.
Qed.

(** A server may leave out the line feed after its last line. When the
    bytes end on a character boundary, the decoder yields the same
    tokens and ends the same way as on the stream with the line feed
    added, unless the unterminated last line is a data line whose
    payload is malformed or [null] (such a line is passed over without
    counting, where a terminated one counts as a failure or throws). *)
Theorem missing_final_line_feed (stream : ReadableStream) :
  let decoded := TextDecoder.decode TextDecoder.create (concat stream) in
  TextDecoder.bytes_needed (fst decoded) = 0 ->
  ~ unusable (snd (chop (snd decoded))) ->
  observe (parseSSEStream (stream ++ [[0x0A]]))
  = observe (parseSSEStream stream).
Proof.
  intros decoded Hboundary Hrest.
  rewrite !parseSSEStream_text, concat_app. cbn [concat].
  rewrite app_nil_r, decode_app. fold decoded. cbn [snd].
  rewrite (decode_line_feed _ Hboundary).
  unfold run_text. rewrite chop_app.
  rewrite (chop_line_feed _ (chop_residual (snd decoded))).
  cbn [fst snd]. rewrite process_lines_app.
  destruct (chop (snd decoded)) as [lines rest]. cbn [fst snd] in *.
  destruct (process_lines 0 lines) as [toks [f'|e]]; [|done].
  cbn [process_lines]. pose proof (flush_as_line f' rest Hrest) as H.
  destruct (process_line f' rest) as [f'' [v|]| |e]; cbn [fst snd];
    try rewrite H; try done.
  all: by rewrite ?app_nil_r.
Qed.

Lemma missing_final_line_feed_witness :
  observe (parseSSEStream [frame "A" ++ LF; frame "B"; [0x0A]])
  = observe (parseSSEStream [frame "A" ++ LF; frame "B"])
  /\ tokens (parseSSEStream [frame "A" ++ LF; frame "B"])
     = [JStr (js "A"); JStr (js "B")].
Proof.
  split; [|reflexivity].
  apply (missing_final_line_feed [frame "A" ++ LF; frame "B"]);
    [reflexivity|].
  intros (payload & Hp & Hbad). vm_compute in Hp. injection Hp as <-.
  destruct Hbad as [Hbad|Hbad]; vm_compute in Hbad; discriminate.
Defined.

(* ===================================================================== *)
(** ** The web search *)
(* ===================================================================== *)

Section Search.

Variable searchApiKey : option jsstring.
Variable braveFetch : list Event -> BraveResult.

Lemma webSearch_no_key (query : json) (w : World.t) :
  no_usable_key searchApiKey ->
  webSearch searchApiKey braveFetch query w = (Throw missing_key_error, w).
Proof.
  unfold no_usable_key, webSearch. intros H.
  destruct searchApiKey as [k|]; cbn [option_map]; [|done].
  by rewrite H.
Qed.

(** Without a usable key (none, an empty one, or white space only)
    [webSearch] throws its configuration error and sends nothing: the
    world is as it was. *)
Theorem webSearch_without_key (query : json) (w : World.t) :
  no_usable_key searchApiKey ->
  webSearch searchApiKey braveFetch query w = (Throw missing_key_error, w).
Proof. apply webSearch_no_key. Qed.


(** A query that is a string is refused by [encodeURIComponent]
    exactly when it holds a lone surrogate, and then with the
    [URIError]. *)
Lemma encodeURIComponent_string (s : jsstring) :
  encodeURIComponent_throws (JStr s)
  = if lone_surrogate s then Some URI_malformed else None.
Proof. done. Qed.

End Search.

Lemma webSearch_without_key_witness :
  webSearch blank_key answering (JStr (js "news")) Examples.world
  = (Throw missing_key_error, Examples.world).
Proof. apply webSearch_without_key. reflexivity. Defined.


Lemma startsWith_app_l (p a b : jsstring) :
  startsWith p a = true -> startsWith p (a ++ b) = true.
Proof.
  revert a. induction p as [|c p IH]; intros a H; [done|].
  destruct a as [|d a]; [done|]. cbn [startsWith app] in *.
  apply andb_true_iff in H as [-> Hp]. by rewrite IH.
Qed.

Lemma includes_app_l (p a b : jsstring) :
  includes p a = true -> includes p (a ++ b) = true.
Proof.
  induction a as [|c a IH]; intros H.
  - destruct p; [|done]. by destruct b.
  - cbn [includes app] in *. apply orb_true_iff in H as [H|H].
    + pose proof (startsWith_app_l _ (c :: a) b H) as H'.
      cbn [app] in H'. by rewrite H'.
    + rewrite IH by done. apply orb_true_r.
Qed.

Lemma includes_refl (p : jsstring) : includes p p = true.
Proof.
  apply includes_prefix. induction p as [|c p IH]; [done|].
  cbn [startsWith]. by rewrite Z.eqb_refl.
Qed.

Lemma includes_join (p sep : jsstring) (lines : list jsstring)
    (line : jsstring) :
  In line lines -> includes p line = true ->
  includes p (join sep lines) = true.
Proof.
  intros Hin Hp. induction lines as [|l ls IH]; [done|].
  destruct Hin as [-> | Hin].
  - destruct ls as [|l' ls]; [done|].
    change (join sep (line :: l' :: ls))
      with (line ++ sep ++ join sep (l' :: ls)).
    by apply includes_app_l.
  - destruct ls as [|l' ls]; [done|].
    change (join sep (l :: l' :: ls)) with (l ++ sep ++ join sep (l' :: ls)).
    apply includes_app_r, includes_app_r. by apply IH.
Qed.

(** The context is the empty string exactly when there are no results;
    otherwise it starts with the heading, and the title, the URL and the
    snippet of every result appear in it. *)
Theorem formatSearchContext_mentions (results : list SearchResult) :
  (formatSearchContext results = [] <-> results = [])
  /\ (results <> [] ->
      startsWith (js "Web search results:") (formatSearchContext results)
      = true)
  /\ (forall r, In r results ->
        includes (title r) (formatSearchContext results) = true
        /\ includes (url r) (formatSearchContext results) = true
        /\ includes (snippet r) (formatSearchContext results) = true).
Proof.
  split; [|split].
  - split; [|by intros ->]. unfold formatSearchContext.
    destruct results as [|r rs]; [done|]. discriminate.
  - intros Hne. unfold formatSearchContext.
    destruct results as [|r rs]; [done|]. cbn -[js imap join].
    apply startsWith_app.
  - intros r Hin. unfold formatSearchContext.
    destruct (Z.of_nat (length results) =? 0) eqn:Hlen.
    { destruct results; [done|discriminate]. }
    set (f := fun (i : nat) (r : SearchResult) =>
                string_of_int (Z.of_nat i + 1) ++ js ". [" ++ title r
                ++ js "](" ++ url r ++ js ")" ++ [10] ++ js "   "
                ++ snippet r).
    assert (exists i, In (f i r) (imap f results)) as [i Hline].
    { clear Hlen. generalize f. clear f. revert Hin.
      induction results as [|x xs IH]; intros Hin f; [done|].
      destruct Hin as [-> | Hin].
      - exists 0%nat. by left.
      - destruct (IH Hin (fun i => f (S i))) as [i Hi].
        exists (S i). right. exact Hi. }
    assert (forall p, includes p (f i r) = true ->
              includes p (js "Web search results:" ++ [10; 10]
                          ++ join [10; 10] (imap f results)) = true) as Hall.
    { intros p Hp. apply includes_app_r, includes_app_r.
      by apply (includes_join _ _ _ (f i r)). }
    split; [|split]; apply Hall; unfold f.
    + apply includes_app_r, includes_app.
    + do 3 apply includes_app_r. apply includes_app.
    + do 8 apply includes_app_r. apply includes_refl.
Qed.

Lemma formatSearchContext_mentions_witness :
  let results := map result_of (take 2 seven) in
  startsWith (js "Web search results:") (formatSearchContext results) = true
  /\ includes (js "u2") (formatSearchContext results) = true
  /\ formatSearchContext results
     = js "Web search results:" ++ [10; 10] ++ js "1. [a](u1)" ++ [10]
       ++ js "   d1" ++ [10; 10] ++ js "2. [b](u2)" ++ [10] ++ js "   d2".
Proof.
  intros results.
  destruct (formatSearchContext_mentions results) as (_ & Hhead & Hall).
  split; [apply Hhead; discriminate|].
  split; [|reflexivity].
  apply (Hall (result_of (hit "b" "u2" "d2"))). right. left. reflexivity.
Defined.

(* ===================================================================== *)
(** ** More on the tools *)
(* ===================================================================== *)

Section ToolCalls.

Variable searchApiKey : option jsstring.
Variable braveFetch : list Event -> BraveResult.

#[local] Abbreviation executeTool' := (executeTool searchApiKey braveFetch).

(** The three refusals of [executeTool]: arguments that are not JSON,
    whatever the tool; a tool other than [web_search], whatever the
    arguments (also [null]); and a [web_search] whose arguments have
    no [query] that counts as true. Each is returned as a text, and
    no search is made. *)
Theorem executeTool_refusals (tc : ToolCall) (w : World.t) :
  let name := fn_name (call_function tc) in
  let args := JSON_parse (fn_arguments (call_function tc)) in
  (args = None ->
   executeTool' tc w
   = (Ok (js "Error: Invalid JSON arguments for tool " ++ quoted name),
      after w (Executed tc)))
  /\ (name <> js "web_search" -> args <> None ->
      executeTool' tc w
      = (Ok (js "Error: Unknown tool " ++ quoted name),
         after w (Executed tc)))
  /\ (name = js "web_search" ->
      forall a, args = Some a -> a <> JNull ->
      truthy (get (js "query") a) = false ->
      executeTool' tc w
      = (Ok (js "Error: Missing query parameter"), after w (Executed tc))).
Proof.
  cbv zeta. unfold executeTool. cbv [bind emit ret after heap log].
  split; [|split].
  - by intros ->.
  - intros Hname Hargs.
    destruct (JSON_parse _) as [a|]; [|done].
    destruct (str_eqb _ (js "web_search")) eqn:E; [|done].
    by apply str_eqb_eq in E.
  - intros -> a -> Hnull Hq. rewrite str_eqb_refl.
    destruct a; try done;
      (destruct (get (js "query") _) as [q|]; [|done]);
      by rewrite Hq.
Qed.

(** A [web_search] with a query, when no usable key is configured,
    returns the search error that says so, and nothing is sent. *)
Theorem executeTool_without_key (tc : ToolCall) (w : World.t)
    (a q : json) :
  no_usable_key searchApiKey ->
  fn_name (call_function tc) = js "web_search" ->
  JSON_parse (fn_arguments (call_function tc)) = Some a ->
  a <> JNull ->
  get (js "query") a = Some q ->
  truthy (Some q) = true ->
  executeTool' tc w
  = (Ok (js "Search error: No Brave Search API key configured"),
     after w (Executed tc)).
Proof.
  intros Hkey Hname Hargs Hnull Hq Ht. unfold executeTool.
  cbv [bind emit after heap log]. rewrite Hargs, Hname, str_eqb_refl.
  destruct a; try done; rewrite Hq, Ht; unfold try_catch, bind;
    by rewrite (webSearch_no_key _ _ _ _ Hkey).
Qed.

(** A [web_search] whose query [encodeURIComponent] refuses (a string
    with a lone surrogate, or a value that has no text) is answered,
    when a key is configured, with the search error that carries the
    message of what was thrown; no search is made and nothing is
    thrown. *)
Theorem executeTool_unencodable (tc : ToolCall) (w : World.t)
    (key : jsstring) (a q : json) (e : Thrown) :
  searchApiKey = Some key ->
  trim key <> [] ->
  fn_name (call_function tc) = js "web_search" ->
  JSON_parse (fn_arguments (call_function tc)) = Some a ->
  a <> JNull ->
  get (js "query") a = Some q ->
  truthy (Some q) = true ->
  encodeURIComponent_throws q = Some e ->
  (e = not_primitive \/ e = URI_malformed)
  /\ executeTool' tc w
     = (Ok (js "Search error: " ++ message_of e), after w (Executed tc)).
Proof.
  intros Hkey Hne Hname Hargs Hnull Hq Ht He.
  assert (e = not_primitive \/ e = URI_malformed) as Hcase.
  { unfold encodeURIComponent_throws in He.
    destruct (unconvertible q); [left; congruence|].
    destruct (ill_formed q); [right; congruence|done]. }
  split; [done|]. unfold executeTool.
  cbv [bind emit after heap log]. rewrite Hargs, Hname, str_eqb_refl.
  assert (forall w',
             webSearch searchApiKey braveFetch q w' = (Throw e, w'))
    as Hsearch.
  { intros w'. unfold webSearch. rewrite Hkey. cbn [option_map].
    destruct (trim key) as [|c k]; [done|]. cbn [negb]. by rewrite He. }
  destruct a; try done; rewrite Hq, Ht; unfold try_catch, bind;
    rewrite Hsearch; by destruct Hcase as [-> | ->].
Qed.

(** Whatever the call and the search service, [executeTool] changes
    no message array and makes no request to the model server; its
    first event is its own entry. *)
Theorem executeTool_frame (tc : ToolCall) (w : World.t) :
  let run := executeTool' tc w in
  heap (snd run) = heap w
  /\ requests (log (snd run)) = requests (log w)
  /\ exists extra, log (snd run) = log w ++ Executed tc :: extra.
Proof.
  cbv zeta. destruct (null_arguments tc) eqn:Hnull.
  - rewrite (executeTool_null _ _ _ _ Hnull). cbn [snd after heap log].
    split; [done|]. split; [|by exists []].
    rewrite requests_app. cbn. lia.
  - destruct (executeTool_returns searchApiKey braveFetch tc w Hnull)
      as (result & extra & -> & Hq).
    cbn [snd heap log]. split; [done|]. split; [|by exists extra].
    rewrite requests_app. unfold requests at 2.
    cbn [List.filter is_fetch].
    rewrite filter_no_fetch; [cbn; lia|].
    eapply Forall_impl; [exact Hq|]. by intros ev [? ?].
Qed.

End ToolCalls.

Lemma executeTool_refusals_witness :
  fst (executeTool Examples.no_key Examples.search_down Examples.unknown_call
         Examples.world)
  = Ok (js "Error: Invalid JSON arguments for tool " ++ quoted (js "calculator"))
  /\ fst (executeTool Examples.no_key Examples.search_down
            (Examples.call (js "c") (js "calculator") (js "null"))
            Examples.world)
     = Ok (js "Error: Unknown tool " ++ quoted (js "calculator"))
  /\ executeTool Examples.no_key Examples.search_down no_query_call
       Examples.world
     = (Ok (js "Error: Missing query parameter"),
        after Examples.world (Executed no_query_call)).
Proof.
  split; [|split].
  - destruct (executeTool_refusals Examples.no_key Examples.search_down
                Examples.unknown_call Examples.world) as (H & _).
    by rewrite H.
  - destruct (executeTool_refusals Examples.no_key Examples.search_down
                (Examples.call (js "c") (js "calculator") (js "null"))
                Examples.world) as (_ & H & _).
    by rewrite H.
  - destruct (executeTool_refusals Examples.no_key Examples.search_down
                no_query_call Examples.world) as (_ & _ & H).
    apply (H eq_refl (JObj [(js "q", JStr (js "news"))]));
      [reflexivity | discriminate | reflexivity].
Defined.

Lemma executeTool_without_key_witness :
  executeTool blank_key answering Examples.search_call Examples.world
  = (Ok (js "Search error: No Brave Search API key configured"),
     after Examples.world (Executed Examples.search_call)).
Proof.
  apply (executeTool_without_key blank_key answering Examples.search_call
           Examples.world (JObj [(js "query", JStr (js "news"))])
           (JStr (js "news")));
    [reflexivity | reflexivity | reflexivity | discriminate
    | reflexivity | reflexivity].
Defined.

Lemma executeTool_unencodable_witness :
  executeTool some_key answering half_pair_call Examples.world
  = (Ok (js "Search error: URI malformed"),
     after Examples.world (Executed half_pair_call)).
Proof.
  apply (executeTool_unencodable some_key answering half_pair_call
           Examples.world (js "BSA-key")
           (JObj [(js "query", JStr [0xD83D])]) (JStr [0xD83D])
           URI_malformed);
    [reflexivity | discriminate | reflexivity | reflexivity | discriminate
    | reflexivity | reflexivity | reflexivity].
Defined.

(* ===================================================================== *)
(** ** The shape of a turn *)
(* ===================================================================== *)

Section Rounds.

Variable readFileSync : jsstring -> option (list Z).
Variable fetch : list Event -> FetchResult.
Variable searchApiKey : option jsstring.
Variable braveFetch : list Event -> BraveResult.

#[local] Abbreviation tool_step' := (tool_step searchApiKey braveFetch).
#[local] Abbreviation decision_loop' :=
  (decision_loop readFileSync fetch searchApiKey braveFetch).
#[local] Abbreviation finish' :=
  (finish readFileSync fetch searchApiKey braveFetch).
#[local] Abbreviation runWithTools' :=
  (runWithTools readFileSync fetch searchApiKey braveFetch).

(** The loop over the calls of a round appends tool messages for a
    prefix of the calls, and for all of them when it completes. *)
Lemma tool_round_prefix (m t : ref) (calls : list ToolCall) (w : World.t) :
  m <> t ->
  exists res w' results extra,
    for_of calls (tool_step' m t) w = (res, w')
    /\ grows m t w w' (zip_with tool_message calls results) extra
    /\ (length results <= length calls)%nat
    /\ (res = Ok tt -> length results = length calls).
Proof.
  intros Hmt. revert w. induction calls as [|tc calls IH]; intros w.
  - exists (Ok tt), w, [], []. split; [done|].
    split; [apply grows_refl|]. by split.
  - cbn [for_of]. unfold bind at 1.
    destruct (null_arguments tc) eqn:Hnull.
    + rewrite (tool_step_null _ _ _ _ _ _ Hnull).
      exists (Throw (null_read "query")), (after w (Executed tc)), [],
        [Executed tc].
      split; [done|]. split; [apply grows_events|].
      split; [cbn; lia|done].
    + destruct (tool_step_returns searchApiKey braveFetch m t tc w Hmt
                  Hnull) as (result & extra & w1 & -> & Hg1 & _).
      destruct (IH w1) as (res & w2 & results & extra2 & -> & Hg2 & Hle
                           & Hok).
      exists res, w2, (result :: results),
        ((Executed tc :: extra) ++ extra2).
      split; [done|].
      split; [exact (grows_trans _ _ _ _ _ _ _ _ _ Hg1 Hg2)|].
      split; [cbn; lia|]. intros E. cbn. by rewrite (Hok E).
Qed.

(** The rounds of a turn append whole rounds, at most one per
    iteration, the last of which may be cut short by a throw. *)
Lemma decision_loop_rounds (n : nat) (config : ProviderConfig)
    (request : ChatRequest) (tls : list Tool) (m t : ref) (w : World.t) :
  m <> t ->
  exists res w' rounds extra,
    decision_loop' n config request tls m t w = (res, w')
    /\ grows m t w w' (concat (map round_messages rounds)) extra
    /\ (length rounds <= n)%nat
    /\ Forall round_started rounds
    /\ Forall round_completed (removelast rounds)
    /\ (res = Ok tt -> Forall round_completed rounds).
Proof.
  intros Hmt. revert w. induction n as [|n IH]; intros w.
  { exists (Ok tt), w, [], []. split; [done|].
    split; [apply grows_refl|]. by repeat split. }
  rewrite decision_loop_step, sendChatWithTools_run.
  set (ev := Fetched _ _). set (w1 := after w ev).
  assert (grows m t w w1 [] [ev]) as Hg1 by apply grows_events.
  assert (forall res : Result unit, exists res' w' rounds extra,
             (res, w1) = (res', w')
             /\ grows m t w w' (concat (map round_messages rounds)) extra
             /\ (length rounds <= S n)%nat
             /\ Forall round_started rounds
             /\ Forall round_completed (removelast rounds)
             /\ (res' = Ok tt -> Forall round_completed rounds)) as Hstop.
  { intros res. exists res, w1, [], [ev]. split; [done|].
    split; [done|]. cbn. repeat split; try done. lia. }
  destruct (match fetch (log w1) with
            | FetchThrew e => _ | FetchResolved res => _ end)
    as [response|e]; [|apply Hstop].
  destruct (choices response) as [|choice ?]; [apply Hstop|].
  destruct (wants_tools choice) as [calls|] eqn:Hwants; [|apply Hstop].
  cbv zeta.
  pose proof (grows_push m t w1 (assistant_message choice) Hmt) as Hg2.
  set (w2 := snd (push t _ (snd (push m _ w1)))) in *.
  destruct (tool_round_prefix m t calls w2 Hmt)
    as (res & w3 & results & extra3 & -> & Hg3 & Hle & Hok).
  pose proof (grows_trans _ _ _ _ _ _ _ _ _
                (grows_trans _ _ _ _ _ _ _ _ _ Hg1 Hg2) Hg3) as Hg.
  assert (([] ++ [assistant_message choice])
          ++ zip_with tool_message calls results
          = round_messages (choice, results)) as Hround.
  { unfold round_messages. cbn [fst snd]. by rewrite Hwants. }
  rewrite Hround in Hg.
  assert (round_started (choice, results)) as Hstarted
      by (by exists calls).
  destruct res as [[]|e].
  - destruct (IH w3) as (res4 & w4 & rounds & extra4 & -> & Hg4 & Hn4
                         & Hs4 & Hl4 & Hc4).
    assert (round_completed (choice, results)) as Hdone.
    { exists calls. split; [done|]. by apply Hok. }
    exists res4, w4, ((choice, results) :: rounds),
      ((([ev] ++ []) ++ extra3) ++ extra4).
    split; [done|].
    split; [exact (grows_trans _ _ _ _ _ _ _ _ _ Hg Hg4)|].
    split; [cbn; lia|]. split; [by constructor|].
    split; [|intros E; constructor; [done|by apply Hc4]].
    destruct rounds as [|r rounds]; [by constructor|].
    change (removelast ((choice, results) :: r :: rounds))
      with ((choice, results) :: removelast (r :: rounds)).
    by constructor.
  - exists (Throw e), w3, [(choice, results)], (([ev] ++ []) ++ extra3).
    split; [done|]. split; [cbn [map concat]; by rewrite app_nil_r|].
    split; [cbn; lia|]. split; [by repeat constructor|].
    split; [by constructor|done].
Qed.

(** The messages a turn synthesizes come in rounds, at most three:
    each is an assistant message that carries tool calls, followed by
    one tool message per call, in the order of the calls and tagged
    with their ids. Every round but the last is whole, whether the
    turn returns or throws: only the last round can be cut short (by
    a tool call that throws), and it is whole too when the turn
    returns. The list of tool messages holds these rounds, and the
    private list holds the caller's messages followed by them. The
    private list is the list that is sent: a streaming call the turn
    makes carries exactly its messages. When the turn returns, what
    it returns is the list of tool messages, and the streaming call
    is its last request. *)
Theorem turn_in_rounds (config : ProviderConfig) (request : ChatRequest)
    (tls : list Tool) (w : World.t) :
  let run := runWithTools' config request tls w in
  exists rounds new,
    let sent :=
      cell w (messages request) ++ concat (map round_messages rounds) in
    cell (snd run) (tool_ref w request) = concat (map round_messages rounds)
    /\ cell (snd run) (copy_ref w) = sent
    /\ (length rounds <= 3)%nat
    /\ Forall round_started rounds
    /\ Forall round_completed (removelast rounds)
    /\ log (snd run) = log w ++ new
    /\ (forall ev,
          In ev new -> is_stream_call ev = true ->
          ev = stream_event readFileSync config request sent)
    /\ (forall s t,
          fst run = Ok (s, t) ->
          Forall round_completed rounds
          /\ t = tool_ref w request
          /\ last new
             = Some (stream_event readFileSync config request sent)).
Proof.
  cbv zeta.
  destruct (tool_ref_fresh w request) as [Hne _].
  destruct (started_cells w request) as (Hm & Htl & _ & Hlog).
  destruct (decision_loop_rounds maxRounds config request tls (copy_ref w)
              (tool_ref w request) (started w request) (not_eq_sym Hne))
    as (res & w1 & rounds & extra & Hrun & (Hgm & Hgt & _ & Hgl) & Hn & Hs
        & Hl & Hc).
  destruct (decision_loop_grows readFileSync fetch searchApiKey braveFetch
              maxRounds config request tls (copy_ref w)
              (tool_ref w request) (started w request) (not_eq_sym Hne))
    as (res' & w1' & acc' & extra' & Hrun' & (_ & _ & _ & Hgl') & _ & Hq).
  rewrite Hrun in Hrun'. injection Hrun' as <- <-.
  rewrite Hgl in Hgl'. apply app_inv_head in Hgl'. subst extra'.
  rewrite Hm in Hgm. rewrite Htl in Hgt. cbn [app] in Hgt.
  rewrite Hlog in Hgl.
  assert (forall ev, In ev extra -> is_stream_call ev = true -> False)
    as Hquiet.
  { intros ev Hin Hev. rewrite Forall_forall in Hq.
    apply list_elem_of_In, Hq in Hin. congruence. }
  exists rounds. rewrite runWithTools_finish, finish_run, Hrun.
  destruct res as [[]|e].
  - rewrite sendChatStream_run. cbv zeta.
    cbn [with_messages messages tools]. rewrite Hgm.
    change (Fetched _ _)
      with (stream_event readFileSync config request
              (cell w (messages request)
               ++ concat (map round_messages rounds))).
    set (final := stream_event _ _ _ _).
    exists (extra ++ [final]).
    assert (forall ev,
               In ev (extra ++ [final]) -> is_stream_call ev = true ->
               ev = final) as Hsent.
    { intros ev Hin Hev. apply in_app_or in Hin as [Hin|[<-|[]]]; [|done].
      by destruct (Hquiet ev Hin Hev). }
    destruct (match fetch _ with FetchThrew _ => _ | _ => _ end) as [s|e];
      cbn [fst snd]; unfold cell, after in *; cbn [heap log];
      rewrite Hgl, <- app_assoc;
      repeat (split; [done|]); try done.
    intros s' t' [= _ <-]. split; [by apply Hc|]. split; [done|].
    by rewrite last_snoc.
  - exists extra. cbn [fst snd]. repeat (split; [done|]).
    split; [|done]. intros ev Hin Hev. by destruct (Hquiet ev Hin Hev).
Qed.


End Rounds.


Lemma turn_in_rounds_witness :
  let run :=
    runWithTools Examples.files
      (scripted [Examples.asks [Examples.unknown_call];
                 Examples.asks [Examples.search_call];
                 Examples.completes]
         (Examples.resolved Examples.completes))
      Examples.no_key Examples.search_down Examples.config
      Examples.request BUILT_IN_TOOLS Examples.world in
  exists rounds,
    cell (snd run) (tool_ref Examples.world Examples.request)
    = concat (map round_messages rounds)
    /\ (length rounds <= 3)%nat
    /\ Forall round_completed rounds.
Proof.
  cbv zeta.
  destruct (turn_in_rounds Examples.files
              (scripted [Examples.asks [Examples.unknown_call];
                         Examples.asks [Examples.search_call];
                         Examples.completes]
                 (Examples.resolved Examples.completes))
              Examples.no_key Examples.search_down Examples.config
              Examples.request BUILT_IN_TOOLS Examples.world)
    as (rounds & new & H1 & _ & H3 & _ & _ & _ & _ & H5).
  exists rounds. split; [exact H1|]. split; [exact H3|].
  eapply H5. reflexivity.
Defined.

(* ===================================================================== *)
(** ** Listing the models of a server *)
(* ===================================================================== *)

Lemma translateFetchError_class (err : Thrown) (config : ProviderConfig) :
  exists cls,
    class_of (translateFetchError err config) = Some cls
    /\ cls <> TypeErrorClass.
Proof.
  destruct err as [cls ename msg code|text]; unfold translateFetchError;
    [|by exists ErrorClass].
  destruct cls; cbn [is_DOMException is_TypeError andb orb];
    repeat match goal with
           | |- context [if ?b then _ else _] => destruct b
           end;
    cbn [class_of new_Error];
    solve [by exists ErrorClass | by exists DOMExceptionClass].
Qed.

Section Listing.

Variable fetch : list jsstring -> GetResult.

Lemma fetchModelsGeneric_history (config : ProviderConfig)
    (h : list jsstring) :
  snd (fetchModelsGeneric fetch config h) = h ++ [generic_url config].
Proof.
  unfold fetchModelsGeneric. cbv zeta.
  destruct (fetch _) as [e|res]; [done|].
  destruct (negb _); [done|].
  by destruct (listing res) as [e|[]].
Qed.

Lemma fetchModelsGeneric_throws (config : ProviderConfig)
    (h : list jsstring) (e : Thrown) :
  fst (fetchModelsGeneric fetch config h) = Throw e ->
  exists err, e = translateFetchError err config.
Proof.
  unfold fetchModelsGeneric. cbv zeta.
  match goal with
  | |- context [match ?a with Ok _ => _ | Throw _ => _ end] =>
      destruct a as [l|err]
  end; cbn [fst]; intros He; [discriminate|].
  exists err. congruence.
Qed.

(** The two ways a native listing goes on after its first request. *)
Lemma native_cases (path label : string)
    (read : json -> option (list Model)) (config : ProviderConfig)
    (h : list jsstring) :
  let first := h ++ [baseUrl config ++ js path] in
  let run := native fetch path label read config h in
  if gives_up read (fetch first)
  then run = fetchModelsGeneric fetch config first
  else snd run = first
       /\ forall e, fst run = Throw e ->
                    exists err, e = translateFetchError err config.
Proof.
  cbv zeta. unfold native, gives_up. cbv zeta.
  destruct (fetch _) as [e|res].
  - destruct e as [[] ename msg code|text];
      unfold is_type_error; cbn [class_of];
      try done; (split; [done|]); cbn [fst]; intros e He;
      eexists; symmetry; exact (f_equal (thrown_or e) He).
  - destruct (get_status res =? 404); [done|].
    destruct (negb (get_ok res)).
    { split; [done|]. cbn [fst]. intros e He.
      eexists; symmetry; exact (f_equal (thrown_or e) He). }
    destruct (listing res) as [e|answer].
    + destruct e as [[] ename msg code|text];
        unfold is_type_error; cbn [class_of];
        try done; (split; [done|]); cbn [fst]; intros e He;
        eexists; symmetry; exact (f_equal (thrown_or e) He).
    + destruct (read answer); [|done]. by split.
Qed.

Lemma fetchModels_native (config : ProviderConfig) :
  has_native config = true ->
  exists path label,
    native_url config = baseUrl config ++ js path
    /\ fetchModels fetch config
       = native fetch path label (reader config) config.
Proof.
  unfold has_native, native_url, reader, fetchModels.
  destruct (type config); try done; intros _.
  - by exists "/api/tags"%string, "Ollama"%string.
  - by exists "/api/v0/models"%string, "LM Studio"%string.
Qed.

(** A listing for Ollama or LM Studio asks the provider's own
    endpoint first. When that answers 404, when the request or the
    reading of the body throws a [TypeError], or when the body is
    JSON but no listing, the outcome is that of the generic listing
    made next, and two requests have been made; in every other case
    the first request is the only one. *)
Theorem native_listing_falls_back (config : ProviderConfig)
    (h : list jsstring) :
  has_native config = true ->
  let first := h ++ [native_url config] in
  if gives_up (reader config) (fetch first)
  then fetchModels fetch config h = fetchModelsGeneric fetch config first
       /\ snd (fetchModels fetch config h) = first ++ [generic_url config]
  else snd (fetchModels fetch config h) = first.
Proof.
  intros Hn. cbv zeta.
  destruct (fetchModels_native config Hn) as (path & label & -> & ->).
  pose proof (native_cases path label (reader config) config h) as H.
  cbv zeta in H. destruct (gives_up _ _).
  - rewrite H. split; [done|]. apply fetchModelsGeneric_history.
  - apply H.
Qed.

(** Whatever a listing throws has gone through [translateFetchError],
    once: it is an [Error] and never a [TypeError]. *)
Theorem fetchModels_throws_translated (config : ProviderConfig)
    (h : list jsstring) (e : Thrown) :
  fst (fetchModels fetch config h) = Throw e ->
  (exists err, e = translateFetchError err config)
  /\ exists cls, class_of e = Some cls /\ cls <> TypeErrorClass.
Proof.
  intros He.
  assert (exists err, e = translateFetchError err config) as [err ->].
  { destruct (has_native config) eqn:Hn.
    - destruct (fetchModels_native config Hn) as (path & label & _ & Hf).
      rewrite Hf in He.
      pose proof (native_cases path label (reader config) config h) as H.
      cbv zeta in H. destruct (gives_up _ _).
      + rewrite H in He. by apply fetchModelsGeneric_throws in He.
      + by apply H.
    - unfold has_native, fetchModels in *.
      destruct (type config); try done;
        by apply fetchModelsGeneric_throws in He. }
  split; [by exists err|]. apply translateFetchError_class.
Qed.

(** With no server to connect to, a listing for Ollama or LM Studio
    makes two requests, the second to the generic endpoint, and
    reports the failure of the second one. *)
Theorem listing_without_server (config : ProviderConfig)
    (h : list jsstring) (e1 e2 : Thrown) (k1 k2 : FailureKind) :
  has_native config = true ->
  fetch (h ++ [native_url config]) = GetThrew e1 ->
  fetch_failure k1 e1 ->
  k1 <> Timeout ->
  fetch (h ++ [native_url config; generic_url config]) = GetThrew e2 ->
  fetch_failure k2 e2 ->
  fetchModels fetch config h
  = (Throw (new_Error
              (failure_message k2 (PROVIDER_NAMES (type config))
                 (baseUrl config))),
     h ++ [native_url config; generic_url config]).
Proof.
  intros Hn H1 Hk1 Hnt H2 Hk2.
  destruct (fetchModels_native config Hn) as (path & label & Hu & ->).
  pose proof (native_cases path label (reader config) config h) as H.
  cbv zeta in H. rewrite <- Hu, H1 in H.
  assert (gives_up (reader config) (GetThrew e1) = true) as Hg
      by (by destruct Hk1).
  rewrite Hg in H. rewrite H. unfold fetchModelsGeneric. cbv zeta.
  rewrite <- app_assoc. cbn [app]. rewrite H2.
  f_equal. f_equal.
  destruct Hk2 as [m c|cls m c|m c Hc|m c Hc]; unfold translateFetchError;
    cbn [is_DOMException is_TypeError andb orb failure_message].
  - by rewrite str_eqb_refl.
  - destruct (is_DOMException cls && _); [done|]. by rewrite str_eqb_refl.
  - change (str_eqb (js "TypeError") (js "AbortError")) with false.
    cbv iota. by rewrite Hc.
  - change (str_eqb (js "TypeError") (js "AbortError")) with false.
    cbv iota. by rewrite Hc.
Qed.

End Listing.

Lemma native_listing_falls_back_witness :
  has_native Examples.config = true
  /\ fetchModels old_server Examples.config []
     = (Ok (Passed (JArr [JObj [(js "id", JStr (js "llama3.1"))]])),
        [js "http://localhost:11434/api/tags";
         js "http://localhost:11434/v1/models"]).
Proof.
  split; [reflexivity|].
  pose proof (native_listing_falls_back old_server Examples.config []
                eq_refl) as H.
  cbv zeta in H.
  change (gives_up _ _) with true in H. cbv iota in H.
  destruct H as [H _]. rewrite H. reflexivity.
Defined.

Lemma fetchModels_throws_translated_witness :
  fst (fetchModels down Examples.config [])
  = Throw (new_Error
             (refused_message (js "Ollama") (js "http://localhost:11434")))
  /\ exists cls,
       class_of (new_Error
                   (refused_message (js "Ollama")
                      (js "http://localhost:11434"))) = Some cls
       /\ cls <> TypeErrorClass.
Proof.
  assert (fst (fetchModels down Examples.config [])
          = Throw (new_Error
                     (refused_message (js "Ollama")
                        (js "http://localhost:11434")))) as H
      by reflexivity.
  split; [exact H|].
  exact (proj2 (fetchModels_throws_translated down Examples.config [] _ H)).
Defined.

Lemma listing_without_server_witness :
  fetchModels down Examples.config []
  = (Throw (new_Error
              (refused_message (js "Ollama") (js "http://localhost:11434"))),
     [js "http://localhost:11434/api/tags";
      js "http://localhost:11434/v1/models"]).
Proof.
  assert (fetch_failure Refused refusal) as Hk
      by (by apply refused_error).
  assert (Refused <> Timeout) as Hne by discriminate.
  exact (listing_without_server down Examples.config [] refusal refusal
           Refused Refused eq_refl eq_refl Hk Hne eq_refl Hk).
Defined.

(* ===================================================================== *)
(** ** Stored settings *)
(* ===================================================================== *)

Lemma provider_key_not_flag (p : jsstring) :
  PROVIDER_URL_PREFIX ++ p <> ONBOARDING_COMPLETE_KEY.
Proof. intros H. vm_compute in H. discriminate H. Qed.

Lemma provider_key_inj (p q : jsstring) :
  q <> p -> PROVIDER_URL_PREFIX ++ p <> PROVIDER_URL_PREFIX ++ q.
Proof. intros Hne H. by apply app_inv_head in H. Qed.

Lemma provider_string_inj (p q : ProviderType) :
  q <> p -> provider_string q <> provider_string p.
Proof. intros Hne H. by destruct p, q; vm_compute in H. Qed.

Lemma getProviderUrl_set (p url : jsstring) (store : LocalStorage) :
  getProviderUrl p (setProviderUrl p url store)
  = if str_eqb url [] then None else Some url.
Proof. unfold getProviderUrl, setProviderUrl. by rewrite lookup_insert_eq. Qed.

Lemma getProviderUrl_set_ne (p q url : jsstring) (store : LocalStorage) :
  q <> p ->
  getProviderUrl q (setProviderUrl p url store) = getProviderUrl q store.
Proof.
  intros Hne. unfold getProviderUrl, setProviderUrl.
  by rewrite lookup_insert_ne by by apply provider_key_inj.
Qed.

Lemma getProviderUrl_nonempty (p url : jsstring) (store : LocalStorage) :
  getProviderUrl p store = Some url -> url <> [].
Proof.
  unfold getProviderUrl. destruct (store !! _) as [raw|]; [|done].
  destruct (str_eqb raw []) eqn:E; [done|]. intros [= <-] ->.
  by rewrite str_eqb_refl in E.
Qed.

(** A provider's address that is stored is read back, unless it is the
    empty string, which reads as no address; storing it changes the
    address of no other provider and leaves the onboarding flag. *)
Theorem provider_url_round_trip (p url : jsstring) (store : LocalStorage) :
  getProviderUrl p (setProviderUrl p url store)
  = (if str_eqb url [] then None else Some url)
  /\ (forall q, q <> p ->
        getProviderUrl q (setProviderUrl p url store)
        = getProviderUrl q store)
  /\ isOnboardingComplete (setProviderUrl p url store)
     = isOnboardingComplete store.
Proof.
  split; [apply getProviderUrl_set|].
  split; [intros q; apply getProviderUrl_set_ne|].
  unfold isOnboardingComplete, setProviderUrl.
  by rewrite lookup_insert_ne by apply provider_key_not_flag.
Qed.

(** Onboarding is complete once it is marked so and is not after a
    reset, whatever the store held; neither changes the address of a
    provider. *)
Theorem onboarding_flag_round_trip (p : jsstring) (store : LocalStorage) :
  isOnboardingComplete (markOnboardingComplete store) = true
  /\ isOnboardingComplete (resetOnboarding store) = false
  /\ getProviderUrl p (markOnboardingComplete store)
     = getProviderUrl p store
  /\ getProviderUrl p (resetOnboarding store) = getProviderUrl p store.
Proof.
  unfold isOnboardingComplete, markOnboardingComplete, resetOnboarding,
    getProviderUrl.
  rewrite lookup_insert_eq, lookup_delete_eq.
  rewrite lookup_insert_ne by (apply not_eq_sym, provider_key_not_flag).
  rewrite lookup_delete_ne by (apply not_eq_sym, provider_key_not_flag).
  done.
Qed.

(** A non-empty address stored for a provider is its base URL, whatever
    the preference says, and the base URL of every other provider is
    what it was. *)
Theorem stored_url_wins (serverUrl : option jsstring) (p : ProviderType)
    (url : jsstring) (store : LocalStorage) :
  url <> [] ->
  getDefaultBaseUrl serverUrl p (setProviderUrl (provider_string p) url store)
  = url
  /\ forall q, q <> p ->
       getDefaultBaseUrl serverUrl q
         (setProviderUrl (provider_string p) url store)
       = getDefaultBaseUrl serverUrl q store.
Proof.
  intros Hurl. unfold getDefaultBaseUrl. split.
  - rewrite getProviderUrl_set.
    destruct (str_eqb url []) eqn:E; [|done].
    by apply str_eqb_eq in E.
  - intros q Hq.
    by rewrite getProviderUrl_set_ne by by apply provider_string_inj.
Qed.

(** The base URL is the empty string exactly for the custom provider
    with no address stored and no server preference: every other
    provider has one. *)
Theorem base_url_empty (serverUrl : option jsstring) (p : ProviderType)
    (store : LocalStorage) :
  getDefaultBaseUrl serverUrl p store = []
  <-> p = custom
      /\ getProviderUrl (provider_string p) store = None
      /\ blank serverUrl.
Proof.
  unfold getDefaultBaseUrl, blank. split.
  - destruct (getProviderUrl _ store) as [stored|] eqn:Hs.
    { intros ->. by apply getProviderUrl_nonempty in Hs. }
    assert (DEFAULT_URLS p = [] -> p = custom) as Hd
        by (by destruct p; vm_compute).
    destruct serverUrl as [s|]; [|by intros ?%Hd].
    destruct (str_eqb (trim s) []) eqn:E.
    + apply str_eqb_eq in E. by intros ?%Hd.
    + intros H. rewrite H in E. by rewrite str_eqb_refl in E.
  - intros (-> & -> & Hb). destruct serverUrl as [s|]; [|done].
    by rewrite Hb.
Qed.

Lemma provider_url_round_trip_witness :
  getProviderUrl (js "ollama") (setProviderUrl (js "lmstudio") [] store)
  = getProviderUrl (js "ollama") store.
Proof.
  apply (provider_url_round_trip (js "lmstudio") [] store).
  by vm_compute.
Defined.

Lemma stored_url_wins_witness :
  getDefaultBaseUrl (Some (js " http://10.0.0.2:9000 ")) ollama
    (setProviderUrl (js "ollama") (js "http://gpu:11434") store)
  = js "http://gpu:11434"
  /\ getDefaultBaseUrl (Some (js " http://10.0.0.2:9000 ")) lmstudio
       (setProviderUrl (js "ollama") (js "http://gpu:11434") store)
     = js "http://studio.local:1234".
Proof.
  assert (js "http://gpu:11434" <> []) as Hne by (by vm_compute).
  destruct (stored_url_wins (Some (js " http://10.0.0.2:9000 ")) ollama
              (js "http://gpu:11434") store Hne) as [H1 H2].
  split; [exact H1|].
  etransitivity; [apply (H2 lmstudio); discriminate|]. by vm_compute.
Defined.

Lemma base_url_empty_witness :
  getDefaultBaseUrl (Some (js "   ")) custom store = [].
Proof.
  apply (base_url_empty (Some (js "   ")) custom store).
  by vm_compute.
Defined.

(* ===================================================================== *)
(** ** Titles and subtitles *)
(* ===================================================================== *)

Lemma trimStart_In (x : Z) (s : jsstring) : In x (trimStart s) -> In x s.
Proof.
  induction s as [|c s IH]; [done|]. cbn [trimStart].
  destruct (is_white c); [|done]. intros H. right. by apply IH.
Qed.

Lemma trimStart_length (s : jsstring) :
  (length (trimStart s) <= length s)%nat.
Proof.
  induction s as [|c s IH]; [done|]. cbn [trimStart].
  destruct (is_white c); cbn [length]; lia.
Qed.

Lemma trim_In (x : Z) (s : jsstring) : In x (trim s) -> In x s.
Proof.
  unfold trim, trimEnd. intros H. apply trimStart_In.
  rewrite <- in_rev in H. apply trimStart_In in H.
  by rewrite <- in_rev in H.
Qed.

Lemma unbreak_no_LF (text : jsstring) : ~ In LF_unit (unbreak text).
Proof.
  unfold unbreak, LF_unit. intros H. apply in_map_iff in H.
  destruct H as (c & Hc & _). destruct (c =? 10) eqn:E; [done|].
  apply Z.eqb_neq in E. congruence.
Qed.

Lemma slice_to_length {A} (stop : Z) (l : list A) :
  0 <= stop -> Z.of_nat (length (slice_to stop l)) <= stop.
Proof.
  intros H. unfold slice_to.
  destruct (stop <? 0) eqn:E; [lia|]. rewrite length_take. lia.
Qed.

Lemma slice_to_In {A} (stop : Z) (l : list A) (x : A) :
  In x (slice_to stop l) -> In x l.
Proof.
  unfold slice_to. destruct (stop <? 0); intros H;
    apply list_elem_of_In; apply list_elem_of_In in H;
    by apply elem_of_take in H as (i & H & _); apply list_elem_of_lookup_2 in H.
Qed.

Lemma find_first_user (before after : list ChatMessage) (u : ChatMessage) :
  no_user before -> is_user u = true ->
  find is_user (before ++ u :: after) = Some u.
Proof.
  intros Hb Hu. induction Hb as [|m before Hm _ IH]; cbn [app find].
  - by rewrite Hu.
  - by rewrite Hm.
Qed.

(** A title has at most 53 code units. *)
Theorem generateTitle_bounded (messages : list ChatMessage) :
  (length (generateTitle messages) <= 53)%nat.
Proof.
  unfold generateTitle. destruct (find is_user messages) as [m|].
  - cbv zeta. destruct (_ <=? 50) eqn:E.
    + apply Z.leb_le in E. lia.
    + rewrite length_app.
      pose proof (slice_to_length 50 (trim (content m))).
      change (length (js "...")) with 3%nat. lia.
  - change (length (js "New Conversation")) with 16%nat. lia.
Qed.

(** The title of a conversation is made from its first user message
    alone: from the text without the white space around it, whole when
    it has at most 50 code units, else its first 50 followed by three
    dots. *)
Theorem generateTitle_first_user (before after : list ChatMessage)
    (u : ChatMessage) :
  no_user before ->
  is_user u = true ->
  let text := trim (content u) in
  generateTitle (before ++ u :: after)
  = if Z.of_nat (length text) <=? 50 then text
    else take 50 text ++ js "...".
Proof.
  intros Hb Hu. cbv zeta. unfold generateTitle.
  rewrite (find_first_user before after u Hb Hu). cbv zeta.
  destruct (_ <=? 50) eqn:E; [done|]. apply Z.leb_gt in E.
  unfold slice_to. change (50 <? 0) with false. cbv iota.
  do 2 f_equal. lia.
Qed.

(** A subtitle is one line of at most [max + 1] code units: it holds
    no line feed, and it is the text on one line, without the white
    space around it, or its first [max] code units followed by the
    mark for an omission. *)
Theorem truncate_one_line (text : jsstring) (max : Z) :
  0 <= max ->
  let oneLine := trim (unbreak text) in
  Z.of_nat (length (truncate text max)) <= max + 1
  /\ ~ In LF_unit (truncate text max)
  /\ (truncate text max = oneLine
      \/ (max < Z.of_nat (length oneLine)
          /\ truncate text max = take (Z.to_nat max) oneLine ++ [0x2026])).
Proof.
  intros Hmax. cbv zeta. unfold truncate. cbv zeta.
  destruct (_ <=? max) eqn:E.
  - apply Z.leb_le in E. split; [lia|]. split; [|by left].
    intros H. by apply trim_In, unbreak_no_LF in H.
  - apply Z.leb_gt in E. split; [|split].
    + rewrite length_app. pose proof (slice_to_length max
        (trim (unbreak text)) Hmax). cbn [length]. lia.
    + intros H. apply in_app_or in H as [H|H].
      * by apply slice_to_In, trim_In, unbreak_no_LF in H.
      * by destruct H.
    + right. split; [done|]. unfold slice_to.
      destruct (max <? 0) eqn:E'; [lia|]. do 2 f_equal. lia.
Qed.

Lemma generateTitle_first_user_witness :
  generateTitle [prompt; long_question; says "thanks"]
  = js "Please explain in detail how the streaming decoder..."
  /\ generateTitle [prompt; says " hello "; long_question] = js "hello".
Proof.
  split.
  - etransitivity;
      [apply (generateTitle_first_user [prompt] [says "thanks"]
                long_question); [by repeat constructor|reflexivity]|].
    by vm_compute.
  - etransitivity;
      [apply (generateTitle_first_user [prompt] [long_question]
                (says " hello ")); [by repeat constructor|reflexivity]|].
    by vm_compute.
Defined.

Lemma truncate_one_line_witness :
  Z.of_nat (length (truncate (js " one
two three ") 5)) <= 6.
Proof.
  assert (0 <= 5) as H by lia.
  exact (proj1 (truncate_one_line (js " one
two three ") 5 H)).
Defined.
